(** * The document storage and delivery service of [scripts/unified-server.js]
      and [scripts/mock-upload-server.js]

    A shallow embedding of the two Node servers: the path guard
    [isPathInside], the three API routes (upload, list, read), the
    bearer-token check and the build-then-serve start-up, over a model of the
    parts of the Node platform they call ([path], [fs/promises], [String],
    [Buffer]); then the query parsing and routing of the mock server and the
    requests of the client ([saveToServer] and the "open from server"
    dialog).

    Conventions of the model.
    - A JavaScript string is a [string] of bytes: well-formed text is held
      as its UTF-8 form, and an unpaired UTF-16 surrogate, which UTF-8 does
      not encode, as the three bytes that UTF-8's scheme gives its code unit
      ([surrogate_form]).  The servers only ever compare strings, cut them
      at ['/'] and ['.'] and join them around ASCII characters, which is the
      same on this form as on UTF-16 code units.  What [fs] writes for a
      string is [Buffer_from] of it (an unpaired surrogate becomes U+FFFD),
      and what it reads is [Buffer_toString] of the bytes on disk (bytes
      that are no UTF-8 become U+FFFD).
    - The file system is a finite tree of regular files, directories and
      symbolic links, read as one snapshot per request (no concurrent
      writers); it has no permissions or quotas, so that an [fs] call fails
      only for the shape of the tree.  A path handed to [fs] is read from
      the working directory and addresses the object at its normalized
      segments, name for name: this is what Node does for names that are
      well-formed UTF-8 (it encodes a path like any text, and decodes the
      names [readdir] reports).  The tree accepts a name of any length at any
      depth; the limits of the platform are written down as [platform_path]
      and [platform_tree], for the statements that say what is stored or
      found under given names.
    - Path lookups of the model do not resolve symbolic links: a path that
      runs into one is reported as the I/O error [ELOOP], where Node would
      go on at the link's target, which lies outside what a tree of names
      can tell.  Statements about what a request stores or finds behind a
      path assume a tree without links ([without_symlinks]).
    - Every [fs] call is recorded in an I/O log, so that "performs no I/O"
      is a statement about the log.
    - A handler is a computation on a world (tree, clock, I/O log, the
      response sent) that returns, throws, or runs out of fuel; only the
      recursive list walk takes fuel. *)

From Stdlib Require Import List String Ascii Bool Arith ZArith Lia Permutation.
Import ListNotations.
Open Scope string_scope.
Set Warnings "-register-all".

(** ** JavaScript string helpers *)

(** [s.startsWith(p)] *)
Fixpoint startsWith (s p : string) {struct p} : bool :=
  match p with
  | EmptyString => true
  | String a p' =>
      match s with
      | EmptyString => false
      | String b s' => Ascii.eqb a b && startsWith s' p'
      end
  end.

(** [s.endsWith(suf)]: some tail of [s] is [suf]. *)
Fixpoint endsWith (s suf : string) : bool :=
  (s =? suf) ||
  match s with
  | EmptyString => false
  | String _ s' => endsWith s' suf
  end.

(** [s.replace(/^\/+/, '')]: drop every leading slash. *)
Fixpoint strip_leading_slashes (s : string) : string :=
  match s with
  | String "/" s' => strip_leading_slashes s'
  | _ => s
  end.

(** JavaScript truthiness of a string: [!!s]. *)
Definition truthy_string (s : string) : bool :=
  match s with EmptyString => false | _ => true end.

(** ** Node's [path] module, POSIX flavour

    Node's implementation scans characters; its documented meaning is by
    segments, which is what is written here: a path is cut at every ['/'],
    empty and ["."] segments vanish, [".."] removes the segment before it. *)

Module path.

(** [s.split('/')] *)
Fixpoint split (s : string) : list string :=
  match s with
  | EmptyString => [EmptyString]
  | String c s' =>
      if Ascii.eqb c "/" then EmptyString :: split s'
      else match split s' with
           | [] => [String c EmptyString]
           | seg :: rest => String c seg :: rest
           end
  end.

(** [segs.join('/')] *)
Definition join_segs (segs : list string) : string := String.concat "/" segs.

(** [path.isAbsolute] *)
Definition isAbsolute (p : string) : bool :=
  match p with
  | String "/" _ => true
  | _ => false
  end.

(** One segment of Node's [normalizeString] loop: [acc] holds the segments
    kept so far, last one first. *)
Definition normalize_step (allowAboveRoot : bool) (acc : list string)
  (s : string) : list string :=
  if (s =? "") || (s =? ".") then acc
  else if s =? ".." then
    match acc with
    | a :: acc' =>
        if a =? ".." then (if allowAboveRoot then ".." :: acc else acc)
        else acc'
    | [] => if allowAboveRoot then [".."] else []
    end
  else s :: acc.

Definition normalize_segs (allowAboveRoot : bool) (p : string) : list string :=
  rev (fold_left (normalize_step allowAboveRoot) (split p) []).

(** [normalizeString(path, allowAboveRoot, '/')] *)
Definition normalizeString (allowAboveRoot : bool) (p : string) : string :=
  join_segs (normalize_segs allowAboveRoot p).

(** The right-to-left loop of [path.resolve]: [rargs] is the argument list
    reversed, followed by the working directory (the loop's [i = -1]). *)
Fixpoint resolve_loop (rargs : list string) (resolvedPath : string)
  : string * bool :=
  match rargs with
  | [] => (resolvedPath, false)
  | p :: rest =>
      match p with
      | EmptyString => resolve_loop rest resolvedPath
      | _ =>
          let resolvedPath' := p ++ "/" ++ resolvedPath in
          if isAbsolute p then (resolvedPath', true)
          else resolve_loop rest resolvedPath'
      end
  end.

Section WithCwd.

(** [process.cwd()] *)
Variable cwd : string.

(** The normalized segments of [path.resolve(...args)]. *)
Definition resolve_segs (args : list string) : list string :=
  let '(resolvedPath, resolvedAbsolute) :=
    resolve_loop (rev args ++ [cwd])%list "" in
  normalize_segs (negb resolvedAbsolute) resolvedPath.

(** [path.resolve(...args)] *)
Definition resolve (args : list string) : string :=
  let '(resolvedPath, resolvedAbsolute) :=
    resolve_loop (rev args ++ [cwd])%list "" in
  let n := normalizeString (negb resolvedAbsolute) resolvedPath in
  if resolvedAbsolute then "/" ++ n
  else match n with EmptyString => "." | _ => n end.

(** The segments two paths share from the front are dropped from both. *)
Fixpoint drop_common (from to : list string) : list string * list string :=
  match from, to with
  | f :: from', t :: to' =>
      if f =? t then drop_common from' to' else (from, to)
  | _, _ => (from, to)
  end.

(** [path.relative(from, to)]: one [".."] per segment left of [from], then
    what is left of [to]. *)
Definition relative (from to : string) : string :=
  if from =? to then ""
  else
    let from' := resolve [from] in
    let to' := resolve [to] in
    if from' =? to' then ""
    else
      let '(up, down) := drop_common (resolve_segs [from]) (resolve_segs [to]) in
      join_segs (map (fun _ => "..") up ++ down)%list.

End WithCwd.

(** [path.basename(p)]: the last non-empty segment, [""] when there is none. *)
Definition basename (p : string) : string :=
  last (filter truthy_string (split p)) "".

(** [path.normalize(p)] *)
Definition normalize (p : string) : string :=
  match p with
  | EmptyString => "."
  | _ =>
      let isAbs := isAbsolute p in
      let trailingSeparator := endsWith p "/" in
      let n := normalizeString (negb isAbs) p in
      match n with
      | EmptyString =>
          if isAbs then "/" else if trailingSeparator then "./" else "."
      | _ =>
          let n' := if trailingSeparator then n ++ "/" else n in
          if isAbs then "/" ++ n' else n'
      end
  end.

(** [path.join(a, b)]: the non-empty arguments glued by ['/'], normalized. *)
Definition join (a b : string) : string :=
  match a, b with
  | EmptyString, EmptyString => "."
  | EmptyString, _ => normalize b
  | _, EmptyString => normalize a
  | _, _ => normalize (a ++ "/" ++ b)
  end.

(** The backwards scan of [path.dirname] over the reversed characters after
    the first one: trailing slashes are skipped, then the last segment. *)
Fixpoint skip_slashes (r : list ascii) : list ascii :=
  match r with
  | c :: r' => if Ascii.eqb c "/" then skip_slashes r' else r
  | [] => []
  end.

Fixpoint skip_segment (r : list ascii) : list ascii :=
  match r with
  | c :: r' => if Ascii.eqb c "/" then r else skip_segment r'
  | [] => []
  end.

(** [path.dirname(p)] *)
Definition dirname (p : string) : string :=
  match p with
  | EmptyString => "."
  | String c0 tl =>
      let hasRoot := Ascii.eqb c0 "/" in
      match skip_segment (skip_slashes (rev (list_ascii_of_string tl))) with
      | [] => if hasRoot then "/" else "."
      | _ :: before =>
          match before with
          | [] => if hasRoot then "//"
                  else String c0 EmptyString
          | _ => String c0 (string_of_list_ascii (rev before))
          end
      end
  end.

End path.

(** ** JSON values and JavaScript coercions *)

(** A JavaScript number, by the two things the servers observe of it:
    whether it is falsy ([0], [-0], [NaN]) and the text [String(n)] gives. *)
Record JSNumber := { num_is_zero_or_nan : bool; num_text : string }.

(** What [JSON.parse] (or [express.json]) can produce, plus [undefined] for
    an absent property or body.  [JObj] lists the object's own properties. *)
Inductive value : Type :=
| JUndefined
| JNull
| JBool (b : bool)
| JNum (n : JSNumber)
| JStr (s : string)
| JArr (items : list value)
| JObj (props : list (string * value)).

Fixpoint assoc {A : Type} (k : string) (l : list (string * A)) : option A :=
  match l with
  | [] => None
  | (k', v) :: l' => if k' =? k then Some v else assoc k l'
  end.

Definition has_key {A : Type} (k : string) (l : list (string * A)) : bool :=
  match assoc k l with Some _ => true | None => false end.

(** [!!v] *)
Definition truthy (v : value) : bool :=
  match v with
  | JUndefined | JNull => false
  | JBool b => b
  | JNum n => negb (num_is_zero_or_nan n)
  | JStr s => truthy_string s
  | JArr _ | JObj _ => true
  end.

(** [v || ''] *)
Definition or_empty (v : value) : value := if truthy v then v else JStr "".

(** [body.k] for the keys the servers read ([filename], [content], [dir]):
    an own property of a parsed object, [undefined] on anything else. *)
Definition get_prop (body : value) (k : string) : value :=
  match body with
  | JObj props => match assoc k props with Some v => v | None => JUndefined end
  | _ => JUndefined
  end.

(** [typeof v === 'string'] *)
Definition is_string (v : value) : bool :=
  match v with JStr _ => true | _ => false end.

(** [String(v)]; [None] is the [TypeError] "Cannot convert object to
    primitive value".  A parsed object has no callable property of its own,
    so an own ["toString"] hides [Object.prototype.toString] and the
    conversion throws; without it the result is ["[object Object]"].  An
    array is its elements joined by [","], [null] and [undefined] elements
    giving the empty string. *)
Fixpoint ToString (v : value) : option string :=
  match v with
  | JUndefined => Some "undefined"
  | JNull => Some "null"
  | JBool b => Some (if b then "true" else "false")
  | JNum n => Some (num_text n)
  | JStr s => Some s
  | JArr items =>
      (fix join_items (l : list value) : option string :=
         match l with
         | [] => Some ""
         | x :: rest =>
             let sx := match x with
                       | JUndefined | JNull => Some ""
                       | _ => ToString x
                       end in
             match rest with
             | [] => sx
             | _ =>
                 match sx, join_items rest with
                 | Some a, Some b => Some (a ++ "," ++ b)
                 | _, _ => None
                 end
             end
         end) items
  | JObj props =>
      if has_key "toString" props then None else Some "[object Object]"
  end.

(** ** Text and bytes *)

Definition continuation (b : nat) : bool := ((128 <=? b) && (b <=? 191))%nat.

(** The octets are the UTF-8 encoding of one code point beyond ASCII: the
    shortest form, no surrogate, nothing above U+10FFFF. *)
Definition utf8_code_point (octets : list ascii) : bool :=
  match map nat_of_ascii octets with
  | [b0; b1] => ((194 <=? b0) && (b0 <=? 223) && continuation b1)%nat
  | [b0; b1; b2] =>
      (((b0 =? 224) && (160 <=? b1) && (b1 <=? 191) && continuation b2) ||
       ((225 <=? b0) && (b0 <=? 236) && continuation b1 && continuation b2) ||
       ((b0 =? 237) && (128 <=? b1) && (b1 <=? 159) && continuation b2) ||
       ((238 <=? b0) && (b0 <=? 239) && continuation b1 && continuation b2))%nat
  | [b0; b1; b2; b3] =>
      (((b0 =? 240) && (144 <=? b1) && (b1 <=? 191) && continuation b2
        && continuation b3) ||
       ((241 <=? b0) && (b0 <=? 243) && continuation b1 && continuation b2
        && continuation b3) ||
       ((b0 =? 244) && (128 <=? b1) && (b1 <=? 143) && continuation b2
        && continuation b3))%nat
  | _ => false
  end.

(** Well-formed UTF-8, code point after code point: the form of a
    JavaScript string without unpaired surrogates. *)
Fixpoint utf8_text (s : string) : bool :=
  match s with
  | EmptyString => true
  | String c0 s1 =>
      if (nat_of_ascii c0 <? 128)%nat then utf8_text s1
      else
        match s1 with
        | String c1 s2 =>
            if utf8_code_point [c0; c1] then utf8_text s2
            else
              match s2 with
              | String c2 s3 =>
                  if utf8_code_point [c0; c1; c2] then utf8_text s3
                  else
                    match s3 with
                    | String c3 s4 =>
                        utf8_code_point [c0; c1; c2; c3] && utf8_text s4
                    | EmptyString => false
                    end
              | EmptyString => false
              end
        | EmptyString => false
        end
  end.

(** The first two octets of a code point of three octets, and of one of
    four. *)
Definition utf8_lead3 (b0 b1 : nat) : bool :=
  (((b0 =? 224) && (160 <=? b1) && (b1 <=? 191)) ||
   ((225 <=? b0) && (b0 <=? 236) && continuation b1) ||
   ((b0 =? 237) && (128 <=? b1) && (b1 <=? 159)) ||
   ((238 <=? b0) && (b0 <=? 239) && continuation b1))%nat.

Definition utf8_lead4 (b0 b1 : nat) : bool :=
  (((b0 =? 240) && (144 <=? b1) && (b1 <=? 191)) ||
   ((241 <=? b0) && (b0 <=? 243) && continuation b1) ||
   ((b0 =? 244) && (128 <=? b1) && (b1 <=? 143)))%nat.

(** The three bytes that hold an unpaired surrogate, U+D800 to U+DFFF.  (A
    surrogate pair is one code point of well-formed text, held as the four
    bytes of its UTF-8 form.) *)
Definition surrogate_form (c0 c1 c2 : ascii) : bool :=
  ((nat_of_ascii c0 =? 237) && (160 <=? nat_of_ascii c1)
   && (nat_of_ascii c1 <=? 191) && continuation (nat_of_ascii c2))%nat.

(** U+FFFD, the replacement character, in UTF-8. *)
Definition U_FFFD : string :=
  String "239" (String "191" (String "189" EmptyString)).

(** [Buffer.from(s, 'utf8')], the bytes [fs.writeFile(p, s, 'utf8')]
    writes: the UTF-8 form of [s], in which an unpaired surrogate is
    replaced by U+FFFD. *)
Fixpoint Buffer_from (s : string) : string :=
  match s with
  | EmptyString => EmptyString
  | String c0 s1 =>
      match s1 with
      | String c1 (String c2 s3) =>
          if surrogate_form c0 c1 c2 then U_FFFD ++ Buffer_from s3
          else String c0 (Buffer_from s1)
      | _ => String c0 (Buffer_from s1)
      end
  end.

(** [buf.toString('utf8')], the string [fs.readFile(p, 'utf8')] gives for
    the bytes of a file: code points are read one after the other, and
    every longest run of bytes that begins a code point but is not
    continued by the next byte, like every byte that begins none, becomes
    one U+FFFD (the UTF-8 decoder of the Encoding Standard).  A byte order
    mark is kept. *)
Fixpoint Buffer_toString (s : string) : string :=
  match s with
  | EmptyString => EmptyString
  | String c0 s1 =>
      let b0 := nat_of_ascii c0 in
      if (b0 <? 128)%nat then String c0 (Buffer_toString s1)
      else
        match s1 with
        | EmptyString => U_FFFD
        | String c1 s2 =>
            let b1 := nat_of_ascii c1 in
            if utf8_code_point [c0; c1] then
              String c0 (String c1 (Buffer_toString s2))
            else if utf8_lead3 b0 b1 || utf8_lead4 b0 b1 then
              match s2 with
              | EmptyString => U_FFFD
              | String c2 s3 =>
                  if utf8_code_point [c0; c1; c2] then
                    String c0 (String c1 (String c2 (Buffer_toString s3)))
                  else if utf8_lead4 b0 b1 && continuation (nat_of_ascii c2)
                  then
                    match s3 with
                    | EmptyString => U_FFFD
                    | String c3 s4 =>
                        if utf8_code_point [c0; c1; c2; c3] then
                          String c0 (String c1 (String c2 (String c3
                            (Buffer_toString s4))))
                        else U_FFFD ++ Buffer_toString s3
                    end
                  else U_FFFD ++ Buffer_toString s2
              end
            else U_FFFD ++ Buffer_toString s1
        end
  end.

(** [Buffer.byteLength(s, 'utf8')], the length of [Buffer.from(s, 'utf8')]:
    a string has as many bytes as it is held in, an unpaired surrogate and
    the U+FFFD written for it both taking three. *)
Definition byteLength (s : string) : nat := String.length s.

(** [s.toLowerCase()] on the ASCII letters (no other character lowers to
    one of them in a way that matters for comparing with ["true"]). *)
Definition lower_ascii (c : ascii) : ascii :=
  let n := nat_of_ascii c in
  if ((65 <=? n) && (n <=? 90))%nat then ascii_of_nat (n + 32) else c.

Fixpoint toLowerCase (s : string) : string :=
  match s with
  | EmptyString => EmptyString
  | String c s' => String (lower_ascii c) (toLowerCase s')
  end.

(** ** The file system *)

Inductive errno := ENOENT | ENOTDIR | EISDIR | EEXIST | ELOOP.

(** What a JavaScript [catch] can receive here. *)
Inductive exn :=
| IOError (e : errno)
| TypeError.

(** A file-system object.  A regular file holds bytes.  A directory lists
    its entries in the order [readdir] reports them; names in one directory
    are distinct. *)
Inductive node : Type :=
| File (content : string) (mtimeMs : Z)
| Dir (entries : list (string * node))
| Symlink (target : string).

Inductive kind := KFile | KDir | KSymlink.

(** [fs.Dirent], as [readdir(..., {withFileTypes: true})] gives it: the
    type is that of the entry itself, a symbolic link is not resolved. *)
Record Dirent := { d_name : string; d_kind : kind }.

Definition isDirectory (ent : Dirent) : bool :=
  match d_kind ent with KDir => true | _ => false end.

Definition isFile (ent : Dirent) : bool :=
  match d_kind ent with KFile => true | _ => false end.

Definition kind_of (n : node) : kind :=
  match n with
  | File _ _ => KFile
  | Dir _ => KDir
  | Symlink _ => KSymlink
  end.

(** [fs.Stats], the two fields the servers read.  For a directory the
    model reports zeros. *)
Record Stats := { st_size : nat; st_mtimeMs : Z }.

(** Replace the entry named [k], keeping its place. *)
Fixpoint set_entry (k : string) (n : node) (es : list (string * node))
  : list (string * node) :=
  match es with
  | [] => [(k, n)]
  | (k', n') :: es' =>
      if k' =? k then (k, n) :: es' else (k', n') :: set_entry k n es'
  end.

(** The object at a path given by its segments below [n]. *)
Fixpoint lookup (n : node) (ps : list string) : errno + node :=
  match ps with
  | [] => inr n
  | p :: ps' =>
      match n with
      | Dir es =>
          match assoc p es with
          | Some c => lookup c ps'
          | None => inl ENOENT
          end
      | File _ _ => inl ENOTDIR
      | Symlink _ => inl ELOOP
      end
  end.

(** A fresh chain of directories [p1/p2/...]. *)
Fixpoint fresh_dirs (ps : list string) : node :=
  match ps with
  | [] => Dir []
  | p :: ps' => Dir [(p, fresh_dirs ps')]
  end.

(** [mkdir -p]: existing directories are kept, missing ones created. *)
Fixpoint mkdir_p (n : node) (ps : list string) : errno + node :=
  match n with
  | File _ _ => inl (match ps with [] => EEXIST | _ => ENOTDIR end)
  | Symlink _ => inl ELOOP
  | Dir es =>
      match ps with
      | [] => inr n
      | p :: ps' =>
          match assoc p es with
          | Some c =>
              match mkdir_p c ps' with
              | inr c' => inr (Dir (set_entry p c' es))
              | inl e => inl e
              end
          | None => inr (Dir (set_entry p (fresh_dirs ps') es))
          end
      end
  end.

(** Create or replace the regular file at [ps]; its directory must exist. *)
Fixpoint write_at (n : node) (ps : list string) (data : string) (now : Z)
  : errno + node :=
  match ps with
  | [] => inl (match n with Symlink _ => ELOOP | _ => EISDIR end)
  | p :: ps' =>
      match n with
      | File _ _ => inl ENOTDIR
      | Symlink _ => inl ELOOP
      | Dir es =>
          match ps' with
          | [] =>
              match assoc p es with
              | Some (Dir _) => inl EISDIR
              | Some (Symlink _) => inl ELOOP
              | _ => inr (Dir (set_entry p (File data now) es))
              end
          | _ =>
              match assoc p es with
              | Some c =>
                  match write_at c ps' data now with
                  | inr c' => inr (Dir (set_entry p c' es))
                  | inl e => inl e
                  end
              | None => inl ENOENT
              end
          end
      end
  end.

(** ** Requests, responses and the world a handler runs in *)

(** One element of the [files] array of [GET /files]. *)
Record FileInfo := {
  fi_name : string;
  fi_relativePath : string;
  fi_dir : string;
  fi_size : nat;
  fi_mtime : Z
}.

(** The JSON bodies the servers send. *)
Inductive body :=
| BError (error : string)                            (* {ok:false, error} *)
| BUpload (path : string) (size : nat)               (* {ok:true, path, size} *)
| BFiles (files : list FileInfo)                     (* {ok:true, files} *)
| BFile (name relativePath content : string).        (* {ok:true, name, ...} *)

Record response := { status : nat; json : body }.

(** The calls into [fs] and [fs/promises]. *)
Inductive io_op :=
| IoMkdir (p : string)
| IoWriteFile (p data : string)
| IoReadFile (p : string)
| IoReaddir (p : string)
| IoStat (p : string).

Record world := {
  w_fs : node;                 (* the tree below "/" *)
  w_now : Z;                   (* the clock, for modification times *)
  w_log : list io_op;          (* the fs calls made so far *)
  w_res : option response      (* what has been sent on [res] *)
}.

Definition set_fs (fs : node) (w : world) : world :=
  {| w_fs := fs; w_now := w_now w; w_log := w_log w; w_res := w_res w |}.

Definition add_log (op : io_op) (w : world) : world :=
  {| w_fs := w_fs w; w_now := w_now w; w_log := (w_log w ++ [op])%list;
     w_res := w_res w |}.

Definition set_res (r : response) (w : world) : world :=
  {| w_fs := w_fs w; w_now := w_now w; w_log := w_log w; w_res := Some r |}.

(** A computation returns, throws, or (for the fuelled recursion of the
    list walk only) runs out of fuel. *)
Inductive outcome (A : Type) :=
| Val (a : A)
| Throw (e : exn)
| OutOfFuel.
Arguments Val {A} a.
Arguments Throw {A} e.
Arguments OutOfFuel {A}.

Definition M (A : Type) : Type := world -> outcome A * world.

Definition ret {A} (a : A) : M A := fun w => (Val a, w).

Definition bind {A B} (m : M A) (k : A -> M B) : M B :=
  fun w =>
    match m w with
    | (Val a, w') => k a w'
    | (Throw e, w') => (Throw e, w')
    | (OutOfFuel, w') => (OutOfFuel, w')
    end.

Definition throw {A} (e : exn) : M A := fun w => (Throw e, w).

(** [try { m } catch (e) { h }] *)
Definition try_catch {A} (m : M A) (h : exn -> M A) : M A :=
  fun w =>
    match m w with
    | (Throw e, w') => h e w'
    | r => r
    end.

Notation "x <- m ;; k" := (bind m (fun x => k))
  (at level 61, m at next level, right associativity).
Notation "m ;; k" := (bind m (fun _ => k))
  (at level 61, right associativity).

(** An [fs] call: logged, then run on the tree. *)
Definition fs_call {A} (op : io_op) (f : world -> errno + (A * node)) : M A :=
  fun w =>
    let w' := add_log op w in
    match f w with
    | inr (a, fs') => (Val a, set_fs fs' w')
    | inl e => (Throw (IOError e), w')
    end.

(** [res.status(s).json(b)] *)
Definition send (s : nat) (b : body) : M unit :=
  fun w => (Val tt, set_res {| status := s; json := b |} w).

(** [String(v)] as a computation. *)
Definition js_String (v : value) : M string :=
  match ToString v with
  | Some s => ret s
  | None => throw TypeError
  end.

Definition dirents (es : list (string * node)) : list Dirent :=
  map (fun e => {| d_name := fst e; d_kind := kind_of (snd e) |}) es.

Definition stats_of (n : node) : Stats :=
  match n with
  | File c m => {| st_size := String.length c; st_mtimeMs := m |}
  | _ => {| st_size := 0; st_mtimeMs := 0%Z |}
  end.

Section Platform.

Variable cwd : string.

(** The segments of the object an [fs] call on [p] addresses. *)
Definition fs_segs (p : string) : list string := path.resolve_segs cwd [p].

(** [fsp.mkdir(dir, {recursive: true})] *)
Definition fsp_mkdir_recursive (dir : string) : M unit :=
  fs_call (IoMkdir dir) (fun w =>
    match mkdir_p (w_fs w) (fs_segs dir) with
    | inr fs' => inr (tt, fs')
    | inl e => inl e
    end).

(** [fsp.writeFile(p, data, 'utf8')] *)
Definition fsp_writeFile (p data : string) : M unit :=
  fs_call (IoWriteFile p data) (fun w =>
    match write_at (w_fs w) (fs_segs p) (Buffer_from data) (w_now w) with
    | inr fs' => inr (tt, fs')
    | inl e => inl e
    end).

(** [fsp.readFile(p, 'utf8')] *)
Definition fsp_readFile (p : string) : M string :=
  fs_call (IoReadFile p) (fun w =>
    match lookup (w_fs w) (fs_segs p) with
    | inr (File c _) => inr (Buffer_toString c, w_fs w)
    | inr (Dir _) => inl EISDIR
    | inr (Symlink _) => inl ELOOP
    | inl e => inl e
    end).

(** [fsp.readdir(dir, {withFileTypes: true})] *)
Definition fsp_readdir (dir : string) : M (list Dirent) :=
  fs_call (IoReaddir dir) (fun w =>
    match lookup (w_fs w) (fs_segs dir) with
    | inr (Dir es) => inr (dirents es, w_fs w)
    | inr (File _ _) => inl ENOTDIR
    | inr (Symlink _) => inl ELOOP
    | inl e => inl e
    end).

(** [fsp.stat(p)] *)
Definition fsp_stat (p : string) : M Stats :=
  fs_call (IoStat p) (fun w =>
    match lookup (w_fs w) (fs_segs p) with
    | inr (Symlink _) => inl ELOOP
    | inr n => inr (stats_of n, w_fs w)
    | inl e => inl e
    end).

(** ** The code both servers share, word for word *)

(** [isPathInside(parent, child)] *)
Definition isPathInside (parent child : string) : bool :=
  let rel := path.relative cwd parent child in
  truthy_string rel && negb (startsWith rel "..") && negb (path.isAbsolute rel).

(** [ensureDir(dir)] *)
Definition ensureDir (dir : string) : M unit := fsp_mkdir_recursive dir.

(** [listDrawnixFiles(dir, base)].  The recursion follows the directory
    structure found on disk, so it is given fuel: one unit per nesting
    level. *)
Fixpoint listDrawnixFiles (fuel : nat) (dir base : string)
  : M (list FileInfo) :=
  match fuel with
  | O => fun w => (OutOfFuel, w)
  | S fuel' =>
      entries <- fsp_readdir dir ;;
      (fix loop (ents : list Dirent) (results : list FileInfo)
         : M (list FileInfo) :=
         match ents with
         | [] => ret results
         | ent :: rest =>
             let abs := path.join dir (d_name ent) in
             if isDirectory ent then
               nested <- listDrawnixFiles fuel' abs base ;;
               loop rest (results ++ nested)%list
             else if isFile ent && endsWith (d_name ent) ".drawnix" then
               stat <- fsp_stat abs ;;
               let rel := path.relative cwd base abs in
               loop rest
                 (results ++
                  [{| fi_name := d_name ent;
                      fi_relativePath := rel;
                      fi_dir := if path.dirname rel =? "." then ""
                                else path.dirname rel;
                      fi_size := st_size stat;
                      fi_mtime := st_mtimeMs stat |}])%list
             else loop rest results
         end) entries []
  end.

End Platform.

(** ** [scripts/unified-server.js] *)

Module Unified.

Section Routes.

Variable cwd : string.
(** [BASE_DIR] and [REQ_TOKEN], read once from the environment. *)
Variable BASE_DIR : string.
Variable REQ_TOKEN : string.

(** [authCheck(req, res)]; the argument is [req.get('authorization')]. *)
Definition authCheck (authorization : option string) : M bool :=
  if negb (truthy_string REQ_TOKEN) then ret true
  else
    let auth := match authorization with
                | Some a => if truthy_string a then a else ""
                | None => ""
                end in
    let ok := auth =? "Bearer " ++ REQ_TOKEN in
    (if negb ok then send 401 (BError "Unauthorized") else ret tt) ;;
    ret ok.

(** [POST /upload]; [req_body] is [req.body] as [express.json] left it. *)
Definition upload (authorization : option string) (req_body : value)
  : M unit :=
  ok <- authCheck authorization ;;
  if negb ok then ret tt
  else
    let body := if truthy req_body then req_body else JObj [] in
    let filename := or_empty (get_prop body "filename") in
    let content := or_empty (get_prop body "content") in
    let dir := or_empty (get_prop body "dir") in
    match filename with
    | JStr (String _ _ as filename) =>
        let safeName := path.basename filename in
        dir_s <- (if truthy dir then js_String dir else ret "") ;;
        let targetDir := path.resolve cwd [BASE_DIR; dir_s] in
        let targetPath := path.resolve cwd [targetDir; safeName] in
        if negb (isPathInside cwd BASE_DIR targetPath) then
          send 400 (BError "Invalid path")
        else
          try_catch
            (ensureDir cwd targetDir ;;
             data <- js_String content ;;
             fsp_writeFile cwd targetPath data ;;
             send 200 (BUpload targetPath (byteLength data)))
            (fun _ => send 500 (BError "Write failed"))
    | _ =>
        (* !filename || typeof filename !== 'string' *)
        send 400 (BError "filename required")
    end.

(** [GET /files] *)
Definition files (fuel : nat) (authorization : option string) : M unit :=
  ok <- authCheck authorization ;;
  if negb ok then ret tt
  else
    try_catch
      (ensureDir cwd BASE_DIR ;;
       fs <- listDrawnixFiles cwd fuel BASE_DIR BASE_DIR ;;
       send 200 (BFiles fs))
      (fun _ => send 500 (BError "List failed")).

(** [GET /file]; [query_path] is [req.query.path] when it is a string. *)
Definition file (authorization : option string) (query_path : option string)
  : M unit :=
  ok <- authCheck authorization ;;
  if negb ok then ret tt
  else
    let rel := strip_leading_slashes
                 (match query_path with Some p => p | None => "" end) in
    if negb (truthy_string rel) then send 400 (BError "path required")
    else
      let abs := path.resolve cwd [BASE_DIR; rel] in
      if negb (isPathInside cwd BASE_DIR abs) then
        send 400 (BError "Invalid path")
      else
        try_catch
          (content <- fsp_readFile cwd abs ;;
           send 200 (BFile (path.basename abs) rel content))
          (fun _ => send 404 (BError "Not Found")).

End Routes.

(** *** Start-up: [buildFrontendIfNeeded] and [main] *)

(** What the process meets when it starts. *)
Record startup := {
  env_FORCE_BUILD : option string;   (* process.env.FORCE_BUILD *)
  base_dir_ready : bool;             (* ensureDirSync(BASE_DIR) returns *)
  index_exists : bool;               (* fs.existsSync(INDEX_HTML) *)
  build_status : option Z            (* res.status of spawnSync; null if the
                                        child was killed or never started *)
}.

(** What the process does, in order. *)
Inductive event :=
| EnsureBaseDir
| SpawnBuild                         (* spawnSync('npm', ['run','build:web']) *)
| Exit (code : Z)                    (* process.exit(code) *)
| Listen.                            (* app.listen(PORT) *)

(** [String(process.env.FORCE_BUILD || '').toLowerCase() === 'true'] *)
Definition FORCE_BUILD (s : startup) : bool :=
  toLowerCase (match env_FORCE_BUILD s with Some v => v | None => "" end)
  =? "true".

(** [buildFrontendIfNeeded()]: the events, and the exit code if the process
    was ended by [process.exit]. *)
Definition buildFrontendIfNeeded (s : startup) : list event * option Z :=
  let needBuild := FORCE_BUILD s || negb (index_exists s) in
  if negb needBuild then ([], None)
  else
    match build_status s with
    | Some 0%Z => ([SpawnBuild], None)
    | Some code => ([SpawnBuild; Exit code], Some code)   (* res.status || 1 *)
    | None => ([SpawnBuild; Exit 1%Z], Some 1%Z)
    end.

(** [main()] up to [app.listen], with the [catch] of its caller. *)
Definition main (s : startup) : list event :=
  if negb (base_dir_ready s) then [EnsureBaseDir; Exit 1%Z]
  else
    match buildFrontendIfNeeded s with
    | (evs, Some _) => EnsureBaseDir :: evs
    | (evs, None) => (EnsureBaseDir :: evs ++ [Listen])%list
    end.

End Unified.

(** ** [scripts/mock-upload-server.js] *)

Module Mock.

Section Routes.

Variable cwd : string.
Variable BASE_DIR : string.
Variable REQ_TOKEN : string.

(** The check each handler opens with; the argument is
    [req.headers['authorization']].  [true] when the handler goes on. *)
Definition authorized (authorization : option string) : M bool :=
  if truthy_string REQ_TOKEN then
    let auth := match authorization with
                | Some a => if truthy_string a then a else ""
                | None => ""
                end in
    let expected := "Bearer " ++ REQ_TOKEN in
    if negb (auth =? expected) then
      send 401 (BError "Unauthorized") ;; ret false
    else ret true
  else ret true.

(** [handleUpload], from the ['end'] of the request body on: [parsed] is
    [JSON.parse(raw || '{}')], [None] when it throws.  How [raw] is
    gathered from the chunks of the body, and the cut-off at 10 MB, are
    not part of the model. *)
Definition handleUpload (authorization : option string)
  (parsed : option value) : M unit :=
  ok <- authorized authorization ;;
  if negb ok then ret tt
  else
    match parsed with
    | None => send 400 (BError "Invalid JSON")
    | Some body =>
        let field k := or_empty (if truthy body then get_prop body k
                                 else body) in
        let filename := field "filename" in
        let content := field "content" in
        let dir := field "dir" in
        match filename with
        | JStr (String _ _ as filename) =>
            let safeName := path.basename filename in
            dir_s <- (if truthy dir then js_String dir else ret "") ;;
            let targetDir := path.resolve cwd [BASE_DIR; dir_s] in
            let targetPath := path.resolve cwd [targetDir; safeName] in
            if negb (isPathInside cwd BASE_DIR targetPath) then
              send 400 (BError "Invalid path")
            else
              try_catch
                (ensureDir cwd targetDir ;;
                 data <- js_String content ;;
                 fsp_writeFile cwd targetPath data ;;
                 send 200 (BUpload targetPath (byteLength data)))
                (fun _ => send 500 (BError "Write failed"))
        | _ => send 400 (BError "filename required")
        end
    end.

(** [handleListFiles] *)
Definition handleListFiles (fuel : nat) (authorization : option string)
  : M unit :=
  ok <- authorized authorization ;;
  if negb ok then ret tt
  else
    try_catch
      (ensureDir cwd BASE_DIR ;;
       fs <- listDrawnixFiles cwd fuel BASE_DIR BASE_DIR ;;
       send 200 (BFiles fs))
      (fun _ => send 500 (BError "List failed")).

(** [handleReadFile]; [q_path] is [parseQuery(req.url).path]. *)
Definition handleReadFile (authorization : option string)
  (q_path : option string) : M unit :=
  ok <- authorized authorization ;;
  if negb ok then ret tt
  else
    let rel := strip_leading_slashes
                 (match q_path with Some p => p | None => "" end) in
    if negb (truthy_string rel) then send 400 (BError "path required")
    else
      let abs := path.resolve cwd [BASE_DIR; rel] in
      if negb (isPathInside cwd BASE_DIR abs) then
        send 400 (BError "Invalid path")
      else
        try_catch
          (content <- fsp_readFile cwd abs ;;
           send 200 (BFile (path.basename abs) rel content))
          (fun _ => send 404 (BError "Not Found")).

End Routes.

End Mock.

(** * Vocabulary of the statements *)

(** No ['/'] in [s]. *)
Fixpoint slash_free (s : string) : bool :=
  match s with
  | EmptyString => true
  | String c s' => negb (Ascii.eqb c "/") && slash_free s'
  end.

(** A name a directory entry can have: not empty, not ["."] or [".."], and
    without ['/']. *)
Definition valid_name (s : string) : bool :=
  negb (s =? "") && negb (s =? ".") && negb (s =? "..") && slash_free s.

Definition all_valid (l : list string) : Prop :=
  Forall (fun x => valid_name x = true) l.

(** A segment that normalization keeps in place. *)
Definition kept (s : string) : Prop :=
  s <> "" /\ s <> "." /\ slash_free s = true.

Definition no_slash (l : list ascii) : Prop :=
  Forall (fun c => Ascii.eqb c "/" = false) l.

(** Pushing the segments [xs] of a path onto the directory [B], both as
    segment lists: what resolving a relative path against [B] means. *)
Definition push_segs (B xs : list string) : list string :=
  rev (fold_left (path.normalize_step false) xs (rev B)).

(** One argument of [path.resolve], read left to right: an absolute path
    starts again from the root, a relative one goes on from [B]. *)
Definition resolve_one (B : list string) (p : string) : list string :=
  push_segs (if path.isAbsolute p then [] else B) (path.split p).

(** The segments of the working directory. *)
Definition cwd_segs (cwd : string) : list string :=
  push_segs [] (path.split cwd).

(** [P] is a strict descendant of [R], both as normalized segment lists:
    [P] is [R] followed by at least one more segment. *)
Definition strict_descendant (R P : list string) : Prop :=
  exists s r, P = (R ++ s :: r)%list.

(** Nesting depth of a tree: the fuel the list walk needs on it. *)
Fixpoint depth (n : node) : nat :=
  match n with
  | Dir es =>
      S ((fix go (l : list (string * node)) : nat :=
            match l with
            | [] => 0
            | e :: l' => Nat.max (depth (snd e)) (go l')
            end) es)
  | _ => 0
  end.

Fixpoint distinct (l : list string) : bool :=
  match l with
  | [] => true
  | x :: l' => negb (existsb (String.eqb x) l') && distinct l'
  end.

(** A well-formed tree: in every directory the names are valid and
    pairwise different, as [readdir] guarantees. *)
Fixpoint wf_node (n : node) : bool :=
  match n with
  | Dir es =>
      distinct (map fst es) && forallb valid_name (map fst es) &&
      (fix go (l : list (string * node)) : bool :=
         match l with
         | [] => true
         | e :: l' => wf_node (snd e) && go l'
         end) es
  | _ => true
  end.

(** The documents of a tree, read off the tree itself: every regular file
    whose name ends in [".drawnix"] and that is reached through
    directories only, in [readdir] order, with the fields of its
    [StoredDocument]; [prefix] is the path of [n] below the storage root. *)
Fixpoint documents (prefix : list string) (n : node) : list FileInfo :=
  match n with
  | Dir es =>
      (fix go (l : list (string * node)) : list FileInfo :=
         match l with
         | [] => []
         | e :: l' =>
             (match snd e with
              | Dir _ => documents (prefix ++ [fst e]) (snd e)
              | File ct m =>
                  if endsWith (fst e) ".drawnix" then
                    [{| fi_name := fst e;
                        fi_relativePath := path.join_segs (prefix ++ [fst e]);
                        fi_dir := path.join_segs prefix;
                        fi_size := String.length ct;
                        fi_mtime := m |}]
                  else []
              | Symlink _ => []
              end ++ go l')%list
         end) es
  | _ => []
  end.

(** The same tree without its symbolic links. *)
Fixpoint without_symlinks (n : node) : node :=
  match n with
  | Dir es =>
      Dir ((fix go (l : list (string * node)) : list (string * node) :=
              match l with
              | [] => []
              | e :: l' =>
                  match snd e with
                  | Symlink _ => go l'
                  | _ => (fst e, without_symlinks (snd e)) :: go l'
                  end
              end) es)
  | _ => n
  end.

(** *** The limits of the platform

    The tree of the model takes any name at any depth.  Linux does not: a
    path handed to a system call has fewer than [PATH_MAX] bytes, and each
    of its names at most [NAME_MAX] (on its native file systems).  Node
    refuses a path that holds U+0000, and it hands a name over unchanged,
    to the system and back from [readdir], when the name is well-formed
    UTF-8. *)
Definition NAME_MAX : nat := 255.
Definition PATH_MAX : nat := 4096.

Definition nul_free (s : string) : bool :=
  forallb (fun c => negb (Ascii.eqb c zero)) (list_ascii_of_string s).

(** A name that a directory of the platform can hold and that Node reports
    as it is. *)
Definition platform_name (s : string) : bool :=
  valid_name s && utf8_text s && nul_free s &&
  (String.length s <=? NAME_MAX)%nat.

(** A path that Node and the system take as it is written: shorter than
    [PATH_MAX] and written from names only, after the leading ['/'] if it
    is absolute, so that the object it addresses is the one at its
    segments. *)
Definition platform_path (p : string) : bool :=
  (String.length p <? PATH_MAX)%nat &&
  match path.split p with
  | EmptyString :: name :: names => forallb platform_name (name :: names)
  | names => forallb platform_name names
  end.

(** Every name below [n] is a [platform_name], and the names on each way
    down from [n], with a ['/'] before each, take at most [room] bytes: the
    paths that the list walk writes, a name at a time, from a root of
    [PATH_MAX - 1 - room] bytes stay below [PATH_MAX]. *)
Fixpoint platform_tree (room : nat) (n : node) : bool :=
  match n with
  | Dir es =>
      (fix go (l : list (string * node)) : bool :=
         match l with
         | [] => true
         | e :: l' =>
             platform_name (fst e) &&
             (String.length (fst e) + 1 <=? room)%nat &&
             platform_tree (room - (String.length (fst e) + 1)) (snd e) &&
             go l'
         end) es
  | _ => true
  end.

(** The room the list walk has below the directory it starts from. *)
Definition room_below (dir : string) : nat :=
  PATH_MAX - 1 - String.length dir.

(** A path [p] that the upload route can write and that the list walk,
    which writes it from the root [BASE_DIR], can reach. *)
Definition storable (cwd BASE_DIR p : string) : bool :=
  platform_path p &&
  (String.length BASE_DIR + 1 + String.length (path.relative cwd BASE_DIR p)
   <? PATH_MAX)%nat.

(** An [fs] call of the list walk that stays on directories and regular
    files of the tree [fs]. *)
Definition walk_op_ok (cwd : string) (fs : node) (op : io_op) : Prop :=
  match op with
  | IoReaddir p => exists es, lookup fs (fs_segs cwd p) = inr (Dir es)
  | IoStat p => exists c m, lookup fs (fs_segs cwd p) = inr (File c m)
  | _ => False
  end.

(** Run a handler on a fresh [res]. *)
Definition serve (h : M unit) (w : world) : outcome unit * world :=
  h {| w_fs := w_fs w; w_now := w_now w; w_log := w_log w; w_res := None |}.

(** The world after further [fs] calls [ops]. *)
Definition add_logs (ops : list io_op) (w : world) : world :=
  {| w_fs := w_fs w; w_now := w_now w; w_log := (w_log w ++ ops)%list;
     w_res := w_res w |}.

(** The paths, as segments below [n], of the documents of [n], in the order
    of [documents]. *)
Fixpoint doc_paths (n : node) : list (list string) :=
  match n with
  | Dir es =>
      (fix go (l : list (string * node)) : list (list string) :=
         match l with
         | [] => []
         | e :: l' =>
             (match snd e with
              | Dir _ => map (cons (fst e)) (doc_paths (snd e))
              | File _ _ =>
                  if endsWith (fst e) ".drawnix" then [[fst e]] else []
              | Symlink _ => []
              end ++ go l')%list
         end) es
  | _ => []
  end.

(** The entries of a directory, taken together. *)
Definition depth_entries (l : list (string * node)) : nat :=
  fold_right (fun e m => Nat.max (depth (snd e)) m) 0 l.

Definition wf_entries (l : list (string * node)) : bool :=
  forallb (fun e => wf_node (snd e)) l.

Definition entry_documents (prefix : list string) (e : string * node)
  : list FileInfo :=
  match snd e with
  | Dir _ => documents (prefix ++ [fst e]) (snd e)
  | File ct m =>
      if endsWith (fst e) ".drawnix" then
        [{| fi_name := fst e;
            fi_relativePath := path.join_segs (prefix ++ [fst e]);
            fi_dir := path.join_segs prefix;
            fi_size := String.length ct;
            fi_mtime := m |}]
      else []
  | Symlink _ => []
  end.

Definition entry_doc_paths (e : string * node) : list (list string) :=
  match snd e with
  | Dir _ => map (cons (fst e)) (doc_paths (snd e))
  | File _ _ => if endsWith (fst e) ".drawnix" then [[fst e]] else []
  | Symlink _ => []
  end.

(** The [for (const ent of entries)] loop of [listDrawnixFiles], with the
    recursive call as a parameter. *)
Definition list_loop (cwd : string) (recurse : string -> M (list FileInfo))
  (dir base : string) : list Dirent -> list FileInfo -> M (list FileInfo) :=
  fix loop (ents : list Dirent) (results : list FileInfo)
    : M (list FileInfo) :=
    match ents with
    | [] => ret results
    | ent :: rest =>
        let abs := path.join dir (d_name ent) in
        if isDirectory ent then
          nested <- recurse abs ;;
          loop rest (results ++ nested)%list
        else if isFile ent && endsWith (d_name ent) ".drawnix" then
          stat <- fsp_stat cwd abs ;;
          let rel := path.relative cwd base abs in
          loop rest
            (results ++
             [{| fi_name := d_name ent;
                 fi_relativePath := rel;
                 fi_dir := if path.dirname rel =? "." then ""
                           else path.dirname rel;
                 fi_size := st_size stat;
                 fi_mtime := st_mtimeMs stat |}])%list
        else loop rest results
    end.

(** The world [w] after [fs] calls [ops] that left the tree [fs] and after
    the response [res]. *)
Definition after (w : world) (fs : node) (ops : list io_op)
  (res : option response) : world :=
  {| w_fs := fs; w_now := w_now w; w_log := (w_log w ++ ops)%list;
     w_res := res |}.

Definition reply (s : nat) (msg : string) : response :=
  {| status := s; json := BError msg |}.

(** The credential check as a predicate on the header. *)
Definition auth_ok (REQ_TOKEN : string) (authorization : option string) : bool :=
  negb (truthy_string REQ_TOKEN) ||
  (match authorization with Some a => a | None => "" end
   =? "Bearer " ++ REQ_TOKEN).

(** A field of the upload body, after its [|| '']. *)
Definition upload_field (req_body : value) (k : string) : value :=
  or_empty (get_prop (if truthy req_body then req_body else JObj []) k).

(** [dir ? String(dir) : ''], [None] when [String] throws. *)
Definition dir_string (req_body : value) : option string :=
  if truthy (upload_field req_body "dir")
  then ToString (upload_field req_body "dir")
  else Some "".

Section Outcomes.

Variable cwd : string.
Variable BASE_DIR : string.
Variable REQ_TOKEN : string.

Definition target_dir (dir_s : string) : string :=
  path.resolve cwd [BASE_DIR; dir_s].

Definition target_path (filename dir_s : string) : string :=
  path.resolve cwd [target_dir dir_s; path.basename filename].

(** Every way [POST /upload] can go, by the checks it passes. *)
Inductive upload_outcome (authorization : option string) (req_body : value)
  (w : world) : outcome unit * world -> Prop :=
| UpUnauthorized :
    auth_ok REQ_TOKEN authorization = false ->
    upload_outcome authorization req_body w
      (Val tt, set_res (reply 401 "Unauthorized") w)
| UpNoFilename :
    auth_ok REQ_TOKEN authorization = true ->
    (forall c f, upload_field req_body "filename" <> JStr (String c f)) ->
    upload_outcome authorization req_body w
      (Val tt, set_res (reply 400 "filename required") w)
| UpDirThrows c f :
    auth_ok REQ_TOKEN authorization = true ->
    upload_field req_body "filename" = JStr (String c f) ->
    dir_string req_body = None ->
    upload_outcome authorization req_body w (Throw TypeError, w)
| UpInvalidPath c f dir_s :
    auth_ok REQ_TOKEN authorization = true ->
    upload_field req_body "filename" = JStr (String c f) ->
    dir_string req_body = Some dir_s ->
    isPathInside cwd BASE_DIR (target_path (String c f) dir_s) = false ->
    upload_outcome authorization req_body w
      (Val tt, set_res (reply 400 "Invalid path") w)
| UpMkdirFails c f dir_s e :
    auth_ok REQ_TOKEN authorization = true ->
    upload_field req_body "filename" = JStr (String c f) ->
    dir_string req_body = Some dir_s ->
    isPathInside cwd BASE_DIR (target_path (String c f) dir_s) = true ->
    mkdir_p (w_fs w) (fs_segs cwd (target_dir dir_s)) = inl e ->
    upload_outcome authorization req_body w
      (Val tt, after w (w_fs w) [IoMkdir (target_dir dir_s)]
                 (Some (reply 500 "Write failed")))
| UpContentThrows c f dir_s fs1 :
    auth_ok REQ_TOKEN authorization = true ->
    upload_field req_body "filename" = JStr (String c f) ->
    dir_string req_body = Some dir_s ->
    isPathInside cwd BASE_DIR (target_path (String c f) dir_s) = true ->
    mkdir_p (w_fs w) (fs_segs cwd (target_dir dir_s)) = inr fs1 ->
    ToString (upload_field req_body "content") = None ->
    upload_outcome authorization req_body w
      (Val tt, after w fs1 [IoMkdir (target_dir dir_s)]
                 (Some (reply 500 "Write failed")))
| UpWriteFails c f dir_s fs1 data e :
    auth_ok REQ_TOKEN authorization = true ->
    upload_field req_body "filename" = JStr (String c f) ->
    dir_string req_body = Some dir_s ->
    isPathInside cwd BASE_DIR (target_path (String c f) dir_s) = true ->
    mkdir_p (w_fs w) (fs_segs cwd (target_dir dir_s)) = inr fs1 ->
    ToString (upload_field req_body "content") = Some data ->
    write_at fs1 (fs_segs cwd (target_path (String c f) dir_s))
      (Buffer_from data) (w_now w) = inl e ->
    upload_outcome authorization req_body w
      (Val tt, after w fs1
                 [IoMkdir (target_dir dir_s);
                  IoWriteFile (target_path (String c f) dir_s) data]
                 (Some (reply 500 "Write failed")))
| UpStored c f dir_s fs1 data fs2 :
    auth_ok REQ_TOKEN authorization = true ->
    upload_field req_body "filename" = JStr (String c f) ->
    dir_string req_body = Some dir_s ->
    isPathInside cwd BASE_DIR (target_path (String c f) dir_s) = true ->
    mkdir_p (w_fs w) (fs_segs cwd (target_dir dir_s)) = inr fs1 ->
    ToString (upload_field req_body "content") = Some data ->
    write_at fs1 (fs_segs cwd (target_path (String c f) dir_s))
      (Buffer_from data) (w_now w) = inr fs2 ->
    upload_outcome authorization req_body w
      (Val tt, after w fs2
                 [IoMkdir (target_dir dir_s);
                  IoWriteFile (target_path (String c f) dir_s) data]
                 (Some {| status := 200;
                          json := BUpload (target_path (String c f) dir_s)
                                    (byteLength data) |})).

(** The path [GET /file] reads for a query. *)
Definition read_rel (query_path : option string) : string :=
  strip_leading_slashes (match query_path with Some p => p | None => "" end).

Definition read_abs (query_path : option string) : string :=
  path.resolve cwd [BASE_DIR; read_rel query_path].

(** Every way [GET /file] can go. *)
Inductive file_outcome (authorization query_path : option string)
  (w : world) : outcome unit * world -> Prop :=
| RdUnauthorized :
    auth_ok REQ_TOKEN authorization = false ->
    file_outcome authorization query_path w
      (Val tt, set_res (reply 401 "Unauthorized") w)
| RdNoPath :
    auth_ok REQ_TOKEN authorization = true ->
    read_rel query_path = "" ->
    file_outcome authorization query_path w
      (Val tt, set_res (reply 400 "path required") w)
| RdInvalidPath :
    auth_ok REQ_TOKEN authorization = true ->
    read_rel query_path <> "" ->
    isPathInside cwd BASE_DIR (read_abs query_path) = false ->
    file_outcome authorization query_path w
      (Val tt, set_res (reply 400 "Invalid path") w)
| RdFails :
    auth_ok REQ_TOKEN authorization = true ->
    read_rel query_path <> "" ->
    isPathInside cwd BASE_DIR (read_abs query_path) = true ->
    (forall c m, lookup (w_fs w) (fs_segs cwd (read_abs query_path))
                 <> inr (File c m)) ->
    file_outcome authorization query_path w
      (Val tt, after w (w_fs w) [IoReadFile (read_abs query_path)]
                 (Some (reply 404 "Not Found")))
| RdFound content m :
    auth_ok REQ_TOKEN authorization = true ->
    read_rel query_path <> "" ->
    isPathInside cwd BASE_DIR (read_abs query_path) = true ->
    lookup (w_fs w) (fs_segs cwd (read_abs query_path))
      = inr (File content m) ->
    file_outcome authorization query_path w
      (Val tt, after w (w_fs w) [IoReadFile (read_abs query_path)]
                 (Some {| status := 200;
                          json := BFile (path.basename (read_abs query_path))
                                    (read_rel query_path)
                                    (Buffer_toString content) |})).

End Outcomes.

(** The error kinds of the specification, and the status it gives each. *)
Inductive error_kind :=
| MissingField | InvalidPath | Unauthorized | NotFound
| WriteFailed | ListFailed | ReadFailed.

Definition kind_status (k : error_kind) : nat :=
  match k with
  | MissingField | InvalidPath => 400
  | Unauthorized => 401
  | NotFound => 404
  | WriteFailed | ListFailed | ReadFailed => 500
  end.

(** The kind an [error] message of the servers stands for. *)
Definition error_kind_of (msg : string) : option error_kind :=
  if (msg =? "filename required") || (msg =? "path required")
  then Some MissingField
  else if msg =? "Invalid path" then Some InvalidPath
  else if msg =? "Unauthorized" then Some Unauthorized
  else if msg =? "Not Found" then Some NotFound
  else if msg =? "Write failed" then Some WriteFailed
  else if msg =? "List failed" then Some ListFailed
  else if msg =? "Read failed" then Some ReadFailed
  else None.

(** A small storage root, used to run the servers on: [/srv/up] holds a
    document in a subdirectory, one at top level, a file that is no
    document, and a symbolic link to its own parent directory. *)
Definition sample_root : node :=
  Dir [("docs", Dir [("a.drawnix", File "X" 7%Z)]);
       ("b.drawnix", File "hello" 9%Z);
       ("notes.txt", File "n" 1%Z);
       ("loop", Symlink "..")].

Definition sample_fs : node := Dir [("srv", Dir [("up", sample_root)])].

Definition sample_world : world :=
  {| w_fs := sample_fs; w_now := 100%Z; w_log := []; w_res := None |}.

(** The same machine with an empty storage root. *)
Definition empty_world : world :=
  {| w_fs := Dir [("srv", Dir [("up", Dir [])])]; w_now := 100%Z;
     w_log := []; w_res := None |}.

(** The answer [r], if it is an error answer, has a kind among [allowed]
    and the status the taxonomy gives that kind. *)
Definition documented (allowed : list error_kind) (r : option response)
  : Prop :=
  forall s msg,
    r = Some {| status := s; json := BError msg |} ->
    exists k,
      error_kind_of msg = Some k /\ kind_status k = s /\ In k allowed.

Definition dir_entries (n : node) : list (string * node) :=
  match n with Dir es => es | _ => [] end.

Section Stored.

Variable cwd : string.
Variable BASE_DIR : string.
Variable REQ_TOKEN : string.

(** [uploaded w0 stored w]: the world [w] is reached from [w0] by
    successful uploads of documents (files named [*.drawnix]), one request
    after the other; [stored] lists the [path] of each [200] answer. *)
Inductive uploaded (w0 : world) : list string -> world -> Prop :=
| uploaded_none : uploaded w0 [] w0
| uploaded_more stored w authorization req_body filename w1 p size :
    uploaded w0 stored w ->
    upload_field req_body "filename" = JStr filename ->
    endsWith (path.basename filename) ".drawnix" = true ->
    Unified.upload cwd BASE_DIR REQ_TOKEN authorization req_body w
      = (Val tt, w1) ->
    w_res w1 = Some {| status := 200; json := BUpload p size |} ->
    uploaded w0 (stored ++ [p]) w1.

(** What holds of the storage root after such uploads: it is a
    well-formed directory whose documents are the stored paths. *)
Definition root_holds (stored : list string) (w : world) : Prop :=
  exists es,
    lookup (w_fs w) (fs_segs cwd BASE_DIR) = inr (Dir es) /\
    wf_node (Dir es) = true /\
    (forall q, In q (doc_paths (Dir es)) <->
               exists p, In p stored /\
                         fs_segs cwd p = (fs_segs cwd BASE_DIR ++ q)%list) /\
    Forall (fun p => p = "/" ++ path.join_segs (fs_segs cwd p) /\
                     exists q, fs_segs cwd p
                               = (fs_segs cwd BASE_DIR ++ q)%list) stored.

End Stored.

(** ** Proof steps used throughout *)

(** Reduce a handler past a decided test. *)
Ltac step :=
  cbv beta iota;
  try change (negb true) with false;
  try change (negb false) with true;
  cbv beta iota.

(** Two hypotheses about the same term say the same. *)
Ltac same_lhs :=
  repeat match goal with
         | H1 : ?a = _, H2 : ?a = _ |- _ =>
             rewrite H1 in H2; inversion H2; subst; clear H2
         end.

(** * The HTTP surface of the mock server and the client of the API

    [scripts/mock-upload-server.js] parses the query string and routes the
    requests itself; the client ([saveToServer], [getApiBase] and the
    handlers of the "open from server" dialog) builds the requests the two
    servers answer. *)

(** ** [encodeURIComponent] and [decodeURIComponent]

    On the UTF-8 bytes of a string: ECMAScript's [Encode] writes every
    octet of a code point outside the unreserved set as ["%XX"], and
    [Decode] reads one code point at a time, from one escape for an ASCII
    character or from as many escapes as the first octet announces.
    [Encode] is given for well-formed text: the [URIError] it throws at an
    unpaired surrogate is left out. *)

(** The value of a hexadecimal digit, of either case. *)
Definition hex_value (c : ascii) : option nat :=
  let n := nat_of_ascii c in
  if ((48 <=? n) && (n <=? 57))%nat then Some (n - 48)
  else if ((65 <=? n) && (n <=? 70))%nat then Some (n - 55)
  else if ((97 <=? n) && (n <=? 102))%nat then Some (n - 87)
  else None.

(** [ParseHexOctet]: the octet two hexadecimal digits denote. *)
Definition ParseHexOctet (h l : ascii) : option ascii :=
  match hex_value h, hex_value l with
  | Some a, Some b => Some (ascii_of_nat (16 * a + b))
  | _, _ => None
  end.

(** The upper-case hexadecimal digit of [n < 16]. *)
Definition hex_digit (n : nat) : ascii :=
  match String.get n "0123456789ABCDEF" with
  | Some c => c
  | None => "0"%char
  end.

(** ["%XX"] for the octet [c]. *)
Definition percent_escape (c : ascii) : string :=
  String "%" (String (hex_digit (nat_of_ascii c / 16))
                (String (hex_digit (nat_of_ascii c mod 16)) EmptyString)).

(** [uriUnreserved]: letters, digits and the marks [-_.!~*'()]. *)
Definition uriUnreserved (c : ascii) : bool :=
  let n := nat_of_ascii c in
  ((65 <=? n) && (n <=? 90))%nat || ((97 <=? n) && (n <=? 122))%nat ||
  ((48 <=? n) && (n <=? 57))%nat ||
  existsb (Ascii.eqb c) (list_ascii_of_string "-_.!~*'()").

(** [encodeURIComponent(s)] *)
Fixpoint encodeURIComponent (s : string) : string :=
  match s with
  | EmptyString => EmptyString
  | String c s' =>
      (if uriUnreserved c then String c EmptyString else percent_escape c)
      ++ encodeURIComponent s'
  end.

(** The number of leading 1 bits of an octet; [5] stands for "five or
    more". *)
Definition leading_ones (b : nat) : nat :=
  (if b <? 128 then 0
   else if b <? 192 then 1
   else if b <? 224 then 2
   else if b <? 240 then 3
   else if b <? 248 then 4
   else 5)%nat.

(** The loop of [Decode]: [need] is the number of continuation escapes
    still to be read for the code point whose first octets are [octets].
    [None] is the [URIError]. *)
Fixpoint decode_loop (s : string) (octets : list ascii) (need : nat)
  : option string :=
  match need with
  | O =>
      match s with
      | EmptyString => Some EmptyString
      | String c s' =>
          if Ascii.eqb c "%" then
            match s' with
            | String h (String l rest) =>
                match ParseHexOctet h l with
                | None => None
                | Some B =>
                    match leading_ones (nat_of_ascii B) with
                    | 0 => option_map (String B) (decode_loop rest [] 0)
                    | 2 => decode_loop rest [B] 1
                    | 3 => decode_loop rest [B] 2
                    | 4 => decode_loop rest [B] 3
                    | _ => None
                    end
                end
            | _ => None
            end
          else option_map (String c) (decode_loop s' [] 0)
      end
  | S need' =>
      match s with
      | String c (String h (String l rest)) =>
          if Ascii.eqb c "%" then
            match ParseHexOctet h l with
            | None => None
            | Some B =>
                let octets' := (octets ++ [B])%list in
                match need' with
                | O =>
                    if utf8_code_point octets' then
                      option_map (append (string_of_list_ascii octets'))
                        (decode_loop rest [] 0)
                    else None
                | S _ => decode_loop rest octets' need'
                end
            end
          else None
      | _ => None
      end
  end.

(** [decodeURIComponent(s)] *)
Definition decodeURIComponent (s : string) : option string :=
  decode_loop s [] 0.

(** A value of a query string that is not cut at ['&'] or ['=']. *)
Definition plain_value (v : string) : Prop :=
  Forall (fun x => Ascii.eqb x "&" = false /\ Ascii.eqb x "=" = false)
    (list_ascii_of_string v).

(** What follows a ['%'] is no pair of hexadecimal digits. *)
Definition no_hex_pair (b : string) : Prop :=
  match b with
  | String h (String l _) => ParseHexOctet h l = None
  | _ => True
  end.

(** ** String helpers of the mock server and the client *)

(** [s.split(sep)] for a separator of one character. *)
Fixpoint split_at (sep : ascii) (s : string) : list string :=
  match s with
  | EmptyString => [EmptyString]
  | String c s' =>
      if Ascii.eqb c sep then EmptyString :: split_at sep s'
      else match split_at sep s' with
           | [] => [String c EmptyString]
           | seg :: rest => String c seg :: rest
           end
  end.

(** [s.slice(s.indexOf(sep) + 1)]; [None] when [indexOf] gives [-1]. *)
Fixpoint after_first (sep : ascii) (s : string) : option string :=
  match s with
  | EmptyString => None
  | String c s' => if Ascii.eqb c sep then Some s' else after_first sep s'
  end.

Definition rev_string (s : string) : string :=
  string_of_list_ascii (rev (list_ascii_of_string s)).

(** [s] without the prefix [p], when it has it. *)
Fixpoint strip_prefix (p s : string) : option string :=
  match p with
  | EmptyString => Some s
  | String a p' =>
      match s with
      | EmptyString => None
      | String b s' => if Ascii.eqb a b then strip_prefix p' s' else None
      end
  end.

(** [s] without the suffix [suf], when it has it. *)
Definition strip_suffix (suf s : string) : option string :=
  option_map rev_string (strip_prefix (rev_string suf) (rev_string s)).

(** [s.replace(/\/+$/, '')]: drop every trailing slash. *)
Definition strip_trailing_slashes (s : string) : string :=
  rev_string (strip_leading_slashes (rev_string s)).

(** JavaScript's white space and line terminators, by their UTF-8 octets:
    U+0009 to U+000D and U+0020; U+00A0; U+1680, U+2000 to U+200A, U+2028,
    U+2029, U+202F, U+205F, U+3000 and U+FEFF. *)
Definition white_space_1 (a : nat) : bool :=
  (((9 <=? a) && (a <=? 13)) || (a =? 32))%nat.

Definition white_space_2 (a b : nat) : bool :=
  ((a =? 194) && (b =? 160))%nat.

Definition white_space_3 (a b c : nat) : bool :=
  (((a =? 225) && (b =? 154) && (c =? 128)) ||
   ((a =? 226) && (b =? 128) &&
    (((128 <=? c) && (c <=? 138)) || (c =? 168) || (c =? 169) ||
     (c =? 175))) ||
   ((a =? 226) && (b =? 129) && (c =? 159)) ||
   ((a =? 227) && (b =? 128) && (c =? 128)) ||
   ((a =? 239) && (b =? 187) && (c =? 191)))%nat.

(** [s.trimStart()] *)
Fixpoint trimStart (s : string) : string :=
  match s with
  | String a s1 =>
      if white_space_1 (nat_of_ascii a) then trimStart s1
      else
        match s1 with
        | String b s2 =>
            if white_space_2 (nat_of_ascii a) (nat_of_ascii b)
            then trimStart s2
            else
              match s2 with
              | String c s3 =>
                  if white_space_3 (nat_of_ascii a) (nat_of_ascii b)
                       (nat_of_ascii c)
                  then trimStart s3
                  else s
              | EmptyString => s
              end
        | EmptyString => s
        end
  | EmptyString => s
  end.

(** [trimEnd] on the characters read from the end. *)
Fixpoint trimEnd_rev (r : list ascii) : list ascii :=
  match r with
  | c :: r1 =>
      if white_space_1 (nat_of_ascii c) then trimEnd_rev r1
      else
        match r1 with
        | b :: r2 =>
            if white_space_2 (nat_of_ascii b) (nat_of_ascii c)
            then trimEnd_rev r2
            else
              match r2 with
              | a :: r3 =>
                  if white_space_3 (nat_of_ascii a) (nat_of_ascii b)
                       (nat_of_ascii c)
                  then trimEnd_rev r3
                  else r
              | [] => r
              end
        | [] => r
        end
  | [] => r
  end.

(** [s.trim()] *)
Definition trim (s : string) : string :=
  string_of_list_ascii
    (rev (trimEnd_rev (rev (list_ascii_of_string (trimStart s))))).

(** ** [scripts/mock-upload-server.js]: query string and routing *)

Module MockServer.

(** [query[k] = v] on an object that began as [{}]: an own property is
    set or replaced; the key ["__proto__"] reaches the setter of
    [Object.prototype], which ignores a string. *)
Fixpoint set_key (k v : string) (q : list (string * string))
  : list (string * string) :=
  match q with
  | [] => [(k, v)]
  | (k', v') :: q' =>
      if k' =? k then (k, v) :: q' else (k', v') :: set_key k v q'
  end.

Definition assign (k v : string) (q : list (string * string))
  : list (string * string) :=
  if k =? "__proto__" then q else set_key k v q.

(** [parseQuery(url)]: the own properties of the object returned; [None]
    is the [URIError] of [decodeURIComponent]. *)
Definition parseQuery (url : string) : option (list (string * string)) :=
  match after_first "?" url with
  | None => Some []
  | Some qs =>
      fold_left
        (fun query part =>
           match query with
           | None => None
           | Some q =>
               let kv := split_at "=" part in
               let k := hd "" kv in
               let v := nth 1 kv "" in                     (* v || '' *)
               match decodeURIComponent k, decodeURIComponent v with
               | Some k', Some v' => Some (assign k' v' q)
               | _, _ => None
               end
           end)
        (split_at "&" qs) (Some [])
  end.

(** What the server reads of a request.  [parsed] is
    [JSON.parse(raw || '{}')] of the body once it has arrived, [None] when
    that throws. *)
Record request := {
  method : string;                   (* req.method *)
  url : string;                      (* req.url *)
  authorization : option string;     (* req.headers['authorization'] *)
  parsed : option value
}.

(** How the callback of [http.createServer] ends for a request. *)
Inductive ending :=
| Answered        (* a handler has sent the response recorded in [w_res] *)
| Preflighted     (* send(res, 200, { ok: true }) *)
| Rejected.       (* the handler threw a URIError: its promise rejects and
                     nothing is sent *)

Section Routes.

Variable cwd : string.
Variable BASE_DIR : string.
Variable REQ_TOKEN : string.

(** [handleReadFile(req, res)], with its [parseQuery(req.url || '')]. *)
Definition handleReadFile (req : request) : M ending :=
  ok <- Mock.authorized REQ_TOKEN (authorization req) ;;
  if negb ok then ret Answered
  else
    match parseQuery (url req) with
    | None => ret Rejected
    | Some q =>
        let rel := strip_leading_slashes
                     (match assoc "path" q with Some p => p | None => "" end) in
        if negb (truthy_string rel) then
          send 400 (BError "path required") ;; ret Answered
        else
          let abs := path.resolve cwd [BASE_DIR; rel] in
          if negb (isPathInside cwd BASE_DIR abs) then
            send 400 (BError "Invalid path") ;; ret Answered
          else
            try_catch
              (content <- fsp_readFile cwd abs ;;
               send 200 (BFile (path.basename abs) rel content))
              (fun _ => send 404 (BError "Not Found")) ;;
            ret Answered
    end.

(** The callback of [http.createServer]: the route is chosen by the method
    and by a prefix of the URL. *)
Definition server (fuel : nat) (req : request) : M ending :=
  if method req =? "OPTIONS" then ret Preflighted
  else if (method req =? "POST") && truthy_string (url req)
          && startsWith (url req) "/upload" then
    Mock.handleUpload cwd BASE_DIR REQ_TOKEN (authorization req) (parsed req) ;;
    ret Answered
  else if (method req =? "GET") && truthy_string (url req)
          && startsWith (url req) "/files" then
    Mock.handleListFiles cwd BASE_DIR REQ_TOKEN fuel (authorization req) ;;
    ret Answered
  else if (method req =? "GET") && truthy_string (url req)
          && startsWith (url req) "/file" then
    handleReadFile req
  else
    send 404 (BError "Not Found") ;; ret Answered.

End Routes.

End MockServer.

(** ** The client: [saveToServer] and the "open from server" dialog *)

Module Client.

(** [import.meta.env], the variables the client reads. *)
Record Env := {
  VITE_UPLOAD_ENDPOINT : option string;
  VITE_UPLOAD_DIR : option string;
  VITE_UPLOAD_TOKEN : option string;
  DEV : bool                               (* !!env.DEV *)
}.

(** The arguments of a call of [fetch]. *)
Record Fetch := {
  f_url : string;
  f_method : string;
  f_authorization : option string;         (* headers.Authorization *)
  f_body : option value                    (* the object given to
                                              JSON.stringify *)
}.

(** [...(token ? { Authorization: `Bearer ${token}` } : {})] *)
Definition bearer (token : option string) : option string :=
  match token with
  | Some t => if truthy_string t then Some ("Bearer " ++ t) else None
  | None => None
  end.

(** [{ filename: `${name}.drawnix`, content: serialized,
       ...(dir ? { dir } : {}) }] *)
Definition upload_body (name serialized : string) (dir : option string)
  : value :=
  JObj ([("filename", JStr (name ++ ".drawnix"));
         ("content", JStr serialized)] ++
        match dir with
        | Some d => if truthy_string d then [("dir", JStr d)] else []
        | None => []
        end)%list.

(** The [fetch] of [saveToServer(board, name)], first form of the file:
    [name] defaults to [getDefaultName()], [serialized] is
    [serializeAsJSON(board)].  [None]: no endpoint is configured and
    nothing is sent. *)
Definition saveToServer_v1 (e : Env) (defaultName : string)
  (name : option string) (serialized : string) : option Fetch :=
  match VITE_UPLOAD_ENDPOINT e with
  | Some (String _ _ as endpoint) =>
      let name := match name with Some n => n | None => defaultName end in
      Some {| f_url := endpoint;
              f_method := "POST";
              f_authorization := bearer (VITE_UPLOAD_TOKEN e);
              f_body := Some (upload_body name serialized
                                (VITE_UPLOAD_DIR e)) |}
  | _ => None
  end.

(** The [fetch] of [saveToServer(board, name)], second form: the mock
    server is the endpoint of a development build, and the name is
    trimmed. *)
Definition saveToServer (e : Env) (defaultName : string)
  (name : option string) (serialized : string) : option Fetch :=
  let fallback := if DEV e then Some "http://localhost:8787/upload"
                  else None in
  let endpoint := match VITE_UPLOAD_ENDPOINT e with
                  | Some (String _ _ as x) => Some x
                  | _ => fallback
                  end in
  match endpoint with
  | Some (String _ _ as endpoint) =>
      let trimmed := match name with
                     | Some (String _ _ as n) => trim n
                     | _ => ""
                     end in
      let finalName := if truthy_string trimmed then trimmed
                       else defaultName in
      Some {| f_url := endpoint;
              f_method := "POST";
              f_authorization := bearer (VITE_UPLOAD_TOKEN e);
              f_body := Some (upload_body finalName serialized
                                (VITE_UPLOAD_DIR e)) |}
  | _ => None
  end.

(** [base.replace(/\/?upload\/?$/, '')]: a final ["upload"] goes, with the
    slash after it and the slash before it when they are there. *)
Definition strip_upload (base : string) : string :=
  let slash_before t := match strip_suffix "/" t with
                        | Some t' => t'
                        | None => t
                        end in
  match strip_suffix "upload/" base with
  | Some t => slash_before t
  | None =>
      match strip_suffix "upload" base with
      | Some t => slash_before t
      | None => base
      end
  end.

(** [normalize(base)] of [getApiBase] *)
Definition normalize (base : option string) : string :=
  match base with
  | Some (String _ _ as base) =>
      let cleaned := strip_upload base in
      let cleaned := strip_trailing_slashes cleaned in
      if (cleaned =? "") || (cleaned =? "/") then "" else cleaned
  | _ => ""
  end.

(** [getApiBase()] *)
Definition getApiBase (e : Env) : string :=
  match VITE_UPLOAD_ENDPOINT e with
  | Some explicitUpload => normalize (Some explicitUpload)
  | None => if DEV e then "http://localhost:8787" else ""
  end.

(** The [fetch] of [fetchFiles]. *)
Definition fetchFiles (e : Env) : Fetch :=
  {| f_url := getApiBase e ++ "/files";
     f_method := "GET";
     f_authorization := bearer (VITE_UPLOAD_TOKEN e);
     f_body := None |}.

(** The [fetch] of [handleOpenFile(item)]. *)
Definition handleOpenFile (e : Env) (item : FileInfo) : Fetch :=
  {| f_url := getApiBase e ++ "/file?path="
              ++ encodeURIComponent (fi_relativePath item);
     f_method := "GET";
     f_authorization := bearer (VITE_UPLOAD_TOKEN e);
     f_body := None |}.

(** [name.replace(/\.[^.]+$/, '')]: the name without its last extension,
    read on the characters from the end; [ext] holds the characters seen
    so far. *)
Fixpoint strip_extension_rev (r ext : list ascii) : option (list ascii) :=
  match r with
  | [] => None
  | c :: r' =>
      if Ascii.eqb c "." then
        match ext with
        | [] => None
        | _ => Some r'
        end
      else strip_extension_rev r' (c :: ext)
  end.

Definition strip_extension (name : string) : string :=
  match strip_extension_rev (rev (list_ascii_of_string name)) [] with
  | Some r => string_of_list_ascii (rev r)
  | None => name
  end.

(** [(item.name || '').replace(/\.[^.]+$/, '') || null]: the
    [currentFileName] an opened document gets. *)
Definition baseName (name : string) : option string :=
  match strip_extension name with
  | EmptyString => None
  | b => Some b
  end.

End Client.

(** An [fs] call that only reads. *)
Definition reading_op (op : io_op) : Prop :=
  match op with
  | IoReaddir _ | IoStat _ | IoReadFile _ => True
  | IoMkdir _ | IoWriteFile _ _ => False
  end.

(** ** Small machines and a client configuration to run on *)

(** A machine without symbolic links: [/srv/up] holds two documents. *)
Definition plain_root : node :=
  Dir [("docs", Dir [("a.drawnix", File "X" 7%Z)]);
       ("b.drawnix", File "hello" 9%Z)].

Definition plain_world : world :=
  {| w_fs := Dir [("srv", Dir [("up", plain_root)])];
     w_now := 100%Z; w_log := []; w_res := None |}.

(** A machine on which the storage root [/srv/up] does not exist yet. *)
Definition fresh_world : world :=
  {| w_fs := Dir [("srv", Dir [("readme.txt", File "r" 3%Z)])];
     w_now := 100%Z; w_log := []; w_res := None |}.

(** A machine on which [/srv/up] is a regular file. *)
Definition blocked_world : world :=
  {| w_fs := Dir [("srv", Dir [("up", File "not a directory" 5%Z)])];
     w_now := 100%Z; w_log := []; w_res := None |}.


(** A client built for the unified server, with a token and no upload
    directory. *)
Definition sample_env : Client.Env :=
  {| Client.VITE_UPLOAD_ENDPOINT := Some "/upload";
     Client.VITE_UPLOAD_DIR := None;
     Client.VITE_UPLOAD_TOKEN := Some "s3cret";
     Client.DEV := false |}.

(** * Sanity checks of the platform model *)

Example split_ex : path.split "/a//b/" = [""; "a"; ""; "b"; ""].
Proof. reflexivity. Qed.

Example resolve_ex1 :
  path.resolve "/home/app" ["/srv/up"; "../x/./y/"] = "/srv/x/y".
Proof. reflexivity. Qed.

Example resolve_ex2 : path.resolve "/home/app" [".uploads"; ""] = "/home/app/.uploads".
Proof. reflexivity. Qed.

Example resolve_ex3 : path.resolve "/home/app" ["/.."; ".."] = "/".
Proof. reflexivity. Qed.

Example relative_ex1 : path.relative "/" "/srv/up" "/srv/up/a/b" = "a/b".
Proof. reflexivity. Qed.

Example relative_ex2 : path.relative "/" "/srv/up" "/srv/other" = "../other".
Proof. reflexivity. Qed.

Example relative_ex3 : path.relative "/" "/srv/up" "/srv/up/" = "".
Proof. reflexivity. Qed.

Example basename_ex : path.basename "../../etc/passwd" = "passwd"
  /\ path.basename "a/b//" = "b" /\ path.basename "///" = "".
Proof. repeat split; reflexivity. Qed.

Example dirname_ex : path.dirname "a/b/c.drawnix" = "a/b"
  /\ path.dirname "c.drawnix" = "." /\ path.dirname "/a" = "/"
  /\ path.dirname "a//b" = "a/" /\ path.dirname "//a" = "//"
  /\ path.dirname "/a/b/" = "/a".
Proof. repeat split; reflexivity. Qed.

Example join_ex : path.join "/srv/up/" "a.drawnix" = "/srv/up/a.drawnix"
  /\ path.join ".uploads" "d" = ".uploads/d" /\ path.join "./x/.." "d" = "d".
Proof. repeat split; reflexivity. Qed.

Example ToString_ex :
  ToString (JArr [JNum {| num_is_zero_or_nan := false; num_text := "1" |};
                  JNull; JStr "a"; JArr [JBool true; JObj []]])
  = Some "1,,a,true,[object Object]"
  /\ ToString (JObj [("toString", JStr "x")]) = None
  /\ toLowerCase "TRUE" = "true".
Proof. repeat split; reflexivity. Qed.

(** The examples of Node's documentation of [path]. *)
Example node_docs_relative :
  path.relative "/" "/data/orandea/test/aaa" "/data/orandea/impl/bbb"
  = "../../impl/bbb".
Proof. reflexivity. Qed.

Example node_docs_resolve :
  path.resolve "/home/myself/node" ["/foo/bar"; "./baz"] = "/foo/bar/baz"
  /\ path.resolve "/home/myself/node" ["/foo/bar"; "/tmp/file/"] = "/tmp/file"
  /\ path.resolve "/home/myself/node"
       ["wwwroot"; "static_files/png/"; "../gif/image.gif"]
     = "/home/myself/node/wwwroot/static_files/gif/image.gif".
Proof. repeat split; reflexivity. Qed.

Example node_docs_normalize :
  path.normalize "/foo/bar//baz/asdf/quux/.." = "/foo/bar/baz/asdf"
  /\ path.normalize "../a/./b/../c/" = "../a/c/"
  /\ path.normalize "./" = "./" /\ path.normalize "a/.." = ".".
Proof. repeat split; reflexivity. Qed.

Example node_docs_dirname_basename :
  path.dirname "/foo/bar/baz/asdf/quux" = "/foo/bar/baz/asdf"
  /\ path.basename "/foo/bar/baz/asdf/quux.html" = "quux.html".
Proof. split; reflexivity. Qed.

(** The guard on the usual cases. *)
Example isPathInside_ex :
  isPathInside "/" "/srv/up" "/srv/up/a/b.drawnix" = true
  /\ isPathInside "/" "/srv/up" "/srv/up" = false
  /\ isPathInside "/" "/srv/up" "/srv/upper/x" = false
  /\ isPathInside "/" "/srv/up" "/etc/passwd" = false
  /\ isPathInside "/home/app" ".uploads" "/home/app/.uploads/x" = true.
Proof. repeat split; reflexivity. Qed.

(** The servers at work on the sample storage root. *)
Example files_ex :
  w_res (snd (Unified.files "/" "/srv/up" "" 3 None sample_world)) =
  Some {| status := 200;
          json := BFiles
            [{| fi_name := "a.drawnix"; fi_relativePath := "docs/a.drawnix";
                fi_dir := "docs"; fi_size := 1; fi_mtime := 7%Z |};
             {| fi_name := "b.drawnix"; fi_relativePath := "b.drawnix";
                fi_dir := ""; fi_size := 5; fi_mtime := 9%Z |}] |}.
Proof. reflexivity. Qed.

Example files_log_ex :
  w_log (snd (Unified.files "/" "/srv/up" "" 3 None sample_world)) =
  [IoMkdir "/srv/up"; IoReaddir "/srv/up"; IoReaddir "/srv/up/docs";
   IoStat "/srv/up/docs/a.drawnix"; IoStat "/srv/up/b.drawnix"].
Proof. reflexivity. Qed.

Example token_ex :
  w_res (snd (Unified.file "/" "/srv/up" "s3cret" (Some "Bearer s3cret")
                (Some "/b.drawnix") sample_world))
  = Some {| status := 200; json := BFile "b.drawnix" "b.drawnix" "hello" |}
  /\ w_res (snd (Unified.file "/" "/srv/up" "s3cret" (Some "bearer s3cret")
                   (Some "/b.drawnix") sample_world))
     = Some (reply 401 "Unauthorized")
  /\ w_res (snd (Unified.file "/" "/srv/up" "s3cret" None
                   (Some "/b.drawnix") sample_world))
     = Some (reply 401 "Unauthorized").
Proof. repeat split; reflexivity. Qed.

Example read_errors_ex :
  w_res (snd (Unified.file "/" "/srv/up" "" None (Some "../secret")
                sample_world))
  = Some (reply 400 "Invalid path")
  /\ w_res (snd (Unified.file "/" "/srv/up" "" None (Some "missing.drawnix")
                   sample_world))
     = Some (reply 404 "Not Found")
  /\ w_res (snd (Unified.file "/" "/srv/up" "" None (Some "///")
                   sample_world))
     = Some (reply 400 "path required").
Proof. repeat split; reflexivity. Qed.

Example startup_ex :
  Unified.main {| Unified.env_FORCE_BUILD := Some "True";
                  Unified.base_dir_ready := true;
                  Unified.index_exists := true;
                  Unified.build_status := Some 0%Z |}
  = [Unified.EnsureBaseDir; Unified.SpawnBuild; Unified.Listen]
  /\ Unified.main {| Unified.env_FORCE_BUILD := None;
                     Unified.base_dir_ready := true;
                     Unified.index_exists := false;
                     Unified.build_status := Some 2%Z |}
     = [Unified.EnsureBaseDir; Unified.SpawnBuild; Unified.Exit 2%Z]
  /\ Unified.main {| Unified.env_FORCE_BUILD := Some "no";
                     Unified.base_dir_ready := true;
                     Unified.index_exists := true;
                     Unified.build_status := None |}
     = [Unified.EnsureBaseDir; Unified.Listen].
Proof. repeat split; reflexivity. Qed.

(** The URI coding and the string helpers of the HTTP surface. *)
Example encodeURIComponent_ex :
  encodeURIComponent "docs/a b.drawnix" = "docs%2Fa%20b.drawnix"
  /\ encodeURIComponent "a&b=c?d%" = "a%26b%3Dc%3Fd%25"
  /\ encodeURIComponent "-_.!~*'()" = "-_.!~*'()".
Proof. repeat split; reflexivity. Qed.

Example decodeURIComponent_ex :
  decodeURIComponent "docs%2fa%20b.drawnix" = Some "docs/a b.drawnix"
  /\ decodeURIComponent "%" = None
  /\ decodeURIComponent "%4" = None
  /\ decodeURIComponent "%zz" = None
  /\ decodeURIComponent "%C3" = None
  /\ decodeURIComponent "%C3x" = None
  /\ decodeURIComponent "%C0%80" = None
  /\ decodeURIComponent "%ED%A0%80" = None
  /\ decodeURIComponent "%80" = None
  /\ decodeURIComponent "%F8%80%80%80%80" = None
  /\ decodeURIComponent "a+b" = Some "a+b".
Proof. repeat split; reflexivity. Qed.

Example decode_multibyte_ex :
  option_map list_ascii_of_string (decodeURIComponent "%C3%A9%E2%82%AC%F0%9F%98%80")
  = Some (map ascii_of_nat [195; 169; 226; 130; 172; 240; 159; 152; 128]).
Proof. reflexivity. Qed.

Example parseQuery_ex :
  MockServer.parseQuery "/file" = Some []
  /\ MockServer.parseQuery "/file?" = Some [("", "")]
  /\ MockServer.parseQuery "/file?path=a%2Fb&x" = Some [("path", "a/b"); ("x", "")]
  /\ MockServer.parseQuery "/file?path=a&path=b=c" = Some [("path", "b")]
  /\ MockServer.parseQuery "/file?path=a?b" = Some [("path", "a?b")]
  /\ MockServer.parseQuery "/file?__proto__=x&path=a" = Some [("path", "a")]
  /\ MockServer.parseQuery "/file?path=a&x=%" = None.
Proof. repeat split; reflexivity. Qed.

Example trim_ex :
  trim "  a b	 " = "a b"
  /\ trim (string_of_list_ascii (map ascii_of_nat [227; 128; 128; 97; 194; 160]))
     = "a"
  /\ trim "   " = "" /\ trim "" = "" /\ trim "x" = "x".
Proof. repeat split; reflexivity. Qed.

Example getApiBase_ex :
  Client.normalize (Some "/upload") = ""
  /\ Client.normalize (Some "http://localhost:8787/upload") = "http://localhost:8787"
  /\ Client.normalize (Some "http://h/api/upload/") = "http://h/api"
  /\ Client.normalize (Some "http://h/api//") = "http://h/api"
  /\ Client.normalize (Some "upload") = ""
  /\ Client.normalize (Some "http://h/myupload") = "http://h/my"
  /\ Client.normalize (Some "") = "".
Proof. repeat split; reflexivity. Qed.

Example baseName_ex :
  Client.baseName "a.drawnix" = Some "a"
  /\ Client.baseName "a.b.drawnix" = Some "a.b"
  /\ Client.baseName ".drawnix" = None
  /\ Client.baseName "a." = Some "a."
  /\ Client.baseName "plain" = Some "plain"
  /\ Client.baseName "" = None.
Proof. repeat split; reflexivity. Qed.

Example mock_server_ex :
  w_res (snd (MockServer.server "/" "/srv/up" "" 3
                {| MockServer.method := "GET";
                   MockServer.url := "/file?path=docs%2Fa.drawnix";
                   MockServer.authorization := None;
                   MockServer.parsed := None |} sample_world))
  = Some {| status := 200; json := BFile "a.drawnix" "docs/a.drawnix" "X" |}
  /\ fst (MockServer.server "/" "/srv/up" "" 3
            {| MockServer.method := "GET";
               MockServer.url := "/file?path=%E0%A4%A";
               MockServer.authorization := None;
               MockServer.parsed := None |} sample_world)
     = Val MockServer.Rejected
  /\ w_res (snd (MockServer.server "/" "/srv/up" "" 3
                   {| MockServer.method := "DELETE";
                      MockServer.url := "/file?path=b.drawnix";
                      MockServer.authorization := None;
                      MockServer.parsed := None |} sample_world))
     = Some (reply 404 "Not Found").
Proof. repeat split; reflexivity. Qed.

(** Text written and read: [fs.writeFile] and [fs.readFile] with
    ['utf8']. *)
Example Buffer_from_ex :
  let bytes l := string_of_list_ascii (map ascii_of_nat l) in
  Buffer_from "plain" = "plain"
  /\ Buffer_from (bytes [226; 130; 172]) = bytes [226; 130; 172]
  /\ Buffer_from (bytes [97; 237; 160; 128; 98]) = bytes [97; 239; 191; 189; 98]
  /\ Buffer_from (bytes [237; 159; 191]) = bytes [237; 159; 191]
  /\ byteLength (bytes [97; 237; 160; 128; 98]) = 5.
Proof. repeat split; reflexivity. Qed.

Example Buffer_toString_ex :
  let bytes l := string_of_list_ascii (map ascii_of_nat l) in
  Buffer_toString "plain" = "plain"
  /\ Buffer_toString (bytes [226; 130; 172]) = bytes [226; 130; 172]
  /\ Buffer_toString (bytes [239; 187; 191; 97]) = bytes [239; 187; 191; 97]
  /\ Buffer_toString (bytes [255; 254]) = U_FFFD ++ U_FFFD
  /\ Buffer_toString (bytes [226; 130]) = U_FFFD
  /\ Buffer_toString (bytes [226; 130; 65]) = U_FFFD ++ "A"
  /\ Buffer_toString (bytes [240; 159; 152; 65]) = U_FFFD ++ "A"
  /\ Buffer_toString (bytes [192; 128]) = U_FFFD ++ U_FFFD
  /\ Buffer_toString (bytes [237; 160; 128]) = U_FFFD ++ U_FFFD ++ U_FFFD.
Proof. repeat split; reflexivity. Qed.

Example platform_path_ex :
  platform_path "/srv/up/docs/a.drawnix" = true
  /\ platform_path "uploads/a.drawnix" = true
  /\ platform_path "" = false
  /\ platform_path "/srv/../up" = false
  /\ platform_path (String zero "a.drawnix") = false
  /\ platform_path (string_of_list_ascii (repeat "a"%char 256)) = false
  /\ platform_path (string_of_list_ascii (repeat "a"%char 255)) = true
  /\ platform_path (string_of_list_ascii (map ascii_of_nat [237; 160; 128]))
     = false
  /\ platform_tree (room_below "/srv/up") sample_root = true.
Proof. repeat split; reflexivity. Qed.

(** * Text and bytes *)

(** Turn the tests of [utf8_code_point] into arithmetic. *)
Ltac arith_of_bool :=
  repeat match goal with
         | H : _ && _ = true |- _ => apply andb_true_iff in H; destruct H
         | H : _ || _ = true |- _ => apply orb_true_iff in H; destruct H
         | H : continuation _ = true |- _ => unfold continuation in H
         | H : (_ <=? _)%nat = true |- _ => apply Nat.leb_le in H
         | H : (_ <? _)%nat = true |- _ => apply Nat.ltb_lt in H
         | H : (_ <? _)%nat = false |- _ => apply Nat.ltb_ge in H
         | H : (_ =? _)%nat = true |- _ => apply Nat.eqb_eq in H
         end.

Lemma utf8_2 (c0 c1 : ascii) :
  utf8_code_point [c0; c1] =
  ((194 <=? nat_of_ascii c0) && (nat_of_ascii c0 <=? 223)
   && continuation (nat_of_ascii c1))%nat.
Proof. reflexivity. Qed.

Lemma utf8_3 (c0 c1 c2 : ascii) :
  utf8_code_point [c0; c1; c2] =
  (let b0 := nat_of_ascii c0 in
   let b1 := nat_of_ascii c1 in
   let b2 := nat_of_ascii c2 in
   ((b0 =? 224) && (160 <=? b1) && (b1 <=? 191) && continuation b2) ||
   ((225 <=? b0) && (b0 <=? 236) && continuation b1 && continuation b2) ||
   ((b0 =? 237) && (128 <=? b1) && (b1 <=? 159) && continuation b2) ||
   ((238 <=? b0) && (b0 <=? 239) && continuation b1 && continuation b2))%nat.
Proof. reflexivity. Qed.

Lemma utf8_4 (c0 c1 c2 c3 : ascii) :
  utf8_code_point [c0; c1; c2; c3] =
  (let b0 := nat_of_ascii c0 in
   let b1 := nat_of_ascii c1 in
   let b2 := nat_of_ascii c2 in
   let b3 := nat_of_ascii c3 in
   ((b0 =? 240) && (144 <=? b1) && (b1 <=? 191) && continuation b2
    && continuation b3) ||
   ((241 <=? b0) && (b0 <=? 243) && continuation b1 && continuation b2
    && continuation b3) ||
   ((b0 =? 244) && (128 <=? b1) && (b1 <=? 143) && continuation b2
    && continuation b3))%nat.
Proof. reflexivity. Qed.

Lemma utf8_3_lead (c0 c1 c2 : ascii) :
  utf8_code_point [c0; c1; c2] =
  utf8_lead3 (nat_of_ascii c0) (nat_of_ascii c1)
  && continuation (nat_of_ascii c2).
Proof.
  rewrite utf8_3. cbv zeta. unfold utf8_lead3.
  destruct (continuation (nat_of_ascii c2));
    now rewrite ?andb_true_r, ?andb_false_r.
Qed.

Lemma utf8_4_lead (c0 c1 c2 c3 : ascii) :
  utf8_code_point [c0; c1; c2; c3] =
  utf8_lead4 (nat_of_ascii c0) (nat_of_ascii c1)
  && continuation (nat_of_ascii c2) && continuation (nat_of_ascii c3).
Proof.
  rewrite utf8_4. cbv zeta. unfold utf8_lead4.
  destruct (continuation (nat_of_ascii c2)),
           (continuation (nat_of_ascii c3));
    now rewrite ?andb_true_r, ?andb_false_r.
Qed.

Lemma utf8_text_cons (c0 : ascii) (s1 : string) :
  utf8_text (String c0 s1) =
  if (nat_of_ascii c0 <? 128)%nat then utf8_text s1
  else
    match s1 with
    | String c1 s2 =>
        if utf8_code_point [c0; c1] then utf8_text s2
        else
          match s2 with
          | String c2 s3 =>
              if utf8_code_point [c0; c1; c2] then utf8_text s3
              else
                match s3 with
                | String c3 s4 =>
                    utf8_code_point [c0; c1; c2; c3] && utf8_text s4
                | EmptyString => false
                end
          | EmptyString => false
          end
    | EmptyString => false
    end.
Proof. reflexivity. Qed.

(** Well-formed text, code point by code point. *)
Section Utf8Induction.

Variable P : string -> Prop.
Hypothesis P_end : P "".
Hypothesis P_ascii :
  forall c s, (nat_of_ascii c <? 128)%nat = true ->
              utf8_text s = true -> P s -> P (String c s).
Hypothesis P_two :
  forall c0 c1 s,
    (nat_of_ascii c0 <? 128)%nat = false ->
    utf8_code_point [c0; c1] = true ->
    utf8_text s = true -> P s -> P (String c0 (String c1 s)).
Hypothesis P_three :
  forall c0 c1 c2 s,
    (nat_of_ascii c0 <? 128)%nat = false ->
    utf8_code_point [c0; c1] = false ->
    utf8_code_point [c0; c1; c2] = true ->
    utf8_text s = true -> P s -> P (String c0 (String c1 (String c2 s))).
Hypothesis P_four :
  forall c0 c1 c2 c3 s,
    (nat_of_ascii c0 <? 128)%nat = false ->
    utf8_code_point [c0; c1] = false ->
    utf8_code_point [c0; c1; c2] = false ->
    utf8_code_point [c0; c1; c2; c3] = true ->
    utf8_text s = true -> P s ->
    P (String c0 (String c1 (String c2 (String c3 s)))).

Lemma utf8_text_induction (s : string) : utf8_text s = true -> P s.
Proof.
  assert (H : forall n s, String.length s <= n -> utf8_text s = true -> P s).
  { induction n as [|n IH]; intros t Hlen Ht.
    - destruct t; [exact P_end | simpl in Hlen; lia].
    - destruct t as [|c0 s1]; [exact P_end|].
      rewrite utf8_text_cons in Ht. simpl in Hlen.
      destruct (nat_of_ascii c0 <? 128)%nat eqn:E0.
      { apply P_ascii; try assumption. apply IH; [lia | assumption]. }
      destruct s1 as [|c1 s2]; [discriminate|]. simpl in Hlen.
      destruct (utf8_code_point [c0; c1]) eqn:E1.
      { apply P_two; try assumption. apply IH; [lia | assumption]. }
      destruct s2 as [|c2 s3]; [discriminate|]. simpl in Hlen.
      destruct (utf8_code_point [c0; c1; c2]) eqn:E2.
      { apply P_three; try assumption. apply IH; [lia | assumption]. }
      destruct s3 as [|c3 s4]; [discriminate|]. simpl in Hlen.
      apply andb_true_iff in Ht as [E3 Ht].
      apply P_four; try assumption. apply IH; [lia | assumption]. }
  intros Hs. now apply (H (String.length s)).
Qed.

End Utf8Induction.

(** ** What is written for a string *)

Lemma Buffer_from_three (c0 c1 c2 : ascii) (s3 : string) :
  Buffer_from (String c0 (String c1 (String c2 s3))) =
  if surrogate_form c0 c1 c2 then U_FFFD ++ Buffer_from s3
  else String c0 (Buffer_from (String c1 (String c2 s3))).
Proof. reflexivity. Qed.

Lemma Buffer_from_cons (c : ascii) (s : string) :
  nat_of_ascii c <> 237 -> Buffer_from (String c s) = String c (Buffer_from s).
Proof.
  intros H. destruct s as [|c1 [|c2 s3]]; try reflexivity.
  cbn [Buffer_from]. unfold surrogate_form.
  destruct (Nat.eqb_spec (nat_of_ascii c) 237); [contradiction|reflexivity].
Qed.

Lemma Buffer_from_cons_low (c c1 : ascii) (s : string) :
  nat_of_ascii c1 < 160 ->
  Buffer_from (String c (String c1 s))
  = String c (Buffer_from (String c1 s)).
Proof.
  intros H. destruct s as [|c2 s3]; [reflexivity|].
  cbn [Buffer_from]. unfold surrogate_form.
  destruct (Nat.leb_spec 160 (nat_of_ascii c1)); [lia|].
  now rewrite andb_false_r.
Qed.

(** Well-formed text is written as it is. *)
Lemma Buffer_from_utf8 (s : string) :
  utf8_text s = true -> Buffer_from s = s.
Proof.
  apply (utf8_text_induction (fun t => Buffer_from t = t)); clear s.
  - reflexivity.
  - intros c s Hc _ IH. apply Nat.ltb_lt in Hc.
    rewrite Buffer_from_cons by lia. now rewrite IH.
  - intros c0 c1 s _ H2 _ IH. rewrite utf8_2 in H2. arith_of_bool.
    rewrite !Buffer_from_cons by lia. now rewrite IH.
  - intros c0 c1 c2 s _ _ H3 _ IH. rewrite utf8_3 in H3. cbv zeta in H3.
    arith_of_bool;
      first [ rewrite Buffer_from_cons by lia
            | rewrite Buffer_from_cons_low by lia ];
      rewrite !Buffer_from_cons by lia; now rewrite IH.
  - intros c0 c1 c2 c3 s _ _ _ H4 _ IH. rewrite utf8_4 in H4. cbv zeta in H4.
    arith_of_bool; rewrite !Buffer_from_cons by lia; now rewrite IH.
Qed.

Lemma length_append (a b : string) :
  String.length (a ++ b) = String.length a + String.length b.
Proof. induction a as [|c a IH]; simpl; [reflexivity | now rewrite IH]. Qed.

(** A string is written in as many bytes as it is held in. *)
Lemma length_Buffer_from (s : string) :
  String.length (Buffer_from s) = byteLength s.
Proof.
  unfold byteLength.
  assert (H : forall n t, String.length t <= n ->
                          String.length (Buffer_from t) = String.length t).
  { induction n as [|n IH]; intros t Hlen.
    - destruct t; [reflexivity | simpl in Hlen; lia].
    - destruct t as [|c0 [|c1 [|c2 s3]]]; try reflexivity.
      rewrite Buffer_from_three. simpl in Hlen.
      destruct (surrogate_form c0 c1 c2).
      + rewrite length_append, IH by lia. reflexivity.
      + change (String.length (String c0 (Buffer_from (String c1 (String c2 s3)))))
          with (S (String.length (Buffer_from (String c1 (String c2 s3))))).
        rewrite IH by (simpl; lia). reflexivity. }
  now apply (H (String.length s)).
Qed.

(** ** What is read from bytes *)

Lemma Buffer_toString_cons (c0 : ascii) (s1 : string) :
  Buffer_toString (String c0 s1) =
  let b0 := nat_of_ascii c0 in
  if (b0 <? 128)%nat then String c0 (Buffer_toString s1)
  else
    match s1 with
    | EmptyString => U_FFFD
    | String c1 s2 =>
        let b1 := nat_of_ascii c1 in
        if utf8_code_point [c0; c1] then
          String c0 (String c1 (Buffer_toString s2))
        else if utf8_lead3 b0 b1 || utf8_lead4 b0 b1 then
          match s2 with
          | EmptyString => U_FFFD
          | String c2 s3 =>
              if utf8_code_point [c0; c1; c2] then
                String c0 (String c1 (String c2 (Buffer_toString s3)))
              else if utf8_lead4 b0 b1 && continuation (nat_of_ascii c2)
              then
                match s3 with
                | EmptyString => U_FFFD
                | String c3 s4 =>
                    if utf8_code_point [c0; c1; c2; c3] then
                      String c0 (String c1 (String c2 (String c3
                        (Buffer_toString s4))))
                    else U_FFFD ++ Buffer_toString s3
                end
              else U_FFFD ++ Buffer_toString s2
          end
        else U_FFFD ++ Buffer_toString s1
    end.
Proof. reflexivity. Qed.

(** Well-formed text is read as it is. *)
Lemma Buffer_toString_utf8 (s : string) :
  utf8_text s = true -> Buffer_toString s = s.
Proof.
  apply (utf8_text_induction (fun t => Buffer_toString t = t)); clear s.
  - reflexivity.
  - intros c s Hc _ IH. rewrite Buffer_toString_cons. cbv zeta.
    now rewrite Hc, IH.
  - intros c0 c1 s H0 H2 _ IH. rewrite Buffer_toString_cons. cbv zeta.
    now rewrite H0, H2, IH.
  - intros c0 c1 c2 s H0 H2 H3 _ IH. rewrite Buffer_toString_cons. cbv zeta.
    rewrite H0, H2, H3.
    rewrite utf8_3_lead in H3. apply andb_true_iff in H3 as [H3 _].
    now rewrite H3, IH.
  - intros c0 c1 c2 c3 s H0 H2 H3 H4 _ IH.
    rewrite Buffer_toString_cons. cbv zeta.
    rewrite H0, H2, H3, H4.
    rewrite utf8_4_lead in H4.
    apply andb_true_iff in H4 as [H4 _]. apply andb_true_iff in H4 as [H4 K2].
    now rewrite H4, K2, orb_true_r, IH.
Qed.

(** What is read back of a string that was written: the string itself
    when it holds no unpaired surrogate. *)
Lemma write_then_read_text (s : string) :
  utf8_text s = true -> Buffer_toString (Buffer_from s) = s.
Proof.
  intros H. rewrite (Buffer_from_utf8 s H). now apply Buffer_toString_utf8.
Qed.

(** * Strings and segments *)

Lemma append_assoc (a b c : string) : (a ++ b) ++ c = a ++ (b ++ c).
Proof. induction a as [|x a IH]; simpl; [reflexivity | now rewrite IH]. Qed.

Lemma append_nil_r (a : string) : a ++ "" = a.
Proof. induction a as [|x a IH]; simpl; [reflexivity | now rewrite IH]. Qed.

Lemma endsWith_nil (suf : string) :
  endsWith "" suf = (("" =? suf) || false).
Proof. reflexivity. Qed.

Lemma endsWith_cons (c : ascii) (s suf : string) :
  endsWith (String c s) suf = ((String c s =? suf) || endsWith s suf).
Proof. reflexivity. Qed.

Lemma endsWith_iff (s suf : string) :
  endsWith s suf = true <-> exists p, s = p ++ suf.
Proof.
  induction s as [|c s IH].
  - rewrite endsWith_nil, orb_false_r, String.eqb_eq. split.
    + intros <-. now exists "".
    + intros [p H]. destruct p; simpl in H; [auto | discriminate].
  - rewrite endsWith_cons, orb_true_iff, String.eqb_eq, IH. split.
    + intros [<- | [p ->]]; [now exists "" | now exists (String c p)].
    + intros [p H]. destruct p as [|c' p]; simpl in H.
      * now left.
      * right. exists p. now inversion H.
Qed.

Lemma split_not_nil (s : string) : path.split s <> [].
Proof.
  induction s as [|c s IH]; simpl; [discriminate|].
  destruct (Ascii.eqb c "/"); [discriminate|].
  destruct (path.split s); discriminate.
Qed.

Lemma split_cons (c : ascii) (s : string) :
  path.split (String c s) =
  if Ascii.eqb c "/" then EmptyString :: path.split s
  else match path.split s with
       | [] => [String c EmptyString]
       | seg :: rest => String c seg :: rest
       end.
Proof. reflexivity. Qed.

Lemma split_app (a b : string) :
  path.split (a ++ "/" ++ b) = (path.split a ++ path.split b)%list.
Proof.
  induction a as [|c a IH].
  - reflexivity.
  - change (String c a ++ "/" ++ b) with (String c (a ++ "/" ++ b)).
    rewrite !split_cons, IH.
    destruct (Ascii.eqb c "/"); [reflexivity|].
    pose proof (split_not_nil a) as Hn.
    destruct (path.split a); [contradiction | reflexivity].
Qed.

Lemma split_slash_free (s : string) :
  slash_free s = true -> path.split s = [s].
Proof.
  induction s as [|c s IH]; simpl; [reflexivity|].
  intros H. apply andb_true_iff in H as [Hc Hs].
  apply negb_true_iff in Hc. rewrite Hc, (IH Hs). reflexivity.
Qed.

Lemma split_all_slash_free (s : string) :
  Forall (fun x => slash_free x = true) (path.split s).
Proof.
  induction s as [|c s IH]; simpl; [repeat constructor|].
  destruct (Ascii.eqb c "/") eqn:E; [constructor; [reflexivity | exact IH]|].
  destruct (path.split s) as [|seg rest]; [repeat constructor; simpl; now rewrite E|].
  inversion IH; subst. constructor; [simpl; rewrite E; assumption | assumption].
Qed.

Lemma join_segs_cons (s : string) (l : list string) :
  l <> [] -> path.join_segs (s :: l) = s ++ "/" ++ path.join_segs l.
Proof. destruct l; [contradiction | reflexivity]. Qed.

Lemma split_join (l : list string) :
  l <> [] -> Forall (fun x => slash_free x = true) l ->
  path.split (path.join_segs l) = l.
Proof.
  induction l as [|s l IH]; [contradiction|]. intros _ H.
  inversion H as [|? ? Hs Hl]; subst.
  destruct l as [|s' l'].
  - simpl. now apply split_slash_free.
  - rewrite join_segs_cons by discriminate. rewrite split_app.
    rewrite split_slash_free by assumption. rewrite IH; [reflexivity | discriminate | assumption].
Qed.

Lemma join_segs_app (l1 l2 : list string) :
  l1 <> [] -> l2 <> [] ->
  path.join_segs (l1 ++ l2) = path.join_segs l1 ++ "/" ++ path.join_segs l2.
Proof.
  induction l1 as [|s l1 IH]; [contradiction|]. intros _ H2.
  destruct l1 as [|s' l1'].
  - simpl app. now rewrite join_segs_cons.
  - change ((s :: s' :: l1') ++ l2)%list with (s :: ((s' :: l1') ++ l2))%list.
    rewrite join_segs_cons by discriminate.
    rewrite IH by (discriminate || assumption).
    rewrite (join_segs_cons s (s' :: l1')) by discriminate.
    now rewrite !append_assoc.
Qed.

Lemma valid_name_spec (s : string) :
  valid_name s = true <->
  s <> "" /\ s <> "." /\ s <> ".." /\ slash_free s = true.
Proof.
  unfold valid_name. rewrite !andb_true_iff, !negb_true_iff, !String.eqb_neq.
  tauto.
Qed.

Lemma valid_name_not_absolute (s : string) :
  slash_free s = true -> path.isAbsolute s = false.
Proof.
  destruct s as [|c s]; [reflexivity|]. simpl. intros H.
  apply andb_true_iff in H as [Hc _]. apply negb_true_iff in Hc.
  destruct c as [[] [] [] [] [] [] [] []]; try reflexivity; discriminate.
Qed.

(** * Normalization and [path.resolve] by segments *)

Lemma step_valid (b : bool) (acc : list string) (s : string) :
  valid_name s = true -> path.normalize_step b acc s = s :: acc.
Proof.
  intros H. apply valid_name_spec in H as (H1 & H2 & H3 & _).
  unfold path.normalize_step.
  apply String.eqb_neq in H1, H2, H3. now rewrite H1, H2, H3.
Qed.

Lemma step_false_all_valid (acc : list string) (s : string) :
  all_valid acc -> slash_free s = true ->
  all_valid (path.normalize_step false acc s).
Proof.
  intros Ha Hs. unfold path.normalize_step.
  destruct (s =? "") eqn:E1; [exact Ha|].
  destruct (s =? ".") eqn:E2; [exact Ha|]. simpl.
  destruct (s =? "..") eqn:E3.
  - destruct acc as [|a acc']; [constructor|].
    destruct (a =? ".."); [exact Ha | now inversion Ha].
  - constructor; [|exact Ha]. unfold valid_name. now rewrite E1, E2, E3, Hs.
Qed.

Lemma fold_false_all_valid (xs acc : list string) :
  all_valid acc -> Forall (fun x => slash_free x = true) xs ->
  all_valid (fold_left (path.normalize_step false) xs acc).
Proof.
  revert acc. induction xs as [|x xs IH]; intros acc Ha Hx; [exact Ha|].
  inversion Hx; subst. simpl. apply IH; [|assumption].
  now apply step_false_all_valid.
Qed.

Lemma all_valid_rev (l : list string) : all_valid l -> all_valid (rev l).
Proof. apply Forall_rev. Qed.

Lemma all_valid_app (l1 l2 : list string) :
  all_valid (l1 ++ l2) <-> all_valid l1 /\ all_valid l2.
Proof. apply Forall_app. Qed.

Lemma push_segs_all_valid (B xs : list string) :
  all_valid B -> Forall (fun x => slash_free x = true) xs ->
  all_valid (push_segs B xs).
Proof.
  intros HB Hx. unfold push_segs. apply all_valid_rev.
  apply fold_false_all_valid; [now apply all_valid_rev | assumption].
Qed.

Lemma push_segs_nil (B : list string) : push_segs B [] = B.
Proof. unfold push_segs. simpl. apply rev_involutive. Qed.

Lemma push_segs_app (B xs ys : list string) :
  push_segs B (xs ++ ys) = push_segs (push_segs B xs) ys.
Proof. unfold push_segs. now rewrite fold_left_app, rev_involutive. Qed.

Lemma push_segs_cons (B : list string) (x : string) (xs : list string) :
  push_segs B (x :: xs) = push_segs (push_segs B [x]) xs.
Proof. apply (push_segs_app B [x] xs). Qed.

Lemma push_segs_skip (B : list string) (s : string) :
  s = "" \/ s = "." -> push_segs B [s] = B.
Proof.
  intros [-> | ->]; unfold push_segs; simpl; apply rev_involutive.
Qed.

Lemma push_segs_name (B : list string) (s : string) :
  valid_name s = true -> push_segs B [s] = (B ++ [s])%list.
Proof.
  intros H. unfold push_segs. simpl. rewrite (step_valid _ _ _ H).
  simpl. now rewrite rev_involutive.
Qed.

Lemma push_segs_names (B xs : list string) :
  all_valid xs -> push_segs B xs = (B ++ xs)%list.
Proof.
  revert B. induction xs as [|x xs IH]; intros B H.
  - now rewrite push_segs_nil, app_nil_r.
  - inversion H; subst. rewrite push_segs_cons, push_segs_name by assumption.
    rewrite IH by assumption. now rewrite <- app_assoc.
Qed.

(** [".."] on a directory that is not the root drops its last segment; on
    the root it stays there. *)
Lemma push_segs_dotdot (B : list string) (s : string) :
  all_valid (B ++ [s]) -> push_segs (B ++ [s]) [".."] = B.
Proof.
  intros H. apply all_valid_app in H as [_ Hs]. inversion Hs as [|? ? Hv _]; subst.
  apply valid_name_spec in Hv as (_ & _ & H3 & _).
  unfold push_segs. simpl. rewrite rev_app_distr. simpl.
  unfold path.normalize_step. simpl.
  apply String.eqb_neq in H3. rewrite H3. apply rev_involutive.
Qed.

Lemma push_segs_dotdot_root : push_segs [] [".."] = [].
Proof. reflexivity. Qed.

Section ResolveSegs.

Variable cwd : string.
Hypothesis cwd_absolute : path.isAbsolute cwd = true.

Lemma cwd_not_empty : cwd <> "".
Proof. intros E. rewrite E in cwd_absolute. discriminate. Qed.

Lemma resolve_one_empty (B : list string) : resolve_one B "" = B.
Proof. unfold resolve_one. simpl. now apply push_segs_skip; left. Qed.

Lemma resolve_loop_cons (p : string) (rest : list string) (r : string) :
  p <> "" ->
  path.resolve_loop (p :: rest) r =
  if path.isAbsolute p then (p ++ "/" ++ r, true)
  else path.resolve_loop rest (p ++ "/" ++ r).
Proof. destruct p; [contradiction | reflexivity]. Qed.

Lemma resolve_loop_spec (l : list string) (r : string) :
  exists rp,
    path.resolve_loop (l ++ [cwd]) r = (rp, true) /\
    push_segs [] (path.split rp) =
    push_segs (fold_left resolve_one (rev l) (cwd_segs cwd)) (path.split r).
Proof.
  revert r. induction l as [|p l IH]; intros r.
  - change ([] ++ [cwd])%list with [cwd].
    rewrite resolve_loop_cons by exact cwd_not_empty.
    rewrite cwd_absolute. eexists; split; [reflexivity|].
    rewrite split_app, push_segs_app. reflexivity.
  - simpl rev. rewrite fold_left_app. simpl fold_left.
    set (X := fold_left resolve_one (rev l) (cwd_segs cwd)).
    change ((p :: l) ++ [cwd])%list with (p :: (l ++ [cwd]))%list.
    destruct (string_dec p "") as [Ep | Ep].
    + subst p. change (path.resolve_loop ("" :: l ++ [cwd]) r)
        with (path.resolve_loop (l ++ [cwd]) r).
      destruct (IH r) as (rp & H1 & H2). exists rp. split; [exact H1|].
      rewrite H2. fold X. now rewrite resolve_one_empty.
    + rewrite resolve_loop_cons by exact Ep.
      destruct (path.isAbsolute p) eqn:Ea.
      * eexists; split; [reflexivity|].
        rewrite split_app, push_segs_app. unfold resolve_one. now rewrite Ea.
      * destruct (IH (p ++ "/" ++ r)) as (rp & H1 & H2). exists rp.
        split; [exact H1|]. rewrite H2. fold X.
        rewrite split_app, push_segs_app. unfold resolve_one. now rewrite Ea.
Qed.

(** [path.resolve] reads its arguments left to right, starting from the
    working directory. *)
Lemma resolve_segs_fold (args : list string) :
  path.resolve_segs cwd args = fold_left resolve_one args (cwd_segs cwd).
Proof.
  unfold path.resolve_segs.
  destruct (resolve_loop_spec (rev args) "") as (rp & H1 & H2).
  rewrite H1. simpl negb. unfold path.normalize_segs.
  change (rev (fold_left (path.normalize_step false) (path.split rp) []))
    with (push_segs [] (path.split rp)).
  rewrite H2, rev_involutive. simpl. now apply push_segs_skip; left.
Qed.

Lemma resolve_string (args : list string) :
  path.resolve cwd args = "/" ++ path.join_segs (path.resolve_segs cwd args).
Proof.
  unfold path.resolve, path.resolve_segs.
  destruct (resolve_loop_spec (rev args) "") as (rp & H1 & _).
  rewrite H1. reflexivity.
Qed.

Lemma cwd_segs_valid : all_valid (cwd_segs cwd).
Proof.
  apply push_segs_all_valid; [constructor | apply split_all_slash_free].
Qed.

Lemma resolve_one_valid (B : list string) (p : string) :
  all_valid B -> all_valid (resolve_one B p).
Proof.
  intros HB. unfold resolve_one. apply push_segs_all_valid.
  - destruct (path.isAbsolute p); [constructor | exact HB].
  - apply split_all_slash_free.
Qed.

Lemma resolve_segs_valid (args : list string) :
  all_valid (path.resolve_segs cwd args).
Proof.
  rewrite resolve_segs_fold. generalize cwd_segs_valid.
  generalize (cwd_segs cwd). induction args as [|a args IH]; intros B HB; [exact HB|].
  simpl. apply IH. now apply resolve_one_valid.
Qed.

End ResolveSegs.

(** * [path.relative] and the path guard *)

Lemma all_valid_slash_free (l : list string) :
  all_valid l -> Forall (fun x => slash_free x = true) l.
Proof.
  intros H. eapply Forall_impl; [|exact H]. intros a Ha.
  now apply valid_name_spec in Ha.
Qed.

Lemma resolve_one_abs_string (B S : list string) :
  all_valid S -> resolve_one B ("/" ++ path.join_segs S) = S.
Proof.
  intros HS. unfold resolve_one.
  change (path.isAbsolute ("/" ++ path.join_segs S)) with true. cbv iota.
  change (path.split ("/" ++ path.join_segs S))
    with ("" :: path.split (path.join_segs S)).
  rewrite push_segs_cons, push_segs_skip by now left.
  destruct S as [|s S'].
  - reflexivity.
  - rewrite split_join; [| discriminate | now apply all_valid_slash_free].
    now rewrite push_segs_names.
Qed.

Lemma drop_common_refl (l : list string) : path.drop_common l l = ([], []).
Proof. induction l as [|x l IH]; simpl; [reflexivity | now rewrite String.eqb_refl]. Qed.

Lemma drop_common_prefix (l r : list string) :
  path.drop_common l (l ++ r) = ([], r).
Proof.
  induction l as [|x l IH]; simpl; [now destruct r | now rewrite String.eqb_refl].
Qed.

Lemma drop_common_spec (f t up down : list string) :
  path.drop_common f t = (up, down) ->
  exists c, f = (c ++ up)%list /\ t = (c ++ down)%list.
Proof.
  revert t up down. induction f as [|x f IH]; intros t up down H.
  - simpl in H. inversion H; subst. now exists [].
  - destruct t as [|y t]; simpl in H.
    + inversion H; subst. now exists [].
    + destruct (x =? y) eqn:E.
      * apply String.eqb_eq in E. subst y.
        destruct (IH _ _ _ H) as (c & -> & ->). now exists (x :: c).
      * inversion H; subst. now exists [].
Qed.

Lemma startsWith_dotdot_app (s x : string) :
  s <> "" -> s <> "." ->
  startsWith (s ++ x) ".." = startsWith s "..".
Proof.
  intros H1 H2. destruct s as [|a s]; [contradiction|].
  destruct s as [|b s].
  - cbn [startsWith append].
    destruct (Ascii.eqb "." a) eqn:E; [|reflexivity].
    apply Ascii.eqb_eq in E. now subst a.
  - cbn [startsWith append]. reflexivity.
Qed.

Lemma startsWith_join_name (s : string) (r : list string) :
  valid_name s = true ->
  startsWith (path.join_segs (s :: r)) ".." = startsWith s "..".
Proof.
  intros H. apply valid_name_spec in H as (H1 & H2 & _).
  destruct r as [|s' r]; [reflexivity|].
  rewrite join_segs_cons by discriminate. now apply startsWith_dotdot_app.
Qed.

Lemma startsWith_join_dotdot (l : list string) :
  startsWith (path.join_segs (".." :: l)) ".." = true.
Proof. destruct l; reflexivity. Qed.

Lemma join_name_shape (s : string) (r : list string) :
  valid_name s = true ->
  truthy_string (path.join_segs (s :: r)) = true /\
  path.isAbsolute (path.join_segs (s :: r)) = false.
Proof.
  intros H. apply valid_name_spec in H as (H1 & _ & _ & H4).
  destruct s as [|c s]; [contradiction|].
  simpl in H4. apply andb_true_iff in H4 as [Hc _].
  apply negb_true_iff in Hc.
  assert (E : exists tl, path.join_segs (String c s :: r) = String c tl).
  { destruct r; [now exists s|]. rewrite join_segs_cons by discriminate.
    simpl. eauto. }
  destruct E as [tl ->]. split; [reflexivity|].
  simpl. destruct c as [[] [] [] [] [] [] [] []]; try reflexivity; discriminate.
Qed.

Section Guard.

Variable cwd : string.
Hypothesis cwd_absolute : path.isAbsolute cwd = true.

Lemma fs_segs_resolve (args : list string) :
  fs_segs cwd (path.resolve cwd args) = path.resolve_segs cwd args.
Proof.
  unfold fs_segs. rewrite (resolve_segs_fold cwd cwd_absolute [_]).
  rewrite resolve_string by assumption. simpl.
  apply resolve_one_abs_string. now apply resolve_segs_valid.
Qed.

(** [path.relative] from the segments of its two arguments. *)
Lemma relative_segs (from to : string) :
  path.relative cwd from to =
  let '(up, down) := path.drop_common (path.resolve_segs cwd [from])
                       (path.resolve_segs cwd [to]) in
  path.join_segs (map (fun _ => "..") up ++ down).
Proof.
  unfold path.relative. destruct (from =? to) eqn:E1.
  - apply String.eqb_eq in E1. subst. now rewrite drop_common_refl.
  - destruct (path.resolve cwd [from] =? path.resolve cwd [to]) eqn:E2;
      [|reflexivity].
    apply String.eqb_eq in E2.
    assert (E : path.resolve_segs cwd [from] = path.resolve_segs cwd [to]).
    { rewrite <- (fs_segs_resolve [from]), <- (fs_segs_resolve [to]).
      now rewrite E2. }
    rewrite E. now rewrite drop_common_refl.
Qed.

(** What the guard decides: [child] lies strictly below [parent], and the
    first segment below [parent] does not begin with two dots. *)
Lemma isPathInside_spec (parent child : string) :
  isPathInside cwd parent child = true <->
  exists s r,
    path.resolve_segs cwd [child] =
      (path.resolve_segs cwd [parent] ++ s :: r)%list /\
    startsWith s ".." = false.
Proof.
  unfold isPathInside. rewrite relative_segs.
  pose proof (resolve_segs_valid cwd cwd_absolute [child]) as HvT.
  set (F := path.resolve_segs cwd [parent]) in *.
  set (T := path.resolve_segs cwd [child]) in *.
  split.
  - destruct (path.drop_common F T) as [up down] eqn:E.
    destruct (drop_common_spec _ _ _ _ E) as (c & HF & HT).
    intros H. apply andb_true_iff in H as [H H3].
    apply andb_true_iff in H as [H1 H2].
    apply negb_true_iff in H2, H3.
    destruct up as [|u up].
    + rewrite app_nil_r in HF. subst c. simpl in H1, H2.
      destruct down as [|s r]; [discriminate|].
      exists s, r. split; [exact HT|].
      rewrite HT in HvT. apply all_valid_app in HvT as [_ Hv].
      inversion Hv; subst. now rewrite <- (startsWith_join_name s r).
    + simpl map in H2. simpl app in H2.
      now rewrite startsWith_join_dotdot in H2.
  - intros (s & r & HT & Hs). rewrite HT, drop_common_prefix.
    rewrite HT in HvT. apply all_valid_app in HvT as [_ Hv].
    inversion Hv as [|? ? Hvs _]; subst. simpl map. simpl app.
    destruct (join_name_shape s r Hvs) as [-> ->].
    now rewrite startsWith_join_name, Hs.
Qed.

Lemma isPathInside_strict (parent child : string) :
  isPathInside cwd parent child = true ->
  strict_descendant (path.resolve_segs cwd [parent])
    (path.resolve_segs cwd [child]).
Proof.
  intros H. apply isPathInside_spec in H as (s & r & H & _). now exists s, r.
Qed.

Lemma isPathInside_self (p q : string) :
  path.resolve_segs cwd [p] = path.resolve_segs cwd [q] ->
  isPathInside cwd p q = false.
Proof.
  intros E. destruct (isPathInside cwd p q) eqn:H; [|reflexivity].
  apply isPathInside_spec in H as (s & r & H & _). rewrite E in H.
  apply (f_equal (@List.length string)) in H. rewrite length_app in H.
  simpl in H. lia.
Qed.

End Guard.

(** * [path.normalize], [path.join], [path.dirname] and [path.basename] *)

Lemma step_true_kept (acc : list string) (s : string) :
  Forall kept acc -> slash_free s = true ->
  Forall kept (path.normalize_step true acc s).
Proof.
  intros Ha Hs. unfold path.normalize_step.
  destruct (s =? "") eqn:E1; [exact Ha|].
  destruct (s =? ".") eqn:E2; [exact Ha|]. simpl.
  apply String.eqb_neq in E1, E2.
  destruct (s =? "..") eqn:E3.
  - destruct acc as [|a acc']; [repeat constructor; discriminate|].
    destruct (a =? ".."); [|now inversion Ha].
    constructor; [|exact Ha]. repeat split; discriminate.
  - constructor; [|exact Ha]. now repeat split.
Qed.

Lemma fold_true_kept (xs acc : list string) :
  Forall kept acc -> Forall (fun x => slash_free x = true) xs ->
  Forall kept (fold_left (path.normalize_step true) xs acc).
Proof.
  revert acc. induction xs as [|x xs IH]; intros acc Ha Hx; [exact Ha|].
  inversion Hx; subst. simpl. apply IH; [|assumption].
  now apply step_true_kept.
Qed.

Lemma step_false_undo (X : list string) (a : string) :
  a <> "" -> a <> "." -> a <> ".." ->
  path.normalize_step false (path.normalize_step false X a) ".." = X.
Proof.
  intros H1 H2 H3. apply String.eqb_neq in H1, H2, H3.
  unfold path.normalize_step at 2. rewrite H1, H2, H3. simpl.
  unfold path.normalize_step. simpl. now rewrite H3.
Qed.

(** Normalizing a relative path on its own first (keeping leading [".."])
    and pushing the result onto a directory is pushing the path itself. *)
Lemma fold_false_after_true (xs t acc : list string) :
  Forall kept t ->
  Forall (fun x => slash_free x = true) xs ->
  fold_left (path.normalize_step false)
    (rev (fold_left (path.normalize_step true) xs t)) acc =
  fold_left (path.normalize_step false) xs
    (fold_left (path.normalize_step false) (rev t) acc).
Proof.
  revert t. induction xs as [|s xs IH]; intros t Ht Hx; [reflexivity|].
  inversion Hx as [|? ? Hs Hxs]; subst.
  simpl fold_left at 2. simpl fold_left at 3.
  rewrite IH; [| now apply step_true_kept | assumption]. f_equal.
  set (X := fold_left (path.normalize_step false) (rev t) acc).
  destruct (string_dec s "") as [-> | E1]; [reflexivity|].
  destruct (string_dec s ".") as [-> | E2]; [reflexivity|].
  destruct (string_dec s "..") as [-> | E3].
  - destruct t as [|a t']; [reflexivity|].
    change (path.normalize_step true (a :: t') "..")
      with (if a =? ".." then ".." :: a :: t' else t').
    destruct (a =? "..") eqn:Ea.
    + change (rev (".." :: a :: t')) with (rev (a :: t') ++ [".."])%list.
      rewrite fold_left_app. reflexivity.
    + inversion Ht as [|? ? (Ha1 & Ha2 & _) _]; subst.
      apply String.eqb_neq in Ea. subst X. simpl rev.
      rewrite fold_left_app. simpl fold_left.
      now rewrite step_false_undo.
  - assert (Hv : valid_name s = true) by now apply valid_name_spec.
    rewrite !(step_valid _ _ _ Hv). simpl rev. rewrite fold_left_app.
    simpl fold_left. fold X. now rewrite (step_valid _ _ _ Hv).
Qed.

Lemma push_segs_normalized (B : list string) (p : string) :
  push_segs B (path.normalize_segs true p) = push_segs B (path.split p).
Proof.
  unfold push_segs, path.normalize_segs. f_equal.
  rewrite fold_false_after_true;
    [reflexivity | constructor | apply split_all_slash_free].
Qed.

Lemma kept_slash_free (l : list string) :
  Forall kept l -> Forall (fun x => slash_free x = true) l.
Proof. intros H. eapply Forall_impl; [|exact H]. now intros a (_ & _ & Ha). Qed.

Lemma join_segs_head (s : string) (r : list string) :
  s <> "" -> slash_free s = true ->
  exists c tl, path.join_segs (s :: r) = String c tl /\ Ascii.eqb c "/" = false.
Proof.
  intros H1 H4. destruct s as [|c s]; [contradiction|].
  simpl in H4. apply andb_true_iff in H4 as [Hc _].
  apply negb_true_iff in Hc. exists c.
  destruct r; [now exists s|]. rewrite join_segs_cons by discriminate.
  simpl. eauto.
Qed.

Lemma isAbsolute_cons (c : ascii) (tl : string) :
  path.isAbsolute (String c tl) = Ascii.eqb c "/".
Proof. destruct c as [[] [] [] [] [] [] [] []]; reflexivity. Qed.

Lemma isAbsolute_app (a b : string) :
  a <> "" -> path.isAbsolute (a ++ b) = path.isAbsolute a.
Proof. destruct a as [|c a]; [contradiction|]. intros _. simpl append. now rewrite !isAbsolute_cons. Qed.

Lemma split_trailing (y : string) :
  path.split (y ++ "/") = (path.split y ++ [""])%list.
Proof. apply (split_app y ""). Qed.

Lemma push_segs_trailing (B xs : list string) :
  push_segs B (xs ++ [""]) = push_segs B xs.
Proof. rewrite push_segs_app. now apply push_segs_skip; left. Qed.

(** Resolving a normalized path is resolving the path. *)
Lemma resolve_one_normalize (B : list string) (p : string) :
  p <> "" -> resolve_one B (path.normalize p) = resolve_one B p.
Proof.
  intros Hp. destruct p as [|c0 p0] eqn:Ep; [contradiction|]. rewrite <- Ep.
  assert (En : path.normalize p =
    let isAbs := path.isAbsolute p in
    let n := path.normalizeString (negb isAbs) p in
    match n with
    | EmptyString =>
        if isAbs then "/" else if endsWith p "/" then "./" else "."
    | _ => let n' := if endsWith p "/" then n ++ "/" else n in
           if isAbs then "/" ++ n' else n'
    end) by now rewrite Ep.
  rewrite En. clear En Ep c0 p0 Hp. cbv zeta.
  unfold path.normalizeString.
  destruct (path.isAbsolute p) eqn:Ea; simpl negb.
  - (* absolute *)
    assert (HS : all_valid (path.normalize_segs false p)).
    { apply (push_segs_all_valid [] (path.split p));
        [constructor | apply split_all_slash_free]. }
    assert (ER : resolve_one B p = path.normalize_segs false p).
    { unfold resolve_one. now rewrite Ea. }
    rewrite ER. clear ER.
    destruct (path.normalize_segs false p) as [|s r]; [reflexivity|].
    inversion HS as [|? ? Hv _]; subst.
    apply valid_name_spec in Hv as (H1 & _ & _ & H4).
    destruct (join_segs_head s r H1 H4) as (c & tl & E & _).
    rewrite E. cbv iota. rewrite <- E. destruct (endsWith p "/").
    + unfold resolve_one.
      change (path.isAbsolute ("/" ++ (path.join_segs (s :: r) ++ "/")))
        with true.
      cbv iota.
      change (path.split ("/" ++ (path.join_segs (s :: r) ++ "/")))
        with ("" :: path.split (path.join_segs (s :: r) ++ "/")).
      rewrite push_segs_cons, push_segs_skip by now left.
      rewrite split_trailing, push_segs_trailing.
      rewrite split_join;
        [| discriminate | now apply all_valid_slash_free].
      now rewrite push_segs_names.
    + now apply resolve_one_abs_string.
  - (* relative *)
    assert (HT : Forall kept (path.normalize_segs true p)).
    { unfold path.normalize_segs. apply Forall_rev.
      apply fold_true_kept; [constructor | apply split_all_slash_free]. }
    assert (ER : resolve_one B p =
                 push_segs B (path.normalize_segs true p)).
    { unfold resolve_one. now rewrite Ea, push_segs_normalized. }
    rewrite ER. clear ER.
    destruct (path.normalize_segs true p) as [|s r].
    + change (path.join_segs []) with "". cbv iota. rewrite push_segs_nil.
      destruct (endsWith p "/"); unfold resolve_one; simpl path.isAbsolute;
        cbv iota.
      * change (path.split "./") with ["."; ""].
        rewrite push_segs_cons, (push_segs_skip B ".") by now right.
        now apply push_segs_skip; left.
      * change (path.split ".") with ["."]. now apply push_segs_skip; right.
    + inversion HT as [|? ? (H1 & _ & H4) _]; subst.
      destruct (join_segs_head s r H1 H4) as (c & tl & E & Hc).
      assert (Hsf : Forall (fun x => slash_free x = true) (s :: r))
        by now apply kept_slash_free.
      assert (Hrel : path.isAbsolute (path.join_segs (s :: r)) = false).
      { now rewrite E, isAbsolute_cons. }
      assert (Hne : path.join_segs (s :: r) <> "") by (rewrite E; discriminate).
      rewrite E. cbv iota. rewrite <- E.
      destruct (endsWith p "/"); unfold resolve_one.
      * rewrite isAbsolute_app by assumption. rewrite Hrel.
        rewrite split_trailing, push_segs_trailing, split_join;
          [reflexivity | discriminate | assumption].
      * rewrite Hrel. rewrite split_join;
          [reflexivity | discriminate | assumption].
Qed.

Section Join.

Variable cwd : string.
Hypothesis cwd_absolute : path.isAbsolute cwd = true.

Lemma fs_segs_one (p : string) :
  fs_segs cwd p = resolve_one (cwd_segs cwd) p.
Proof. unfold fs_segs. now rewrite resolve_segs_fold. Qed.

(** The path [readdir]'s caller builds for an entry addresses that entry. *)
Lemma fs_segs_join (dir k : string) :
  valid_name k = true ->
  fs_segs cwd (path.join dir k) = (fs_segs cwd dir ++ [k])%list.
Proof.
  intros Hk. pose proof Hk as Hk'.
  apply valid_name_spec in Hk' as (Hk1 & _ & _ & Hk4).
  rewrite !fs_segs_one. unfold path.join.
  destruct dir as [|d0 dir0] eqn:Ed.
  - destruct k as [|k0 k1] eqn:Ek; [contradiction|]. rewrite <- Ek in *.
    rewrite resolve_one_normalize by (rewrite Ek; discriminate).
    rewrite resolve_one_empty. unfold resolve_one.
    rewrite valid_name_not_absolute by assumption.
    rewrite split_slash_free by assumption. now apply push_segs_name.
  - rewrite <- Ed. destruct k as [|k0 k1] eqn:Ek; [contradiction|].
    rewrite <- Ek in *.
    rewrite resolve_one_normalize.
    2:{ rewrite Ed. discriminate. }
    unfold resolve_one. rewrite isAbsolute_app by (rewrite Ed; discriminate).
    rewrite split_app, push_segs_app, (split_slash_free k) by assumption.
    now apply push_segs_name.
Qed.

(** The relative path of something below the base is its segments below
    the base, joined. *)
Lemma relative_below (base abs : string) (q : list string) :
  fs_segs cwd abs = (fs_segs cwd base ++ q)%list ->
  path.relative cwd base abs = path.join_segs q.
Proof.
  intros H. rewrite relative_segs by assumption.
  unfold fs_segs in H. rewrite H, drop_common_prefix. reflexivity.
Qed.

End Join.

(** ** [path.dirname] and [path.basename] on joined segments *)

Lemma list_ascii_app (a b : string) :
  list_ascii_of_string (a ++ b) =
  (list_ascii_of_string a ++ list_ascii_of_string b)%list.
Proof. induction a as [|c a IH]; simpl; [reflexivity | now rewrite IH]. Qed.

Lemma slash_free_no_slash (s : string) :
  slash_free s = true -> no_slash (list_ascii_of_string s).
Proof.
  induction s as [|c s IH]; simpl; intros H; [constructor|].
  apply andb_true_iff in H as [Hc Hs]. apply negb_true_iff in Hc.
  constructor; [exact Hc | now apply IH].
Qed.

Lemma skip_segment_app (r rest : list ascii) :
  no_slash r -> path.skip_segment (r ++ "/"%char :: rest) = "/"%char :: rest.
Proof.
  induction 1 as [|c r Hc _ IH]; [reflexivity|]. simpl. now rewrite Hc.
Qed.

Lemma skip_segment_all (r : list ascii) :
  no_slash r -> path.skip_segment r = [].
Proof. induction 1 as [|c r Hc _ IH]; [reflexivity|]. simpl. now rewrite Hc. Qed.

Lemma skip_slashes_head (r rest : list ascii) :
  no_slash r -> r <> [] -> path.skip_slashes (r ++ rest) = (r ++ rest)%list.
Proof.
  intros H Hn. destruct H as [|c r Hc _]; [contradiction|]. simpl. now rewrite Hc.
Qed.

Lemma skip_slashes_no_slash (r : list ascii) :
  no_slash r -> path.skip_slashes r = r.
Proof. intros H. destruct H as [|c r Hc _]; [reflexivity|]. simpl. now rewrite Hc. Qed.

Lemma no_slash_rev (r : list ascii) : no_slash r -> no_slash (rev r).
Proof. apply Forall_rev. Qed.

Lemma dirname_name (k : string) :
  valid_name k = true -> path.dirname k = ".".
Proof.
  intros H. apply valid_name_spec in H as (H1 & _ & _ & H4).
  destruct k as [|c tl]; [contradiction|]. simpl in H4.
  apply andb_true_iff in H4 as [Hc Hs]. apply negb_true_iff in Hc.
  unfold path.dirname. rewrite Hc.
  pose proof (no_slash_rev _ (slash_free_no_slash _ Hs)) as Hr.
  now rewrite skip_slashes_no_slash, skip_segment_all.
Qed.

Lemma dirname_append (d k : string) :
  d <> "" -> path.isAbsolute d = false -> valid_name k = true ->
  path.dirname (d ++ "/" ++ k) = d.
Proof.
  intros Hd Ha Hk. apply valid_name_spec in Hk as (H1 & _ & _ & H4).
  destruct d as [|c0 d']; [contradiction|]. rewrite isAbsolute_cons in Ha.
  change (String c0 d' ++ "/" ++ k) with (String c0 (d' ++ "/" ++ k)).
  unfold path.dirname. rewrite Ha, list_ascii_app.
  change (list_ascii_of_string ("/" ++ k))
    with ("/"%char :: list_ascii_of_string k).
  rewrite rev_app_distr. simpl rev. rewrite <- app_assoc. simpl app.
  pose proof (no_slash_rev _ (slash_free_no_slash _ H4)) as Hr.
  assert (Hne : rev (list_ascii_of_string k) <> []).
  { destruct k; [contradiction|]. simpl. now destruct (rev (list_ascii_of_string k)). }
  rewrite skip_slashes_head, skip_segment_app by assumption.
  destruct (rev (list_ascii_of_string d')) as [|x before] eqn:E.
  - apply (f_equal (@rev ascii)) in E. rewrite rev_involutive in E. simpl in E.
    apply (f_equal string_of_list_ascii) in E.
    rewrite string_of_list_ascii_of_string in E. now subst d'.
  - rewrite <- E, rev_involutive, string_of_list_ascii_of_string. reflexivity.
Qed.

Lemma join_segs_not_dot (ps : list string) :
  ps <> [] -> all_valid ps -> path.join_segs ps <> ".".
Proof.
  intros Hn Hv E. destruct ps as [|s r]; [contradiction|].
  inversion Hv as [|? ? Hs Hr]; subst.
  apply valid_name_spec in Hs as (H1 & H2 & _ & _).
  destruct r as [|s' r'].
  - now simpl in E.
  - rewrite join_segs_cons in E by discriminate.
    destruct s as [|c s]; [contradiction|]. simpl in E.
    inversion E as [[Ec Es]]. destruct s; discriminate.
Qed.

(** The [dir] field computed by the list walk. *)
Lemma dirname_join_segs (ps : list string) (k : string) :
  all_valid ps -> valid_name k = true ->
  (if path.dirname (path.join_segs (ps ++ [k])) =? "." then ""
   else path.dirname (path.join_segs (ps ++ [k]))) = path.join_segs ps.
Proof.
  intros Hps Hk. destruct ps as [|s r].
  - simpl app. change (path.join_segs [k]) with k.
    now rewrite dirname_name.
  - rewrite join_segs_app by discriminate.
    change (path.join_segs [k]) with k.
    inversion Hps as [|? ? Hs _]; subst.
    destruct (join_name_shape s r Hs) as [Ht Ha].
    rewrite dirname_append; [| now destruct (path.join_segs (s :: r)) | exact Ha | exact Hk].
    pose proof (join_segs_not_dot (s :: r)) as Hnd.
    apply String.eqb_neq in Hnd; [now rewrite Hnd | discriminate | exact Hps].
Qed.

Lemma basename_slash_free (p : string) : slash_free (path.basename p) = true.
Proof.
  unfold path.basename.
  assert (H : Forall (fun x => slash_free x = true)
                (filter truthy_string (path.split p))).
  { apply Forall_forall. intros x Hx. apply filter_In in Hx as [Hx _].
    pose proof (split_all_slash_free p) as Ha.
    rewrite Forall_forall in Ha. now apply Ha. }
  induction H as [|x l Hx Hl IH]; [reflexivity|].
  destruct l as [|y l']; [exact Hx | exact IH].
Qed.

Lemma basename_not_absolute (p : string) :
  path.isAbsolute (path.basename p) = false.
Proof. apply valid_name_not_absolute, basename_slash_free. Qed.

(** * The file-system tree *)

Lemma node_induction (P : node -> Prop) :
  (forall c m, P (File c m)) ->
  (forall t, P (Symlink t)) ->
  (forall es, Forall (fun e => P (snd e)) es -> P (Dir es)) ->
  forall n, P n.
Proof.
  intros HF HS HD. fix IH 1. intros [c m | es | t]; [apply HF | | apply HS].
  apply HD. induction es as [|e es IHes]; constructor; [apply IH | exact IHes].
Qed.

Lemma depth_Dir (es : list (string * node)) :
  depth (Dir es) = S (depth_entries es).
Proof. reflexivity. Qed.

Lemma wf_Dir (es : list (string * node)) :
  wf_node (Dir es) =
  distinct (map fst es) && forallb valid_name (map fst es) && wf_entries es.
Proof. reflexivity. Qed.

Lemma documents_Dir (prefix : list string) (es : list (string * node)) :
  documents prefix (Dir es) = flat_map (entry_documents prefix) es.
Proof. reflexivity. Qed.

Lemma doc_paths_Dir (es : list (string * node)) :
  doc_paths (Dir es) = flat_map entry_doc_paths es.
Proof. reflexivity. Qed.

Lemma assoc_In {A} (k : string) (l : list (string * A)) (v : A) :
  assoc k l = Some v -> In (k, v) l.
Proof.
  induction l as [|[k' v'] l IH]; simpl; [discriminate|].
  destruct (k' =? k) eqn:E.
  - apply String.eqb_eq in E. intros [= ->]. subst. now left.
  - intros H. right. now apply IH.
Qed.

Lemma existsb_eqb_In (k : string) (l : list string) :
  existsb (String.eqb k) l = true <-> In k l.
Proof.
  rewrite existsb_exists. split.
  - intros (x & Hx & E). apply String.eqb_eq in E. now subst.
  - intros H. exists k. split; [exact H | apply String.eqb_refl].
Qed.

Lemma distinct_NoDup (l : list string) : distinct l = true <-> NoDup l.
Proof.
  induction l as [|x l IH]; simpl.
  - split; [constructor | reflexivity].
  - rewrite andb_true_iff, negb_true_iff, IH. split.
    + intros [H1 H2]. constructor; [|exact H2].
      intros Hin. apply existsb_eqb_In in Hin. congruence.
    + intros H. inversion H as [|? ? Hn Hd]; subst. split; [|exact Hd].
      destruct (existsb (String.eqb x) l) eqn:E; [|reflexivity].
      apply existsb_eqb_In in E. contradiction.
Qed.

Lemma In_assoc {A} (k : string) (l : list (string * A)) (v : A) :
  NoDup (map fst l) -> In (k, v) l -> assoc k l = Some v.
Proof.
  induction l as [|[k' v'] l IH]; simpl; [contradiction|].
  intros Hnd [H | H]; inversion Hnd as [|? ? Hn Hd]; subst.
  - inversion H; subst. now rewrite String.eqb_refl.
  - destruct (k' =? k) eqn:E; [|now apply IH].
    apply String.eqb_eq in E. subst k'. exfalso. apply Hn.
    now apply (in_map fst) in H.
Qed.

Lemma assoc_set_entry_same (k : string) (n : node) (es : list (string * node)) :
  assoc k (set_entry k n es) = Some n.
Proof.
  induction es as [|[k' n'] es IH]; simpl.
  - now rewrite String.eqb_refl.
  - destruct (k' =? k) eqn:E; simpl; [now rewrite String.eqb_refl|].
    now rewrite E.
Qed.

Lemma assoc_set_entry_other (k k' : string) (n : node)
  (es : list (string * node)) :
  k <> k' -> assoc k' (set_entry k n es) = assoc k' es.
Proof.
  intros Hne. induction es as [|[k0 n0] es IH]; simpl.
  - apply String.eqb_neq in Hne. now rewrite Hne.
  - destruct (k0 =? k) eqn:E; simpl.
    + apply String.eqb_eq in E. subst k0.
      apply String.eqb_neq in Hne. now rewrite Hne.
    + destruct (k0 =? k'); [reflexivity | exact IH].
Qed.

Lemma set_entry_same (k : string) (n : node) (es : list (string * node)) :
  assoc k es = Some n -> set_entry k n es = es.
Proof.
  induction es as [|[k' n'] es IH]; simpl; [discriminate|].
  destruct (k' =? k) eqn:E.
  - apply String.eqb_eq in E. now intros [= ->]; subst.
  - intros H. now rewrite IH.
Qed.

Lemma map_fst_set_entry (k : string) (n : node) (es : list (string * node)) :
  map fst (set_entry k n es) =
  if has_key k es then map fst es else (map fst es ++ [k])%list.
Proof.
  unfold has_key. induction es as [|[k' n'] es IH]; simpl; [reflexivity|].
  destruct (k' =? k) eqn:E; simpl.
  - apply String.eqb_eq in E. now subst.
  - rewrite IH. now destruct (assoc k es).
Qed.

Lemma lookup_app (n : node) (a b : list string) :
  lookup n (a ++ b) =
  match lookup n a with
  | inr m => lookup m b
  | inl e => inl e
  end.
Proof.
  revert n. induction a as [|x a IH]; intros n; [reflexivity|].
  simpl. destruct n as [| es |]; try reflexivity.
  destruct (assoc x es); [apply IH | reflexivity].
Qed.

Lemma lookup_child (n : node) (ps : list string) (es : list (string * node))
  (k : string) (c : node) :
  lookup n ps = inr (Dir es) -> assoc k es = Some c ->
  lookup n (ps ++ [k]) = inr c.
Proof. intros H1 H2. rewrite lookup_app, H1. simpl. now rewrite H2. Qed.

Lemma mkdir_p_existing (n : node) (ps : list string)
  (es : list (string * node)) :
  lookup n ps = inr (Dir es) -> mkdir_p n ps = inr n.
Proof.
  revert n. induction ps as [|p ps IH]; intros n H.
  - simpl in H. inversion H; subst. reflexivity.
  - destruct n as [| es0 |]; simpl in H; try discriminate.
    simpl. destruct (assoc p es0) as [c|] eqn:E; [|discriminate].
    rewrite (IH _ H). now rewrite (set_entry_same p c es0).
Qed.

Lemma lookup_fresh_dirs (ps : list string) :
  lookup (fresh_dirs ps) ps = inr (Dir []).
Proof.
  induction ps as [|p ps IH]; [reflexivity|].
  simpl. now rewrite String.eqb_refl.
Qed.

Lemma mkdir_p_is_dir (n n' : node) (ps : list string) :
  mkdir_p n ps = inr n' -> exists es, lookup n' ps = inr (Dir es).
Proof.
  revert n n'. induction ps as [|p ps IH]; intros n n' H.
  - destruct n as [| es |]; simpl in H; try discriminate.
    inversion H; subst. now exists es.
  - destruct n as [| es |]; simpl in H; try discriminate.
    destruct (assoc p es) as [c|] eqn:E.
    + destruct (mkdir_p c ps) as [e | c'] eqn:Ec; [discriminate|].
      inversion H; subst. simpl. rewrite assoc_set_entry_same. eauto.
    + inversion H; subst. simpl. rewrite assoc_set_entry_same.
      exists []. apply lookup_fresh_dirs.
Qed.

(** [mkdir -p] below an existing directory works inside that directory. *)
Lemma mkdir_p_below (n n' r : node) (B q : list string) :
  lookup n B = inr r -> mkdir_p n (B ++ q) = inr n' ->
  exists r', mkdir_p r q = inr r' /\ lookup n' B = inr r'.
Proof.
  revert n n'. induction B as [|b B IH]; intros n n' Hl Hm.
  - simpl in *. inversion Hl; subst. eauto.
  - destruct n as [| es |]; simpl in Hl; try discriminate.
    destruct (assoc b es) as [c|] eqn:E; [|discriminate].
    simpl in Hm. rewrite E in Hm.
    destruct (mkdir_p c (B ++ q)) as [e | c'] eqn:Ec; [discriminate|].
    inversion Hm; subst. destruct (IH _ _ Hl Ec) as (r' & H1 & H2).
    exists r'. split; [exact H1|]. simpl. now rewrite assoc_set_entry_same.
Qed.

Lemma write_at_below (n n' r : node) (B q : list string) (d : string) (t : Z) :
  q <> [] -> lookup n B = inr r -> write_at n (B ++ q) d t = inr n' ->
  exists r', write_at r q d t = inr r' /\ lookup n' B = inr r'.
Proof.
  intros Hq. revert n n'. induction B as [|b B IH]; intros n n' Hl Hw.
  - simpl in *. inversion Hl; subst. eauto.
  - destruct n as [| es |]; simpl in Hl; try discriminate.
    destruct (assoc b es) as [c|] eqn:E; [|discriminate].
    change ((b :: B) ++ q)%list with (b :: (B ++ q))%list in Hw.
    simpl in Hw. destruct (B ++ q)%list as [|x l] eqn:EB.
    { apply app_eq_nil in EB as [_ ->]. contradiction. }
    rewrite E in Hw.
    destruct (write_at c (x :: l) d t) as [e | c'] eqn:Ec; [discriminate|].
    inversion Hw; subst. destruct (IH _ _ Hl Ec) as (r' & H1 & H2).
    exists r'. split; [exact H1|]. simpl. now rewrite assoc_set_entry_same.
Qed.

(** What was written is what is there. *)
Lemma lookup_write_at (n n' : node) (ps : list string) (d : string) (t : Z) :
  write_at n ps d t = inr n' -> lookup n' ps = inr (File d t).
Proof.
  revert n n'. induction ps as [|p ps IH]; intros n n' H.
  - simpl in H. destruct n; discriminate.
  - destruct n as [| es |]; simpl in H; try discriminate.
    destruct ps as [|p' ps'].
    + assert (E : n' = Dir (set_entry p (File d t) es)).
      { destruct (assoc p es) as [[| |]|]; congruence. }
      subst n'. simpl. now rewrite assoc_set_entry_same.
    + destruct (assoc p es) as [c|] eqn:E; [|discriminate].
      destruct (write_at c (p' :: ps') d t) as [e | c'] eqn:Ec; [discriminate|].
      inversion H; subst. change (lookup (Dir (set_entry p c' es)) (p :: p' :: ps'))
        with (match assoc p (set_entry p c' es) with
              | Some c0 => lookup c0 (p' :: ps') | None => inl ENOENT end).
      rewrite assoc_set_entry_same. now apply (IH c).
Qed.

(** Whether a write fails does not depend on what is written. *)
Lemma write_at_fails (ps : list string) (d d' : string) (t : Z) :
  forall (n : node) (e : errno),
    write_at n ps d t = inl e -> write_at n ps d' t = inl e.
Proof.
  induction ps as [|p ps IH]; intros n e H; [exact H|].
  destruct n as [c m | es | tg]; try exact H.
  destruct ps as [|p' ps'].
  - simpl in *. destruct (assoc p es) as [[c m | es' | tg]|];
      try discriminate; exact H.
  - change (write_at (Dir es) (p :: p' :: ps') ?x t)
      with (match assoc p es with
            | Some c =>
                match write_at c (p' :: ps') x t with
                | inr c' => inr (Dir (set_entry p c' es))
                | inl e => inl e
                end
            | None => inl ENOENT
            end) in *.
    destruct (assoc p es) as [c|]; [|exact H].
    destruct (write_at c (p' :: ps') d t) as [e0|c'] eqn:E; [|discriminate].
    now rewrite (IH c e0 E).
Qed.

(** * Running computations *)

Lemma set_fs_id (w : world) : set_fs (w_fs w) w = w.
Proof. now destruct w. Qed.

Lemma add_logs_nil (w : world) : add_logs [] w = w.
Proof. destruct w. unfold add_logs. simpl. now rewrite app_nil_r. Qed.

Lemma add_logs_add_logs (a b : list io_op) (w : world) :
  add_logs b (add_logs a w) = add_logs (a ++ b) w.
Proof. unfold add_logs. simpl. now rewrite app_assoc. Qed.

Lemma add_log_is_add_logs (op : io_op) (w : world) :
  add_log op w = add_logs [op] w.
Proof. reflexivity. Qed.

Lemma bind_val {A B} (m : M A) (k : A -> M B) (w w' : world) (a : A) :
  m w = (Val a, w') -> bind m k w = k a w'.
Proof. intros H. unfold bind. now rewrite H. Qed.


Section Calls.

Variable cwd : string.

Lemma run_readdir (dir : string) (w : world) (es : list (string * node)) :
  lookup (w_fs w) (fs_segs cwd dir) = inr (Dir es) ->
  fsp_readdir cwd dir w = (Val (dirents es), add_logs [IoReaddir dir] w).
Proof.
  intros H. unfold fsp_readdir, fs_call. rewrite H.
  now rewrite add_log_is_add_logs, <- (set_fs_id (add_logs _ w)) at 1.
Qed.

Lemma run_stat (p : string) (w : world) (c : string) (m : Z) :
  lookup (w_fs w) (fs_segs cwd p) = inr (File c m) ->
  fsp_stat cwd p w =
  (Val {| st_size := String.length c; st_mtimeMs := m |},
   add_logs [IoStat p] w).
Proof.
  intros H. unfold fsp_stat, fs_call. rewrite H. simpl.
  now rewrite add_log_is_add_logs, <- (set_fs_id (add_logs _ w)) at 1.
Qed.

Lemma run_readFile (p : string) (w : world) (c : string) (m : Z) :
  lookup (w_fs w) (fs_segs cwd p) = inr (File c m) ->
  fsp_readFile cwd p w
  = (Val (Buffer_toString c), add_logs [IoReadFile p] w).
Proof.
  intros H. unfold fsp_readFile, fs_call. rewrite H.
  now rewrite add_log_is_add_logs, <- (set_fs_id (add_logs _ w)) at 1.
Qed.

Lemma run_readFile_fail (p : string) (w : world) :
  (forall c m, lookup (w_fs w) (fs_segs cwd p) <> inr (File c m)) ->
  exists e, fsp_readFile cwd p w = (Throw (IOError e), add_logs [IoReadFile p] w).
Proof.
  intros H. unfold fsp_readFile, fs_call.
  destruct (lookup (w_fs w) (fs_segs cwd p)) as [e | [c m | es | t]] eqn:E;
    try (eexists; reflexivity).
  exfalso. now apply (H c m).
Qed.

Lemma listDrawnixFiles_S (fuel : nat) (dir base : string) :
  listDrawnixFiles cwd (S fuel) dir base =
  (entries <- fsp_readdir cwd dir ;;
   list_loop cwd (fun abs => listDrawnixFiles cwd fuel abs base) dir base
     entries []).
Proof. reflexivity. Qed.

End Calls.

(** * The list walk *)

Lemma wf_Dir_entries (es : list (string * node)) :
  wf_node (Dir es) = true <->
  NoDup (map fst es) /\
  Forall (fun e => valid_name (fst e) = true /\ wf_node (snd e) = true) es.
Proof.
  rewrite wf_Dir, !andb_true_iff, distinct_NoDup.
  unfold wf_entries. rewrite !forallb_forall, Forall_forall. split.
  - intros [[H1 H2] H3]. split; [exact H1|]. intros e He. split.
    + apply H2. now apply in_map.
    + now apply H3.
  - intros [H1 H2]. repeat split; [exact H1 | | intros e He; now apply H2].
    intros k Hk. apply in_map_iff in Hk as (e & <- & He). now apply H2.
Qed.

Lemma depth_entry_le (es : list (string * node)) (e : string * node) :
  In e es -> depth (snd e) <= depth_entries es.
Proof.
  induction es as [|x es IH]; simpl; [contradiction|].
  intros [-> | H]; [lia|]. specialize (IH H). lia.
Qed.

Lemma Forall_walk_ops_app (cwd : string) (fs : node) (a b : list io_op) :
  Forall (walk_op_ok cwd fs) a -> Forall (walk_op_ok cwd fs) b ->
  Forall (walk_op_ok cwd fs) (a ++ b).
Proof. intros. now apply Forall_app. Qed.

Section Walk.

Variable cwd : string.
Hypothesis cwd_absolute : path.isAbsolute cwd = true.
Variable base : string.

(** On a well-formed directory the walk returns, with fuel for its depth,
    exactly the documents of the tree, and calls [fs] only on directories
    and regular files. *)
Lemma list_walk (fuel : nat) :
  forall (dir : string) (ps : list string) (es : list (string * node))
         (w : world),
    depth (Dir es) <= fuel ->
    wf_node (Dir es) = true ->
    fs_segs cwd dir = (fs_segs cwd base ++ ps)%list ->
    lookup (w_fs w) (fs_segs cwd dir) = inr (Dir es) ->
    exists ops,
      listDrawnixFiles cwd fuel dir base w =
        (Val (documents ps (Dir es)), add_logs ops w) /\
      Forall (walk_op_ok cwd (w_fs w)) ops.
Proof.
  induction fuel as [|f IHf]; intros dir ps es w Hd Hwf Hsegs Hlook.
  - rewrite depth_Dir in Hd. lia.
  - rewrite listDrawnixFiles_S.
    rewrite (bind_val _ _ _ _ _ (run_readdir cwd dir w es Hlook)).
    rewrite documents_Dir.
    apply wf_Dir_entries in Hwf as [Hnd Hall].
    assert (Hvps : all_valid ps).
    { pose proof (resolve_segs_valid cwd cwd_absolute [dir]) as Hv.
      fold (fs_segs cwd dir) in Hv. rewrite Hsegs in Hv.
      now apply all_valid_app in Hv. }
    (* the loop, over any tail of the entries *)
    assert (Hloop : forall l results w1,
      (forall e, In e l -> In e es) ->
      w_fs w1 = w_fs w ->
      exists ops,
        list_loop cwd (fun abs => listDrawnixFiles cwd f abs base) dir base
          (dirents l) results w1 =
          (Val (results ++ flat_map (entry_documents ps) l)%list,
           add_logs ops w1) /\
        Forall (walk_op_ok cwd (w_fs w)) ops).
    { induction l as [|[k c] l IHl]; intros results w1 Hin Hfs.
      - exists []. simpl. rewrite app_nil_r, add_logs_nil.
        split; [reflexivity | constructor].
      - assert (Hkc : In (k, c) es) by (apply Hin; now left).
        assert (Hl : forall e, In e l -> In e es)
          by (intros e He; apply Hin; now right).
        rewrite Forall_forall in Hall.
        destruct (Hall _ Hkc) as [Hk Hwc]. simpl in Hk, Hwc.
        pose proof (In_assoc k es c Hnd Hkc) as Hassoc.
        assert (Habs : fs_segs cwd (path.join dir k) =
                       (fs_segs cwd base ++ (ps ++ [k]))%list).
        { rewrite fs_segs_join, Hsegs by assumption. now rewrite app_assoc. }
        assert (Hchild : lookup (w_fs w1) (fs_segs cwd (path.join dir k))
                         = inr c).
        { rewrite Hfs, fs_segs_join by assumption.
          now apply (lookup_child _ _ es). }
        change (dirents ((k, c) :: l))
          with ({| d_name := k; d_kind := kind_of c |} :: dirents l).
        cbn [list_loop d_name flat_map].
        destruct c as [ct m | es' | t].
        + (* a regular file *)
          change (isDirectory {| d_name := k; d_kind := kind_of (File ct m) |})
            with false.
          change (isFile {| d_name := k; d_kind := kind_of (File ct m) |})
            with true.
          cbv iota. rewrite andb_true_l.
          unfold entry_documents. cbn [fst snd].
          destruct (endsWith k ".drawnix") eqn:Eext.
          * rewrite (bind_val _ _ _ _ _ (run_stat cwd _ w1 ct m Hchild)).
            cbn [st_size st_mtimeMs].
            rewrite (relative_below cwd cwd_absolute base _ _ Habs).
            rewrite dirname_join_segs by assumption.
            destruct (IHl (results ++
               [{| fi_name := k;
                   fi_relativePath := path.join_segs (ps ++ [k]);
                   fi_dir := path.join_segs ps;
                   fi_size := String.length ct;
                   fi_mtime := m |}])%list
               (add_logs [IoStat (path.join dir k)] w1) Hl Hfs)
              as (ops & Hrun & Hok).
            exists ([IoStat (path.join dir k)] ++ ops)%list.
            rewrite Hrun, add_logs_add_logs, <- app_assoc. split; [reflexivity|].
            apply Forall_walk_ops_app; [|exact Hok].
            constructor; [|constructor]. simpl. rewrite <- Hfs. eauto.
          * apply (IHl results w1 Hl Hfs).
        + (* a directory: recurse *)
          change (isDirectory {| d_name := k; d_kind := kind_of (Dir es') |})
            with true.
          cbv iota. unfold entry_documents. cbn [fst snd].
          assert (Hdc : depth (Dir es') <= f).
          { pose proof (depth_entry_le es (k, Dir es') Hkc) as Hle.
            rewrite depth_Dir in Hd. simpl snd in Hle. lia. }
          destruct (IHf (path.join dir k) (ps ++ [k])%list es' w1
                      Hdc Hwc Habs Hchild) as (ops1 & Hrun1 & Hok1).
          rewrite (bind_val _ _ _ _ _ Hrun1).
          destruct (IHl (results ++ documents (ps ++ [k]) (Dir es'))%list
                      (add_logs ops1 w1) Hl Hfs) as (ops2 & Hrun2 & Hok2).
          exists (ops1 ++ ops2)%list.
          rewrite Hrun2, add_logs_add_logs, <- app_assoc. split; [reflexivity|].
          apply Forall_walk_ops_app; [|exact Hok2]. now rewrite <- Hfs.
        + (* a symbolic link: neither test holds *)
          change (isDirectory {| d_name := k; d_kind := kind_of (Symlink t) |})
            with false.
          change (isFile {| d_name := k; d_kind := kind_of (Symlink t) |})
            with false.
          cbv iota. rewrite andb_false_l. unfold entry_documents.
          cbn [fst snd app]. apply (IHl results w1 Hl Hfs). }
    destruct (Hloop es [] (add_logs [IoReaddir dir] w) (fun e H => H) eq_refl)
      as (ops & Hrun & Hok).
    exists ([IoReaddir dir] ++ ops)%list.
    rewrite Hrun, add_logs_add_logs. split; [reflexivity|].
    apply Forall_walk_ops_app; [|exact Hok].
    constructor; [|constructor]. simpl. eauto.
Qed.

End Walk.

(** * The routes, case by case *)

Lemma or_self_string (a : string) : (if truthy_string a then a else "") = a.
Proof. now destruct a. Qed.

Lemma set_fs_add_log (w : world) (fs : node) (op : io_op) :
  set_fs fs (add_log op w) = after w fs [op] (w_res w).
Proof. reflexivity. Qed.

Lemma after_step (w : world) (fs fs' : node) (ops : list io_op) (op : io_op)
  (r : option response) :
  set_fs fs' (add_log op (after w fs ops r)) = after w fs' (ops ++ [op]) r.
Proof. unfold after, set_fs, add_log. simpl. now rewrite <- app_assoc. Qed.

Lemma after_log (w : world) (fs : node) (ops : list io_op) (op : io_op)
  (r : option response) :
  add_log op (after w fs ops r) = after w fs (ops ++ [op]) r.
Proof. unfold after, add_log. simpl. now rewrite <- app_assoc. Qed.

Lemma after_res (w : world) (fs : node) (ops : list io_op)
  (r : option response) (r' : response) :
  set_res r' (after w fs ops r) = after w fs ops (Some r').
Proof. reflexivity. Qed.

Lemma add_log_after (w : world) (op : io_op) :
  add_log op w = after w (w_fs w) [op] (w_res w).
Proof. reflexivity. Qed.

Lemma bind_ext {A B} (m1 m2 : M A) (k1 k2 : A -> M B) (w : world) :
  (forall w0, m1 w0 = m2 w0) -> (forall a w0, k1 a w0 = k2 a w0) ->
  bind m1 k1 w = bind m2 k2 w.
Proof.
  intros Hm Hk. unfold bind. rewrite Hm.
  destruct (m2 w) as [[a | e |] w']; [apply Hk | reflexivity | reflexivity].
Qed.

Section RouteCases.

Variable cwd : string.
Variable BASE_DIR : string.
Variable REQ_TOKEN : string.

Lemma authCheck_run (authorization : option string) (w : world) :
  Unified.authCheck REQ_TOKEN authorization w =
  if auth_ok REQ_TOKEN authorization then (Val true, w)
  else (Val false, set_res (reply 401 "Unauthorized") w).
Proof.
  unfold Unified.authCheck, auth_ok.
  destruct (truthy_string REQ_TOKEN); simpl negb; cbv iota; [|reflexivity].
  rewrite orb_false_l.
  assert (E : match authorization with
              | Some a => if truthy_string a then a else ""
              | None => ""
              end = match authorization with Some a => a | None => "" end).
  { destruct authorization; [apply or_self_string | reflexivity]. }
  rewrite E. unfold bind, ret, send.
  now destruct (_ =? _).
Qed.

Lemma mock_authorized_run (authorization : option string) (w : world) :
  Mock.authorized REQ_TOKEN authorization w =
  Unified.authCheck REQ_TOKEN authorization w.
Proof.
  rewrite authCheck_run. unfold Mock.authorized, auth_ok.
  destruct (truthy_string REQ_TOKEN); simpl negb; [|reflexivity].
  rewrite orb_false_l.
  assert (E : match authorization with
              | Some a => if truthy_string a then a else ""
              | None => ""
              end = match authorization with Some a => a | None => "" end).
  { destruct authorization; [apply or_self_string | reflexivity]. }
  rewrite E. unfold bind, ret, send.
  now destruct (_ =? _).
Qed.

Lemma run_mkdir (dir : string) (w : world) :
  fsp_mkdir_recursive cwd dir w =
  match mkdir_p (w_fs w) (fs_segs cwd dir) with
  | inr fs' => (Val tt, after w fs' [IoMkdir dir] (w_res w))
  | inl e => (Throw (IOError e), after w (w_fs w) [IoMkdir dir] (w_res w))
  end.
Proof.
  unfold fsp_mkdir_recursive, fs_call.
  now destruct (mkdir_p (w_fs w) (fs_segs cwd dir)).
Qed.

Lemma run_writeFile (p data : string) (w : world) :
  fsp_writeFile cwd p data w =
  match write_at (w_fs w) (fs_segs cwd p) (Buffer_from data) (w_now w) with
  | inr fs' => (Val tt, after w fs' [IoWriteFile p data] (w_res w))
  | inl e =>
      (Throw (IOError e), after w (w_fs w) [IoWriteFile p data] (w_res w))
  end.
Proof.
  unfold fsp_writeFile, fs_call.
  now destruct (write_at (w_fs w) (fs_segs cwd p) (Buffer_from data) (w_now w)).
Qed.

(** What is left of [POST /upload] once [dir] is a string. *)
Lemma upload_tail_cases (authorization : option string) (req_body : value)
  (w : world) (c : ascii) (f dir_s : string) :
  auth_ok REQ_TOKEN authorization = true ->
  upload_field req_body "filename" = JStr (String c f) ->
  dir_string req_body = Some dir_s ->
  upload_outcome cwd BASE_DIR REQ_TOKEN authorization req_body w
    ((if negb (isPathInside cwd BASE_DIR
                 (path.resolve cwd
                    [path.resolve cwd [BASE_DIR; dir_s];
                     path.basename (String c f)]))
      then send 400 (BError "Invalid path")
      else
        try_catch
          (ensureDir cwd (path.resolve cwd [BASE_DIR; dir_s]);;
           data <- js_String (upload_field req_body "content");;
           fsp_writeFile cwd
             (path.resolve cwd
                [path.resolve cwd [BASE_DIR; dir_s];
                 path.basename (String c f)])
             data;;
           send 200
             (BUpload
                (path.resolve cwd
                   [path.resolve cwd [BASE_DIR; dir_s];
                    path.basename (String c f)])
                (byteLength data)))
          (fun _ : exn => send 500 (BError "Write failed"))) w).
Proof.
  intros Eauth Ef Ed.
  fold (target_dir cwd BASE_DIR dir_s).
  fold (target_path cwd BASE_DIR (String c f) dir_s).
  destruct (isPathInside cwd BASE_DIR
              (target_path cwd BASE_DIR (String c f) dir_s)) eqn:Ein; step.
  2:{ now apply (UpInvalidPath _ _ _ _ _ _ c f dir_s). }
  unfold try_catch, ensureDir. unfold bind at 1. rewrite run_mkdir.
  destruct (mkdir_p (w_fs w) (fs_segs cwd (target_dir cwd BASE_DIR dir_s)))
    as [e | fs1] eqn:Emk; step.
  { unfold send. rewrite after_res.
    now apply (UpMkdirFails _ _ _ _ _ _ c f dir_s e). }
  unfold bind at 1. unfold js_String.
  destruct (ToString (upload_field req_body "content")) as [data|] eqn:Ec.
  2:{ unfold throw. step. unfold send. rewrite after_res.
      now apply (UpContentThrows _ _ _ _ _ _ c f dir_s fs1). }
  unfold ret at 1. step. unfold bind at 1. rewrite run_writeFile.
  change (w_fs (after w fs1 [IoMkdir (target_dir cwd BASE_DIR dir_s)] (w_res w)))
    with fs1.
  change (w_now (after w fs1 [IoMkdir (target_dir cwd BASE_DIR dir_s)] (w_res w)))
    with (w_now w).
  destruct (write_at fs1
              (fs_segs cwd (target_path cwd BASE_DIR (String c f) dir_s))
              (Buffer_from data) (w_now w)) as [e | fs2] eqn:Ew; step.
  - unfold send.
    assert (E : forall r op,
      set_res r (after (after w fs1 [IoMkdir (target_dir cwd BASE_DIR dir_s)]
                          (w_res w)) fs1 [op] (w_res w))
      = after w fs1 [IoMkdir (target_dir cwd BASE_DIR dir_s); op] (Some r)).
    { intros r op. unfold after, set_res. simpl. now rewrite <- app_assoc. }
    rewrite E. now apply (UpWriteFails _ _ _ _ _ _ c f dir_s fs1 data e).
  - unfold send.
    assert (E : forall r op,
      set_res r (after (after w fs1 [IoMkdir (target_dir cwd BASE_DIR dir_s)]
                          (w_res w)) fs2 [op] (w_res w))
      = after w fs2 [IoMkdir (target_dir cwd BASE_DIR dir_s); op] (Some r)).
    { intros r op. unfold after, set_res. simpl. now rewrite <- app_assoc. }
    rewrite E. now apply (UpStored _ _ _ _ _ _ c f dir_s fs1 data fs2).
Qed.

(** [POST /upload] goes one of the eight ways of [upload_outcome]. *)
Lemma upload_cases (authorization : option string) (req_body : value)
  (w : world) :
  upload_outcome cwd BASE_DIR REQ_TOKEN authorization req_body w
    (Unified.upload cwd BASE_DIR REQ_TOKEN authorization req_body w).
Proof.
  unfold Unified.upload. unfold bind at 1. rewrite authCheck_run.
  destruct (auth_ok REQ_TOKEN authorization) eqn:Eauth; step;
    [| now apply UpUnauthorized].
  fold (upload_field req_body "filename").
  fold (upload_field req_body "content").
  fold (upload_field req_body "dir").
  destruct (upload_field req_body "filename") as [| | | | [|c f] | |] eqn:Ef;
    try (unfold send; apply UpNoFilename;
         [assumption | intros; rewrite Ef; discriminate]).
  pose proof (eq_refl (dir_string req_body)) as Ed.
  unfold dir_string at 2 in Ed.
  unfold bind at 1.
  destruct (truthy (upload_field req_body "dir")) eqn:Etd.
  - unfold js_String at 1.
    destruct (ToString (upload_field req_body "dir")) as [dir_s|] eqn:Es.
    + unfold ret at 1. step. now apply upload_tail_cases.
    + unfold throw. step. now apply (UpDirThrows _ _ _ _ _ _ c f).
  - unfold ret at 1. step. now apply upload_tail_cases.
Qed.

(** [GET /file] goes one of the five ways of [file_outcome]. *)
Lemma file_cases (authorization query_path : option string) (w : world) :
  file_outcome cwd BASE_DIR REQ_TOKEN authorization query_path w
    (Unified.file cwd BASE_DIR REQ_TOKEN authorization query_path w).
Proof.
  unfold Unified.file. unfold bind at 1. rewrite authCheck_run.
  destruct (auth_ok REQ_TOKEN authorization) eqn:Eauth; step;
    [| now apply RdUnauthorized].
  fold (read_rel query_path). fold (read_abs cwd BASE_DIR query_path).
  destruct (read_rel query_path) as [|c0 r0] eqn:Er.
  { simpl truthy_string. step. unfold send. now apply RdNoPath. }
  rewrite <- Er. assert (Hne : read_rel query_path <> "")
    by (rewrite Er; discriminate).
  replace (truthy_string (read_rel query_path)) with true
    by (rewrite Er; reflexivity).
  step.
  destruct (isPathInside cwd BASE_DIR (read_abs cwd BASE_DIR query_path))
    eqn:Ein; step.
  2:{ unfold send. now apply RdInvalidPath. }
  unfold try_catch. unfold bind at 1.
  destruct (lookup (w_fs w) (fs_segs cwd (read_abs cwd BASE_DIR query_path)))
    as [e | [ct m | es | t]] eqn:El.
  2:{ rewrite (run_readFile cwd _ w ct m El). step. unfold send.
      change (set_res ?r (add_logs ?ops w)) with (after w (w_fs w) ops (Some r)).
      now apply (RdFound _ _ _ _ _ _ ct m). }
  all: destruct (run_readFile_fail cwd (read_abs cwd BASE_DIR query_path) w)
         as (e' & ->); [intros c m; rewrite El; discriminate|];
       step; unfold send;
       change (set_res ?r (add_logs ?ops w))
         with (after w (w_fs w) ops (Some r));
       apply RdFails; try assumption; intros c m; rewrite El; discriminate.
Qed.

Lemma mock_field (body : value) (k : string) :
  or_empty (if truthy body then get_prop body k else body) =
  upload_field body k.
Proof.
  unfold upload_field. destruct (truthy body) eqn:E; [reflexivity|].
  unfold or_empty. now rewrite E.
Qed.

(** The mock server's handlers are the unified server's. *)
Lemma mock_handleUpload (authorization : option string) (body : value)
  (w : world) :
  Mock.handleUpload cwd BASE_DIR REQ_TOKEN authorization (Some body) w =
  Unified.upload cwd BASE_DIR REQ_TOKEN authorization body w.
Proof.
  unfold Mock.handleUpload, Unified.upload.
  apply bind_ext; [apply mock_authorized_run|].
  intros ok w0. destruct ok; step; [|reflexivity].
  rewrite !mock_field. reflexivity.
Qed.

Lemma mock_handleListFiles (fuel : nat) (authorization : option string)
  (w : world) :
  Mock.handleListFiles cwd BASE_DIR REQ_TOKEN fuel authorization w =
  Unified.files cwd BASE_DIR REQ_TOKEN fuel authorization w.
Proof.
  unfold Mock.handleListFiles, Unified.files.
  apply bind_ext; [apply mock_authorized_run | reflexivity].
Qed.

Lemma mock_handleReadFile (authorization q_path : option string) (w : world) :
  Mock.handleReadFile cwd BASE_DIR REQ_TOKEN authorization q_path w =
  Unified.file cwd BASE_DIR REQ_TOKEN authorization q_path w.
Proof.
  unfold Mock.handleReadFile, Unified.file.
  apply bind_ext; [apply mock_authorized_run | reflexivity].
Qed.

End RouteCases.

(** * The documents of a tree *)

Lemma lookup_leaf (n : node) (p : string) (ps : list string) :
  (forall es, n <> Dir es) -> exists e, lookup n (p :: ps) = inl e.
Proof.
  intros H. destruct n as [c m | es | t]; simpl; eauto.
  exfalso. now apply (H es).
Qed.

Lemma app_cons_not_nil {A} (l : list A) (a : A) : (l ++ [a])%list <> [].
Proof. now destruct l. Qed.

Lemma entry_doc_paths_head (e : string * node) (x : list string) :
  In x (entry_doc_paths e) -> exists tl, x = fst e :: tl.
Proof.
  destruct e as [k [ct m | es | t]]; unfold entry_doc_paths; cbn [fst snd].
  - destruct (endsWith k ".drawnix"); [|contradiction].
    intros [<- | []]. now exists [].
  - intros H. apply in_map_iff in H as (tl & <- & _). now exists tl.
  - contradiction.
Qed.

(** The document paths of a well-formed tree are the paths at which
    [lookup] finds a regular file named [*.drawnix]. *)
Lemma doc_paths_spec (n : node) :
  wf_node n = true ->
  forall q,
    In q (doc_paths n) <->
    exists q0 k ct m,
      q = (q0 ++ [k])%list /\ lookup n q = inr (File ct m) /\
      endsWith k ".drawnix" = true.
Proof.
  induction n as [c m | t | es IH] using node_induction; intros Hwf q.
  - split; [contradiction|]. intros (q0 & k & ct & m' & -> & Hl & _).
    destruct q0; simpl in Hl; discriminate.
  - split; [contradiction|]. intros (q0 & k & ct & m' & -> & Hl & _).
    destruct q0; simpl in Hl; discriminate.
  - apply wf_Dir_entries in Hwf as [Hnd Hall].
    rewrite Forall_forall in IH, Hall.
    rewrite doc_paths_Dir, in_flat_map. split.
    + intros ([k0 c] & Hin & Hq).
      pose proof (In_assoc k0 es c Hnd Hin) as Hassoc.
      destruct c as [ct m | es' | t]; unfold entry_doc_paths in Hq;
        cbn [fst snd] in Hq.
      * destruct (endsWith k0 ".drawnix") eqn:E; [|contradiction].
        destruct Hq as [<- | []]. exists [], k0, ct, m.
        repeat split; try assumption. simpl. now rewrite Hassoc.
      * apply in_map_iff in Hq as (q' & <- & Hq').
        destruct (Hall _ Hin) as [_ Hwc]. cbn [snd] in Hwc.
        apply (IH _ Hin Hwc) in Hq' as (q0 & k & ct & m & -> & Hl & He).
        exists (k0 :: q0), k, ct, m. repeat split; try assumption.
        simpl. now rewrite Hassoc.
      * contradiction.
    + intros (q0 & k & ct & m & -> & Hl & He).
      destruct q0 as [|k0 q0]; simpl in Hl.
      * destruct (assoc k es) as [c|] eqn:Ea; [|discriminate].
        inversion Hl; subst c. apply assoc_In in Ea.
        exists (k, File ct m). split; [assumption|].
        unfold entry_doc_paths. cbn [fst snd]. rewrite He. now left.
      * destruct (assoc k0 es) as [c|] eqn:Ea; [|discriminate].
        apply assoc_In in Ea. exists (k0, c). split; [assumption|].
        destruct (Hall _ Ea) as [_ Hwc]. cbn [snd] in Hwc.
        destruct c as [ct' m' | es' | t].
        -- destruct q0; simpl in Hl; discriminate.
        -- unfold entry_doc_paths. cbn [fst snd].
           change ((k0 :: q0) ++ [k])%list with (k0 :: (q0 ++ [k]))%list.
           apply in_map.
           apply (IH _ Ea Hwc). now exists q0, k, ct, m.
        -- destruct q0; simpl in Hl; discriminate.
Qed.

Lemma doc_paths_valid (n : node) (q : list string) :
  wf_node n = true -> In q (doc_paths n) -> q <> [] /\ all_valid q.
Proof.
  revert q. induction n as [c m | t | es IH] using node_induction;
    intros q Hwf Hq; try contradiction.
  apply wf_Dir_entries in Hwf as [Hnd Hall].
  rewrite Forall_forall in IH, Hall.
  rewrite doc_paths_Dir in Hq. apply in_flat_map in Hq as ([k0 c] & Hin & Hq).
  destruct (Hall _ Hin) as [Hk Hwc]. cbn [fst snd] in Hk, Hwc.
  destruct c as [ct m | es' | t]; unfold entry_doc_paths in Hq;
    cbn [fst snd] in Hq.
  - destruct (endsWith k0 ".drawnix"); [|contradiction].
    destruct Hq as [<- | []]. split; [discriminate | now repeat constructor].
  - apply in_map_iff in Hq as (q' & <- & Hq').
    destruct (IH _ Hin q' Hwc Hq') as [_ Hv].
    split; [discriminate | now constructor].
  - contradiction.
Qed.

Lemma doc_paths_NoDup (n : node) :
  wf_node n = true -> NoDup (doc_paths n).
Proof.
  induction n as [c m | t | es IH] using node_induction; intros Hwf;
    try constructor.
  apply wf_Dir_entries in Hwf as [Hnd Hall].
  rewrite doc_paths_Dir.
  induction es as [|[k0 c] es IHes]; [constructor|].
  inversion IH as [|? ? Hc Hes]; subst.
  inversion Hall as [|? ? [Hk Hwc] Hall']; subst.
  inversion Hnd as [|? ? Hnotin Hnd']; subst.
  cbn [flat_map]. apply NoDup_app.
  - destruct c as [ct m | es' | t]; unfold entry_doc_paths; cbn [fst snd].
    + destruct (endsWith k0 ".drawnix"); repeat constructor. intros [].
    + apply NoDup_map_NoDup_ForallPairs; [|now apply Hc].
      intros a b _ _ E. now inversion E.
    + constructor.
  - now apply IHes.
  - intros x Hx Hx'. apply entry_doc_paths_head in Hx as [tl ->].
    apply in_flat_map in Hx' as (e' & He' & Hx').
    apply entry_doc_paths_head in Hx' as [tl' E]. inversion E; subst.
    apply Hnotin. cbn [fst]. now apply in_map.
Qed.

(** The relative paths the listing reports are the document paths,
    joined. *)
Lemma documents_paths (n : node) :
  forall prefix,
    map fi_relativePath (documents prefix n) =
    map (fun q => path.join_segs (prefix ++ q)) (doc_paths n).
Proof.
  induction n as [c m | t | es IH] using node_induction; intros prefix;
    try reflexivity.
  rewrite documents_Dir, doc_paths_Dir.
  induction es as [|[k0 c] es IHes]; [reflexivity|].
  inversion IH as [|? ? Hc Hes]; subst.
  cbn [flat_map]. rewrite !map_app, (IHes Hes). f_equal.
  destruct c as [ct m | es' | t];
    unfold entry_documents, entry_doc_paths; cbn [fst snd].
  - now destruct (endsWith k0 ".drawnix").
  - cbn [snd] in Hc. rewrite Hc, map_map. apply map_ext.
    intros q. now rewrite <- app_assoc.
  - reflexivity.
Qed.

(** What the listing reports, entry by entry. *)
Lemma documents_spec (n : node) :
  wf_node n = true ->
  forall prefix e,
    In e (documents prefix n) <->
    exists q k ct m,
      lookup n (q ++ [k]) = inr (File ct m) /\
      endsWith k ".drawnix" = true /\
      e = {| fi_name := k;
             fi_relativePath := path.join_segs (prefix ++ q ++ [k]);
             fi_dir := path.join_segs (prefix ++ q);
             fi_size := String.length ct;
             fi_mtime := m |}.
Proof.
  induction n as [c m | t | es IH] using node_induction; intros Hwf prefix e.
  - split; [contradiction|]. intros (q0 & k & ct & m' & Hl & _).
    destruct q0; simpl in Hl; discriminate.
  - split; [contradiction|]. intros (q0 & k & ct & m' & Hl & _).
    destruct q0; simpl in Hl; discriminate.
  - apply wf_Dir_entries in Hwf as [Hnd Hall].
    rewrite Forall_forall in IH, Hall.
    rewrite documents_Dir, in_flat_map. split.
    + intros ([k0 c] & Hin & Hq).
      pose proof (In_assoc k0 es c Hnd Hin) as Hassoc.
      destruct c as [ct m | es' | t]; unfold entry_documents in Hq;
        cbn [fst snd] in Hq.
      * destruct (endsWith k0 ".drawnix") eqn:E; [|contradiction].
        destruct Hq as [<- | []]. exists [], k0, ct, m.
        repeat split; try assumption.
        -- simpl. now rewrite Hassoc.
        -- simpl app. now rewrite app_nil_r.
      * destruct (Hall _ Hin) as [_ Hwc]. cbn [snd] in Hwc.
        apply (IH _ Hin Hwc) in Hq as (q0 & k & ct & m & Hl & He & ->).
        exists (k0 :: q0), k, ct, m. repeat split; try assumption.
        -- simpl. now rewrite Hassoc.
        -- f_equal; now rewrite <- !app_assoc.
      * contradiction.
    + intros (q0 & k & ct & m & Hl & He & ->).
      destruct q0 as [|k0 q0]; simpl in Hl.
      * destruct (assoc k es) as [c|] eqn:Ea; [|discriminate].
        inversion Hl; subst c. apply assoc_In in Ea.
        exists (k, File ct m). split; [assumption|].
        unfold entry_documents. cbn [fst snd]. rewrite He. left.
        simpl app. now rewrite app_nil_r.
      * destruct (assoc k0 es) as [c|] eqn:Ea; [|discriminate].
        apply assoc_In in Ea. exists (k0, c). split; [assumption|].
        destruct (Hall _ Ea) as [_ Hwc]. cbn [snd] in Hwc.
        destruct c as [ct' m' | es' | t].
        -- destruct q0; simpl in Hl; discriminate.
        -- unfold entry_documents. cbn [fst snd].
           apply (IH _ Ea Hwc). exists q0, k, ct, m.
           repeat split; try assumption.
           f_equal; now rewrite <- !app_assoc.
        -- destruct q0; simpl in Hl; discriminate.
Qed.

(** * [mkdir -p] and writes on the tree *)

Lemma In_set_entry (k : string) (n : node) (es : list (string * node))
  (e : string * node) :
  In e (set_entry k n es) -> e = (k, n) \/ In e es.
Proof.
  induction es as [|[k' n'] es IH]; simpl.
  - intros [<- | []]. now left.
  - destruct (k' =? k).
    + intros [<- | H]; [now left | right; now right].
    + intros [<- | H]; [right; now left|].
      destruct (IH H); [now left | right; now right].
Qed.

Lemma assoc_None_not_In {A} (k : string) (es : list (string * A)) :
  assoc k es = None -> ~ In k (map fst es).
Proof.
  induction es as [|[k' v] es IH]; simpl; [tauto|].
  destruct (k' =? k) eqn:E; [discriminate|].
  apply String.eqb_neq in E. intros H [H' | H']; [contradiction|].
  now apply IH.
Qed.

Lemma wf_set_entry (k : string) (n : node) (es : list (string * node)) :
  wf_node (Dir es) = true -> valid_name k = true -> wf_node n = true ->
  wf_node (Dir (set_entry k n es)) = true.
Proof.
  intros Hwf Hk Hn. apply wf_Dir_entries in Hwf as [Hnd Hall].
  apply wf_Dir_entries. split.
  - rewrite map_fst_set_entry. unfold has_key.
    destruct (assoc k es) eqn:E; [exact Hnd|].
    apply NoDup_app; [exact Hnd | repeat constructor; intros [] |].
    intros a Ha [<- | []]. now apply (assoc_None_not_In _ _ E).
  - rewrite Forall_forall in *. intros e He.
    apply In_set_entry in He as [-> | He]; [now split | now apply Hall].
Qed.

Lemma wf_fresh_dirs (ps : list string) :
  all_valid ps -> wf_node (fresh_dirs ps) = true.
Proof.
  induction 1 as [|p ps Hp _ IH]; [reflexivity|].
  simpl fresh_dirs. apply wf_Dir_entries. split.
  - repeat constructor. intros [].
  - repeat constructor; assumption.
Qed.

Lemma wf_mkdir_p (n n' : node) (ps : list string) :
  wf_node n = true -> all_valid ps -> mkdir_p n ps = inr n' ->
  wf_node n' = true.
Proof.
  revert n n'. induction ps as [|p ps IH]; intros n n' Hwf Hv Hm.
  - destruct n; simpl in Hm; try discriminate. now inversion Hm; subst.
  - inversion Hv as [|? ? Hp Hps]; subst.
    destruct n as [| es |]; simpl in Hm; try discriminate.
    destruct (assoc p es) as [c|] eqn:E.
    + destruct (mkdir_p c ps) as [e | c'] eqn:Ec; [discriminate|].
      inversion Hm; subst. apply wf_set_entry; try assumption.
      apply assoc_In in E. pose proof Hwf as Hwf'.
      apply wf_Dir_entries in Hwf' as [_ Hall].
      rewrite Forall_forall in Hall. destruct (Hall _ E) as [_ Hwc].
      now apply (IH c).
    + inversion Hm; subst. apply wf_set_entry; try assumption.
      now apply wf_fresh_dirs.
Qed.

Lemma wf_write_at (n n' : node) (ps : list string) (d : string) (t : Z) :
  wf_node n = true -> all_valid ps -> write_at n ps d t = inr n' ->
  wf_node n' = true.
Proof.
  revert n n'. induction ps as [|p ps IH]; intros n n' Hwf Hv Hw.
  - destruct n; simpl in Hw; discriminate.
  - inversion Hv as [|? ? Hp Hps]; subst.
    destruct n as [| es |]; simpl in Hw; try discriminate.
    destruct ps as [|p' ps'].
    + assert (E : n' = Dir (set_entry p (File d t) es)).
      { destruct (assoc p es) as [[| |]|]; congruence. }
      subst n'. now apply wf_set_entry.
    + destruct (assoc p es) as [c|] eqn:E; [|discriminate].
      destruct (write_at c (p' :: ps') d t) as [e | c'] eqn:Ec; [discriminate|].
      inversion Hw; subst. apply wf_set_entry; try assumption.
      apply assoc_In in E. pose proof Hwf as Hwf'.
      apply wf_Dir_entries in Hwf' as [_ Hall].
      rewrite Forall_forall in Hall. destruct (Hall _ E) as [_ Hwc].
      now apply (IH c).
Qed.

Lemma mkdir_p_Dir (n n' : node) (ps : list string) :
  mkdir_p n ps = inr n' -> exists es, n' = Dir es.
Proof.
  intros H. destruct n as [| es |]; destruct ps as [|p ps]; simpl in H;
    try discriminate.
  - inversion H. eauto.
  - destruct (assoc p es); [destruct (mkdir_p n ps)|]; inversion H; eauto.
Qed.

Lemma write_at_Dir (n n' : node) (ps : list string) (d : string) (t : Z) :
  write_at n ps d t = inr n' -> exists es, n' = Dir es.
Proof.
  intros H. destruct ps as [|p ps]; [destruct n; discriminate|].
  destruct n as [| es |]; simpl in H; try discriminate.
  destruct ps as [|p' ps'].
  - destruct (assoc p es) as [[| |]|]; inversion H; eauto.
  - destruct (assoc p es); [|discriminate].
    destruct (write_at n (p' :: ps') d t); inversion H; eauto.
Qed.

Lemma fresh_dirs_no_file (ps q : list string) (ct : string) (m : Z) :
  lookup (fresh_dirs ps) q <> inr (File ct m).
Proof.
  revert q. induction ps as [|p ps IH]; intros q.
  - destruct q; simpl; discriminate.
  - destruct q as [|x q]; simpl; [discriminate|].
    destruct (p =? x); [apply IH | discriminate].
Qed.

Lemma lookup_Dir_cons (es : list (string * node)) (x : string)
  (q : list string) :
  lookup (Dir es) (x :: q) =
  match assoc x es with
  | Some c => lookup c q
  | None => inl ENOENT
  end.
Proof. reflexivity. Qed.

(** [mkdir -p] neither adds nor removes nor changes a regular file. *)
Lemma lookup_file_mkdir_p (n n' : node) (ps : list string) :
  mkdir_p n ps = inr n' ->
  forall q ct m,
    lookup n' q = inr (File ct m) <-> lookup n q = inr (File ct m).
Proof.
  revert n n'. induction ps as [|p ps IH]; intros n n' Hm q ct m.
  - destruct n; simpl in Hm; try discriminate. now inversion Hm; subst.
  - destruct n as [| es |]; simpl in Hm; try discriminate.
    destruct q as [|x q]; [destruct (mkdir_p_Dir (Dir es) n' (p :: ps)) as [es' ->];
      [exact Hm | simpl; split; discriminate]|].
    destruct (assoc p es) as [c|] eqn:E.
    + destruct (mkdir_p c ps) as [e | c'] eqn:Ec; [discriminate|].
      inversion Hm; subst. rewrite !lookup_Dir_cons.
      destruct (string_dec p x) as [<- | Hne].
      * rewrite assoc_set_entry_same, E. now apply IH.
      * now rewrite assoc_set_entry_other.
    + inversion Hm; subst. rewrite !lookup_Dir_cons.
      destruct (string_dec p x) as [<- | Hne].
      * rewrite assoc_set_entry_same, E. split; [|discriminate].
        intros H. now apply fresh_dirs_no_file in H.
      * now rewrite assoc_set_entry_other.
Qed.

(** A write changes the regular file at its path and no other. *)
Lemma lookup_file_write_at (n n' : node) (ps : list string) (d : string)
  (t : Z) :
  write_at n ps d t = inr n' ->
  forall q ct m,
    lookup n' q = inr (File ct m) <->
    (q = ps /\ ct = d /\ m = t) \/
    (q <> ps /\ lookup n q = inr (File ct m)).
Proof.
  revert n n'. induction ps as [|p ps IH]; intros n n' Hw q ct m.
  - destruct n; simpl in Hw; discriminate.
  - destruct n as [| es |]; simpl in Hw; try discriminate.
    destruct q as [|x q].
    { destruct (write_at_Dir (Dir es) n' (p :: ps) d t) as [es' ->];
        [exact Hw|].
      simpl. split; [discriminate|]. intros [[H _] | [_ H]]; discriminate. }
    destruct ps as [|p' ps'].
    + assert (E : n' = Dir (set_entry p (File d t) es)).
      { destruct (assoc p es) as [[| |]|]; congruence. }
      assert (Eold : forall y q', lookup (Dir es) (p :: y :: q')
                                  <> inr (File ct m)).
      { intros y q'. rewrite lookup_Dir_cons.
        destruct (assoc p es) as [[| |]|]; simpl; discriminate. }
      subst n'. rewrite lookup_Dir_cons.
      destruct (string_dec p x) as [<- | Hne].
      * rewrite assoc_set_entry_same. destruct q as [|y q']; simpl.
        -- split.
           ++ intros H. inversion H; subst. now left.
           ++ intros [(_ & -> & ->) | [H _]]; [reflexivity | contradiction].
        -- split; [discriminate|].
           intros [[H _] | [_ H]]; [discriminate|].
           exfalso. now apply (Eold y q').
      * rewrite assoc_set_entry_other by assumption.
        rewrite <- lookup_Dir_cons. split.
        -- intros H. right. split; [congruence | exact H].
        -- intros [[H _] | [_ H]]; [congruence | exact H].
    + destruct (assoc p es) as [c|] eqn:E; [|discriminate].
      destruct (write_at c (p' :: ps') d t) as [e | c'] eqn:Ec; [discriminate|].
      inversion Hw; subst. rewrite !lookup_Dir_cons.
      destruct (string_dec p x) as [<- | Hne].
      * rewrite assoc_set_entry_same, E. rewrite (IH c c' Ec). split.
        -- intros [(-> & H) | [Hq H]]; [now left | right].
           split; [congruence | exact H].
        -- intros [(Hq & H) | [Hq H]].
           ++ left. inversion Hq. now split.
           ++ right. split; [congruence | exact H].
      * rewrite assoc_set_entry_other by assumption. split.
        -- intros H. right. split; [congruence | exact H].
        -- intros [[H _] | [_ H]]; [congruence | exact H].
Qed.

(** * The claims *)

Section Claims.

Variable cwd : string.
Variable BASE_DIR : string.
Variable REQ_TOKEN : string.

Lemma auth_ok_iff (authorization : option string) :
  auth_ok REQ_TOKEN authorization = true <->
  REQ_TOKEN = "" \/
  match authorization with Some a => a | None => "" end
  = "Bearer " ++ REQ_TOKEN.
Proof.
  unfold auth_ok. rewrite orb_true_iff, negb_true_iff, String.eqb_eq.
  destruct REQ_TOKEN; simpl; intuition discriminate.
Qed.

Lemma unauthorized_upload (authorization : option string) (req_body : value)
  (w : world) :
  auth_ok REQ_TOKEN authorization = false ->
  Unified.upload cwd BASE_DIR REQ_TOKEN authorization req_body w =
  (Val tt, set_res (reply 401 "Unauthorized") w).
Proof.
  intros H. unfold Unified.upload. unfold bind at 1.
  now rewrite authCheck_run, H.
Qed.

Lemma unauthorized_files (fuel : nat) (authorization : option string)
  (w : world) :
  auth_ok REQ_TOKEN authorization = false ->
  Unified.files cwd BASE_DIR REQ_TOKEN fuel authorization w =
  (Val tt, set_res (reply 401 "Unauthorized") w).
Proof.
  intros H. unfold Unified.files. unfold bind at 1.
  now rewrite authCheck_run, H.
Qed.

Lemma unauthorized_file (authorization query_path : option string)
  (w : world) :
  auth_ok REQ_TOKEN authorization = false ->
  Unified.file cwd BASE_DIR REQ_TOKEN authorization query_path w =
  (Val tt, set_res (reply 401 "Unauthorized") w).
Proof.
  intros H. unfold Unified.file. unfold bind at 1.
  now rewrite authCheck_run, H.
Qed.

Lemma unauthorized_mock_upload (authorization : option string)
  (parsed : option value) (w : world) :
  auth_ok REQ_TOKEN authorization = false ->
  Mock.handleUpload cwd BASE_DIR REQ_TOKEN authorization parsed w =
  (Val tt, set_res (reply 401 "Unauthorized") w).
Proof.
  intros H. unfold Mock.handleUpload. unfold bind at 1.
  now rewrite mock_authorized_run, authCheck_run, H.
Qed.

(** C4.  Access control.  With no token configured every request passes
    the check.  With a token configured a request passes exactly when its
    [Authorization] header is the string ["Bearer <token>"]; otherwise
    (header absent, other scheme, other token) each of the three API routes
    of both servers answers [401 Unauthorized] and leaves the world as it
    was apart from that response: the tree and the I/O log are unchanged,
    so no Document Store operation ran. *)
Theorem C4_authorization_gate :
  forall (authorization : option string) (w : world),
    let header := match authorization with Some a => a | None => "" end in
    let denied := set_res (reply 401 "Unauthorized") w in
    (REQ_TOKEN = "" ->
       Unified.authCheck REQ_TOKEN authorization w = (Val true, w) /\
       Mock.authorized REQ_TOKEN authorization w = (Val true, w)) /\
    (REQ_TOKEN <> "" ->
       (header = "Bearer " ++ REQ_TOKEN ->
          Unified.authCheck REQ_TOKEN authorization w = (Val true, w) /\
          Mock.authorized REQ_TOKEN authorization w = (Val true, w)) /\
       (header <> "Bearer " ++ REQ_TOKEN ->
          Unified.authCheck REQ_TOKEN authorization w = (Val false, denied) /\
          Mock.authorized REQ_TOKEN authorization w = (Val false, denied) /\
          (forall req_body,
             Unified.upload cwd BASE_DIR REQ_TOKEN authorization req_body w
             = (Val tt, denied)) /\
          (forall fuel,
             Unified.files cwd BASE_DIR REQ_TOKEN fuel authorization w
             = (Val tt, denied)) /\
          (forall query_path,
             Unified.file cwd BASE_DIR REQ_TOKEN authorization query_path w
             = (Val tt, denied)) /\
          (forall parsed,
             Mock.handleUpload cwd BASE_DIR REQ_TOKEN authorization parsed w
             = (Val tt, denied)) /\
          (forall fuel,
             Mock.handleListFiles cwd BASE_DIR REQ_TOKEN fuel authorization w
             = (Val tt, denied)) /\
          (forall q_path,
             Mock.handleReadFile cwd BASE_DIR REQ_TOKEN authorization q_path w
             = (Val tt, denied)) /\
          w_fs denied = w_fs w /\ w_log denied = w_log w)).
Proof.
  intros authorization w header denied.
  pose proof (auth_ok_iff authorization) as Hiff. fold header in Hiff.
  split; [|intros Htok; split].
  - intros E. assert (Hok : auth_ok REQ_TOKEN authorization = true)
      by (apply Hiff; now left).
    now rewrite mock_authorized_run, authCheck_run, Hok.
  - intros E. assert (Hok : auth_ok REQ_TOKEN authorization = true)
      by (apply Hiff; now right).
    now rewrite mock_authorized_run, authCheck_run, Hok.
  - intros Hne.
    assert (Hno : auth_ok REQ_TOKEN authorization = false).
    { apply not_true_is_false. intros E.
      apply Hiff in E as [E | E]; contradiction. }
    rewrite mock_authorized_run, authCheck_run, Hno.
    repeat split.
    + intros. now apply unauthorized_upload.
    + intros. now apply unauthorized_files.
    + intros. now apply unauthorized_file.
    + intros. now apply unauthorized_mock_upload.
    + intros. rewrite mock_handleListFiles. now apply unauthorized_files.
    + intros. rewrite mock_handleReadFile. now apply unauthorized_file.
Qed.

Lemma rejected_upload (authorization : option string) (req_body : value)
  (w : world) (c : ascii) (f dir_s : string) :
  auth_ok REQ_TOKEN authorization = true ->
  upload_field req_body "filename" = JStr (String c f) ->
  dir_string req_body = Some dir_s ->
  isPathInside cwd BASE_DIR (target_path cwd BASE_DIR (String c f) dir_s)
    = false ->
  Unified.upload cwd BASE_DIR REQ_TOKEN authorization req_body w =
  (Val tt, set_res (reply 400 "Invalid path") w).
Proof.
  intros Ha Hf Hd Hin.
  pose proof (upload_cases cwd BASE_DIR REQ_TOKEN authorization req_body w)
    as H.
  inversion H as [ H1 | H1 H2 | c' f' H1 H2 H3 | c' f' d' H1 H2 H3 H4
                 | c' f' d' e H1 H2 H3 H4 | c' f' d' fs1 H1 H2 H3 H4
                 | c' f' d' fs1 data e H1 H2 H3 H4
                 | c' f' d' fs1 data fs2 H1 H2 H3 H4 ];
    congruence.
Qed.

Lemma rejected_file (authorization query_path : option string) (w : world) :
  auth_ok REQ_TOKEN authorization = true ->
  read_rel query_path <> "" ->
  isPathInside cwd BASE_DIR (read_abs cwd BASE_DIR query_path) = false ->
  Unified.file cwd BASE_DIR REQ_TOKEN authorization query_path w =
  (Val tt, set_res (reply 400 "Invalid path") w).
Proof.
  intros Ha Hr Hin.
  pose proof (file_cases cwd BASE_DIR REQ_TOKEN authorization query_path w)
    as H.
  inversion H; congruence.
Qed.

(** C3.  A request that passes the credential check and whose candidate
    path (built from [filename] and [dir] for an upload, from [path] for a
    read) fails the containment check is answered [400 Invalid path], on
    both servers, and nothing else happens: the tree is the one before, and
    the I/O log has no new entry (no mkdir, write, read or stat). *)
Theorem C3_rejected_path_no_io :
  forall (authorization : option string) (w : world),
    auth_ok REQ_TOKEN authorization = true ->
    let rejected := set_res (reply 400 "Invalid path") w in
    (forall req_body c f dir_s,
       upload_field req_body "filename" = JStr (String c f) ->
       dir_string req_body = Some dir_s ->
       isPathInside cwd BASE_DIR
         (path.resolve cwd [path.resolve cwd [BASE_DIR; dir_s];
                            path.basename (String c f)]) = false ->
       Unified.upload cwd BASE_DIR REQ_TOKEN authorization req_body w
         = (Val tt, rejected) /\
       Mock.handleUpload cwd BASE_DIR REQ_TOKEN authorization (Some req_body) w
         = (Val tt, rejected)) /\
    (forall query_path,
       let rel := strip_leading_slashes
                    (match query_path with Some p => p | None => "" end) in
       rel <> "" ->
       isPathInside cwd BASE_DIR (path.resolve cwd [BASE_DIR; rel]) = false ->
       Unified.file cwd BASE_DIR REQ_TOKEN authorization query_path w
         = (Val tt, rejected) /\
       Mock.handleReadFile cwd BASE_DIR REQ_TOKEN authorization query_path w
         = (Val tt, rejected)) /\
    w_fs rejected = w_fs w /\ w_log rejected = w_log w.
Proof.
  intros authorization w Ha rejected. repeat split.
  - now apply (rejected_upload _ _ _ c f dir_s).
  - rewrite mock_handleUpload. now apply (rejected_upload _ _ _ c f dir_s).
  - now apply rejected_file.
  - rewrite mock_handleReadFile. now apply rejected_file.
Qed.

End Claims.

Section TargetClaims.

Variable cwd : string.
Hypothesis cwd_absolute : path.isAbsolute cwd = true.
Variable BASE_DIR : string.
Variable REQ_TOKEN : string.

Lemma target_path_segs (filename dir_s : string) :
  fs_segs cwd (target_path cwd BASE_DIR filename dir_s) =
  push_segs (path.resolve_segs cwd [BASE_DIR; dir_s])
    [path.basename filename].
Proof.
  unfold target_path. rewrite fs_segs_resolve by assumption.
  rewrite (resolve_segs_fold cwd cwd_absolute [_; _]). simpl fold_left.
  rewrite <- fs_segs_one by assumption. unfold target_dir.
  rewrite fs_segs_resolve by assumption.
  unfold resolve_one at 1. rewrite basename_not_absolute.
  now rewrite (split_slash_free _ (basename_slash_free filename)).
Qed.

Lemma base_segs_with_empty_dir :
  path.resolve_segs cwd [BASE_DIR; ""] = path.resolve_segs cwd [BASE_DIR].
Proof.
  rewrite !resolve_segs_fold by assumption. simpl.
  apply resolve_one_empty.
Qed.

(** What [POST /upload] writes, it writes at the path computed from [dir]
    and the last segment of [filename], strictly inside the root. *)
Lemma upload_writes_target (authorization : option string) (req_body : value)
  (w : world) (o : outcome unit) (w' : world) (ops : list io_op)
  (p data : string) :
  Unified.upload cwd BASE_DIR REQ_TOKEN authorization req_body w = (o, w') ->
  w_res w = None ->
  w_log w' = (w_log w ++ ops)%list ->
  In (IoWriteFile p data) ops \/
  (exists size, w_res w' = Some {| status := 200; json := BUpload p size |}) ->
  exists c f dir_s,
    upload_field req_body "filename" = JStr (String c f) /\
    dir_string req_body = Some dir_s /\
    p = path.resolve cwd [path.resolve cwd [BASE_DIR; dir_s];
                          path.basename (String c f)] /\
    isPathInside cwd BASE_DIR p = true.
Proof.
  intros Hrun Hres Hlog Hp.
  pose proof (upload_cases cwd BASE_DIR REQ_TOKEN authorization req_body w)
    as H.
  rewrite Hrun in H.
  assert (Hnone : forall r l, w_log (set_res r w) = (w_log w ++ l)%list ->
                              l = []).
  { intros r l E. simpl in E. rewrite <- (app_nil_r (w_log w)) in E at 1.
    now apply app_inv_head in E. }
  inversion H as [ H1 | H1 H2 | c f H1 H2 H3 | c f d H1 H2 H3 H4
                 | c f d e H1 H2 H3 H4 H5 | c f d fs1 H1 H2 H3 H4 H5 H6
                 | c f d fs1 dt e H1 H2 H3 H4 H5 H6 H7
                 | c f d fs1 dt fs2 H1 H2 H3 H4 H5 H6 H7 ]; subst o w'.
  1,2,4: apply Hnone in Hlog; subst ops;
         destruct Hp as [[] | [size Hs]]; simpl in Hs; discriminate.
  - rewrite <- (app_nil_r (w_log w)) in Hlog at 1.
    apply app_inv_head in Hlog. subst ops.
    destruct Hp as [[] | [size Hs]]. rewrite Hres in Hs. discriminate.
  - simpl in Hlog. apply app_inv_head in Hlog. subst ops.
    destruct Hp as [[Hp | []] | [size Hs]]; [discriminate|].
    simpl in Hs. discriminate.
  - simpl in Hlog. apply app_inv_head in Hlog. subst ops.
    destruct Hp as [[Hp | []] | [size Hs]]; [discriminate|].
    simpl in Hs. discriminate.
  - simpl in Hlog. apply app_inv_head in Hlog. subst ops.
    destruct Hp as [[Hp | [Hp | []]] | [size Hs]];
      [discriminate | | simpl in Hs; discriminate].
    inversion Hp; subst. now exists c, f, d.
  - simpl in Hlog. apply app_inv_head in Hlog. subst ops.
    assert (Ep : p = target_path cwd BASE_DIR (String c f) d).
    { destruct Hp as [[Hp | [Hp | []]] | [size Hs]];
        [discriminate | now inversion Hp | simpl in Hs; now inversion Hs]. }
    subst p. now exists c, f, d.
Qed.

(** C2.  Whatever [POST /upload] writes (and the [path] of a [200]
    answer) is [resolve(resolve(root, dir), basename(filename))], on both
    servers: of [filename] only the last segment is used, which has no
    ['/'] in it, the directory is the one [dir] names, and the path lies
    strictly below the root.  With [filename] ["../../etc/passwd"] and no
    [dir], that path is [passwd] directly under the root. *)
Theorem C2_upload_target :
  forall (authorization : option string) (req_body : value) (w : world),
    let run :=
      serve (Unified.upload cwd BASE_DIR REQ_TOKEN authorization req_body) w in
    serve (Mock.handleUpload cwd BASE_DIR REQ_TOKEN authorization
             (Some req_body)) w = run /\
    forall ops p data,
      w_log (snd run) = (w_log w ++ ops)%list ->
      In (IoWriteFile p data) ops \/
      (exists size,
         w_res (snd run) = Some {| status := 200; json := BUpload p size |}) ->
      (exists c f dir_s,
         upload_field req_body "filename" = JStr (String c f) /\
         dir_string req_body = Some dir_s /\
         p = path.resolve cwd [path.resolve cwd [BASE_DIR; dir_s];
                               path.basename (String c f)] /\
         slash_free (path.basename (String c f)) = true) /\
      strict_descendant (path.resolve_segs cwd [BASE_DIR])
        (path.resolve_segs cwd [p]) /\
      (get_prop req_body "filename" = JStr "../../etc/passwd" ->
       truthy (get_prop req_body "dir") = false ->
       path.resolve_segs cwd [p] =
       (path.resolve_segs cwd [BASE_DIR] ++ ["passwd"])%list).
Proof.
  intros authorization req_body w run.
  split; [apply mock_handleUpload|].
  intros ops p data Hlog Hp.
  destruct run as [o w'] eqn:Hrun. simpl snd in *.
  destruct (upload_writes_target _ _ _ _ _ _ _ _ Hrun eq_refl Hlog Hp)
    as (c & f & dir_s & Hf & Hd & Ep & Hin).
  split; [|split].
  - exists c, f, dir_s. repeat split; try assumption.
    apply basename_slash_free.
  - now apply isPathInside_strict.
  - intros Hname Hdir.
    assert (Hbody : truthy req_body = true).
    { destruct req_body; try discriminate; reflexivity. }
    unfold upload_field in Hf. rewrite Hbody, Hname in Hf.
    inversion Hf; subst c f.
    unfold dir_string, upload_field in Hd. rewrite Hbody in Hd.
    unfold or_empty in Hd at 1. rewrite Hdir in Hd. simpl in Hd.
    inversion Hd; subst dir_s.
    fold (target_dir cwd BASE_DIR "") in Ep.
    fold (target_path cwd BASE_DIR "../../etc/passwd" "") in Ep.
    fold (fs_segs cwd p). rewrite Ep, target_path_segs.
    rewrite base_segs_with_empty_dir.
    change (path.basename "../../etc/passwd") with "passwd".
    now apply push_segs_name.
Qed.

End TargetClaims.

(** C1.  The path guard on a child whose name begins with two dots:
    ["/srv/up/..cache"] is a strict descendant of ["/srv/up"], yet
    [isPathInside] answers [false], because it tests the relative path
    ["..cache"] with [startsWith('..')] and not for a [".."] segment.  In
    general the guard holds exactly of the strict descendants whose first
    segment below the root does not begin with two dots; the root itself is
    never inside. *)
Theorem C1_guard_rejects_dotdot_name :
  (isPathInside "/" "/srv/up" "/srv/up/..cache" = false /\
   path.relative "/" "/srv/up" "/srv/up/..cache" = "..cache" /\
   strict_descendant (path.resolve_segs "/" ["/srv/up"])
     (path.resolve_segs "/" ["/srv/up/..cache"])) /\
  (forall cwd parent child,
     path.isAbsolute cwd = true ->
     (isPathInside cwd parent child = true <->
      exists s r,
        path.resolve_segs cwd [child] =
          (path.resolve_segs cwd [parent] ++ s :: r)%list /\
        startsWith s ".." = false) /\
     (path.resolve_segs cwd [child] = path.resolve_segs cwd [parent] ->
      isPathInside cwd parent child = false)).
Proof.
  split.
  - repeat split. now exists "..cache", [].
  - intros cwd parent child Habs. split.
    + now apply isPathInside_spec.
    + intros E. now apply isPathInside_self.
Qed.

(** * Start-up *)

Lemma main_ready (s : Unified.startup) :
  Unified.base_dir_ready s = true ->
  Unified.main s =
  match Unified.buildFrontendIfNeeded s with
  | (evs, Some _) => Unified.EnsureBaseDir :: evs
  | (evs, None) => (Unified.EnsureBaseDir :: evs ++ [Unified.Listen])%list
  end.
Proof. intros H. unfold Unified.main. now rewrite H. Qed.

(** C8.  The build step at process start.  [buildFrontendIfNeeded] spawns
    the build exactly when the force-rebuild flag is set or [index.html] is
    absent.  In [main], which first creates the storage root, the build is
    never spawned otherwise, and is spawned in exactly that case once the
    root is there; the server listens only after the build step, if one
    was needed, has returned with status [0]; a build that ends with any
    other status (or none) ends the process with [process.exit] and the
    server never listens. *)
Theorem C8_build_before_serve :
  forall s : Unified.startup,
    let needBuild := Unified.FORCE_BUILD s || negb (Unified.index_exists s) in
    (* the publisher's decision *)
    (In Unified.SpawnBuild (fst (Unified.buildFrontendIfNeeded s)) <->
     (Unified.FORCE_BUILD s = true \/ Unified.index_exists s = false)) /\
    (* in main: never without need, always with need once the root is ready *)
    (In Unified.SpawnBuild (Unified.main s) -> needBuild = true) /\
    (Unified.base_dir_ready s = true ->
     (In Unified.SpawnBuild (Unified.main s) <-> needBuild = true)) /\
    (Unified.index_exists s = true -> Unified.FORCE_BUILD s = false ->
     ~ In Unified.SpawnBuild (Unified.main s)) /\
    (* the build is over, successfully, before the server listens *)
    (In Unified.Listen (Unified.main s) ->
     Unified.base_dir_ready s = true /\
     (if needBuild
      then Unified.build_status s = Some 0%Z /\
           Unified.main s =
           [Unified.EnsureBaseDir; Unified.SpawnBuild; Unified.Listen]
      else Unified.main s = [Unified.EnsureBaseDir; Unified.Listen])) /\
    (* a failed build is fatal *)
    (needBuild = true -> Unified.build_status s <> Some 0%Z ->
     ~ In Unified.Listen (Unified.main s) /\
     (Unified.base_dir_ready s = true ->
      exists code, code <> 0%Z /\
        Unified.main s =
        [Unified.EnsureBaseDir; Unified.SpawnBuild; Unified.Exit code])).
Proof.
  intros s needBuild. subst needBuild.
  unfold Unified.main, Unified.buildFrontendIfNeeded.
  destruct (Unified.FORCE_BUILD s) eqn:EF;
    destruct (Unified.index_exists s) eqn:EI;
    destruct (Unified.base_dir_ready s) eqn:Er;
    destruct (Unified.build_status s) as [[|c|c]|] eqn:Es;
    cbn [orb negb fst app];
    repeat split; intros;
    repeat match goal with
           | H : In _ _ |- _ => simpl in H
           | H : _ \/ _ |- _ => destruct H
           | H : _ /\ _ |- _ => destruct H
           | H : False |- _ => destruct H
           | |- ~ _ => intros ?
           end;
    try discriminate; try congruence; try reflexivity;
    try (simpl; tauto);
    try (eexists; split; [|reflexivity]; discriminate).
Qed.

Section ContentClaims.

Variable cwd : string.
Variable BASE_DIR : string.
Variable REQ_TOKEN : string.

Lemma upload_field_falsy (req_body : value) (k : string) :
  truthy (get_prop (if truthy req_body then req_body else JObj []) k) = false ->
  upload_field req_body k = JStr "".
Proof. intros H. unfold upload_field, or_empty. now rewrite H. Qed.

Lemma upload_field_string (req_body : value) (k s : string) :
  get_prop (if truthy req_body then req_body else JObj []) k = JStr s ->
  upload_field req_body k = JStr s.
Proof.
  intros H. unfold upload_field, or_empty. rewrite H. now destruct s.
Qed.

(** [POST /upload] once the request is in order up to the content. *)
Lemma upload_run_content (authorization : option string) (req_body : value)
  (w : world) (c : ascii) (f dir_s : string) (fs1 : node) :
  auth_ok REQ_TOKEN authorization = true ->
  upload_field req_body "filename" = JStr (String c f) ->
  dir_string req_body = Some dir_s ->
  isPathInside cwd BASE_DIR (target_path cwd BASE_DIR (String c f) dir_s)
    = true ->
  mkdir_p (w_fs w) (fs_segs cwd (target_dir cwd BASE_DIR dir_s)) = inr fs1 ->
  Unified.upload cwd BASE_DIR REQ_TOKEN authorization req_body w =
  match ToString (upload_field req_body "content") with
  | None =>
      (Val tt, after w fs1 [IoMkdir (target_dir cwd BASE_DIR dir_s)]
                 (Some (reply 500 "Write failed")))
  | Some data =>
      match write_at fs1
              (fs_segs cwd (target_path cwd BASE_DIR (String c f) dir_s))
              (Buffer_from data) (w_now w) with
      | inr fs2 =>
          (Val tt,
           after w fs2
             [IoMkdir (target_dir cwd BASE_DIR dir_s);
              IoWriteFile (target_path cwd BASE_DIR (String c f) dir_s) data]
             (Some {| status := 200;
                      json := BUpload
                                (target_path cwd BASE_DIR (String c f) dir_s)
                                (byteLength data) |}))
      | inl _ =>
          (Val tt,
           after w fs1
             [IoMkdir (target_dir cwd BASE_DIR dir_s);
              IoWriteFile (target_path cwd BASE_DIR (String c f) dir_s) data]
             (Some (reply 500 "Write failed")))
      end
  end.
Proof.
  intros Ha Hf Hd Hin Hmk.
  pose proof (upload_cases cwd BASE_DIR REQ_TOKEN authorization req_body w)
    as H.
  inversion H; same_lhs; try congruence.
  all: repeat match goal with
              | E : ToString _ = _ |- _ => rewrite E; clear E
              | E : write_at _ _ _ _ = _ |- _ => rewrite E; clear E
              end; reflexivity.
Qed.

(** C9, as the code has it.  Of the fields of an upload only [filename]
    is required: once the request is past the credential check, has a
    [filename], a [dir] that converts to a string, a path inside the root
    and its directory in place, the [content] field decides only what is
    written.  A missing or falsy [content] is the empty string, a string is
    itself, any other value is [String(content)] when that conversion
    succeeds; the text is written in UTF-8 (as it is held, when it has no
    unpaired surrogate) and the answer is [200] with the byte length of
    what was written as its [size] (or [500 Write failed] if the write
    fails).  A [content] whose conversion throws is answered
    [500 Write failed].  In no case is the answer [400 filename required].
    The mock server does the same. *)
Theorem C9_content_is_optional_and_coerced :
  forall (authorization : option string) (req_body : value) (w : world)
         (c : ascii) (f dir_s : string) (fs1 : node),
    auth_ok REQ_TOKEN authorization = true ->
    upload_field req_body "filename" = JStr (String c f) ->
    dir_string req_body = Some dir_s ->
    let p := path.resolve cwd [path.resolve cwd [BASE_DIR; dir_s];
                               path.basename (String c f)] in
    let dir := path.resolve cwd [BASE_DIR; dir_s] in
    isPathInside cwd BASE_DIR p = true ->
    mkdir_p (w_fs w) (fs_segs cwd dir) = inr fs1 ->
    let raw := get_prop (if truthy req_body then req_body else JObj [])
                 "content" in
    let run := Unified.upload cwd BASE_DIR REQ_TOKEN authorization req_body w in
    Mock.handleUpload cwd BASE_DIR REQ_TOKEN authorization (Some req_body) w
      = run /\
    w_res (snd run) <> Some (reply 400 "filename required") /\
    (forall data, ToString (or_empty raw) = Some data ->
       (truthy raw = false -> data = "") /\
       (forall s, raw = JStr s -> data = s) /\
       String.length (Buffer_from data) = byteLength data /\
       (utf8_text data = true -> Buffer_from data = data) /\
       match write_at fs1 (fs_segs cwd p) (Buffer_from data) (w_now w) with
       | inr fs2 =>
           run = (Val tt,
                  after w fs2 [IoMkdir dir; IoWriteFile p data]
                    (Some {| status := 200;
                             json := BUpload p (byteLength data) |})) /\
           lookup fs2 (fs_segs cwd p)
             = inr (File (Buffer_from data) (w_now w))
       | inl _ =>
           run = (Val tt,
                  after w fs1 [IoMkdir dir; IoWriteFile p data]
                    (Some (reply 500 "Write failed")))
       end) /\
    (ToString (or_empty raw) = None ->
     run = (Val tt, after w fs1 [IoMkdir dir]
                      (Some (reply 500 "Write failed")))).
Proof.
  intros authorization req_body w c f dir_s fs1 Ha Hf Hd p dir Hin Hmk raw run.
  subst p dir run.
  fold (target_dir cwd BASE_DIR dir_s) in *.
  fold (target_path cwd BASE_DIR (String c f) dir_s) in *.
  change (or_empty raw) with (upload_field req_body "content").
  rewrite mock_handleUpload.
  rewrite (upload_run_content authorization req_body w c f dir_s fs1
             Ha Hf Hd Hin Hmk).
  split; [reflexivity|].
  destruct (ToString (upload_field req_body "content")) as [dt|] eqn:Ec.
  - assert (Hfalsy : truthy raw = false -> dt = "").
    { intros Hraw. rewrite (upload_field_falsy _ _ Hraw) in Ec.
      simpl in Ec. congruence. }
    assert (Hstr : forall s, raw = JStr s -> dt = s).
    { intros s Hs. rewrite (upload_field_string _ _ _ Hs) in Ec.
      simpl in Ec. congruence. }
    destruct (write_at fs1
                (fs_segs cwd (target_path cwd BASE_DIR (String c f) dir_s))
                (Buffer_from dt) (w_now w)) as [e | fs2] eqn:Ew.
    + split; [simpl; discriminate|]. split; [|discriminate].
      intros data E. assert (data = dt) as -> by congruence.
      rewrite Ew. repeat split; try assumption;
        [apply length_Buffer_from | apply Buffer_from_utf8].
    + split; [simpl; discriminate|]. split; [|discriminate].
      intros data E. assert (data = dt) as -> by congruence.
      rewrite Ew. repeat split; try assumption;
        [apply length_Buffer_from | apply Buffer_from_utf8 |].
      now apply lookup_write_at in Ew.
  - split; [simpl; discriminate|]. split; [|reflexivity].
    intros data E. discriminate.
Qed.

End ContentClaims.

(** * The list walk leaves the world alone *)

Section Frame.

Variable cwd : string.

Lemma readdir_frame (dir : string) (w : world) :
  snd (fsp_readdir cwd dir w) = add_logs [IoReaddir dir] w.
Proof.
  unfold fsp_readdir, fs_call.
  destruct (lookup (w_fs w) (fs_segs cwd dir)) as [e | [c m | es | t]];
    simpl; try reflexivity;
    now rewrite add_log_is_add_logs, set_fs_id.
Qed.

Lemma stat_frame (p : string) (w : world) :
  snd (fsp_stat cwd p w) = add_logs [IoStat p] w.
Proof.
  unfold fsp_stat, fs_call.
  destruct (lookup (w_fs w) (fs_segs cwd p)) as [e | [c m | es | t]];
    simpl; try reflexivity;
    now rewrite add_log_is_add_logs, set_fs_id.
Qed.

(** The walk only adds to the I/O log: tree, clock and response stay. *)
Lemma list_frame (fuel : nat) :
  forall (dir base : string) (w : world),
  exists ops,
    snd (listDrawnixFiles cwd fuel dir base w) = add_logs ops w.
Proof.
  induction fuel as [|f IHf]; intros dir base w.
  - exists []. simpl. now rewrite add_logs_nil.
  - rewrite listDrawnixFiles_S. unfold bind at 1.
    pose proof (readdir_frame dir w) as Hr.
    destruct (fsp_readdir cwd dir w) as [[ents | e |] w1]; simpl in Hr;
      subst w1; try (now exists [IoReaddir dir]).
    assert (Hloop : forall l results w1,
      exists ops,
        snd (list_loop cwd (fun abs => listDrawnixFiles cwd f abs base)
               dir base l results w1) = add_logs ops w1).
    { induction l as [|ent l IHl]; intros results w1.
      - exists []. simpl. now rewrite add_logs_nil.
      - cbn [list_loop]. destruct (isDirectory ent).
        + unfold bind at 1.
          destruct (IHf (path.join dir (d_name ent)) base w1) as [ops1 H1].
          destruct (listDrawnixFiles cwd f (path.join dir (d_name ent)) base w1)
            as [[nested | e |] w2]; simpl in H1; subst w2;
            try (now exists ops1).
          destruct (IHl (results ++ nested)%list (add_logs ops1 w1))
            as [ops2 H2].
          exists (ops1 ++ ops2)%list. now rewrite H2, add_logs_add_logs.
        + destruct (isFile ent && endsWith (d_name ent) ".drawnix").
          * unfold bind at 1.
            pose proof (stat_frame (path.join dir (d_name ent)) w1) as Hs.
            destruct (fsp_stat cwd (path.join dir (d_name ent)) w1)
              as [[st | e |] w2]; simpl in Hs; subst w2;
              try (now exists [IoStat (path.join dir (d_name ent))]).
            match goal with
            | |- context [list_loop _ _ _ _ l ?r ?w0] =>
                destruct (IHl r w0) as [ops2 H2]
            end.
            exists ([IoStat (path.join dir (d_name ent))] ++ ops2)%list.
            now rewrite H2, add_logs_add_logs.
          * apply IHl. }
    destruct (Hloop ents [] (add_logs [IoReaddir dir] w)) as [ops H].
    exists ([IoReaddir dir] ++ ops)%list. now rewrite H, add_logs_add_logs.
Qed.

End Frame.

Section ErrorClaims.

Variable cwd : string.
Variable BASE_DIR : string.
Variable REQ_TOKEN : string.

(** [GET /files] once past the credential check. *)
Lemma files_run (fuel : nat) (authorization : option string) (w : world) :
  auth_ok REQ_TOKEN authorization = true ->
  Unified.files cwd BASE_DIR REQ_TOKEN fuel authorization w =
  match mkdir_p (w_fs w) (fs_segs cwd BASE_DIR) with
  | inl _ =>
      (Val tt, after w (w_fs w) [IoMkdir BASE_DIR]
                 (Some (reply 500 "List failed")))
  | inr fs1 =>
      match listDrawnixFiles cwd fuel BASE_DIR BASE_DIR
              (after w fs1 [IoMkdir BASE_DIR] (w_res w)) with
      | (Val fs, w1) =>
          (Val tt, set_res {| status := 200; json := BFiles fs |} w1)
      | (Throw _, w1) => (Val tt, set_res (reply 500 "List failed") w1)
      | (OutOfFuel, w1) => (OutOfFuel, w1)
      end
  end.
Proof.
  intros Ha. unfold Unified.files. unfold bind at 1.
  rewrite authCheck_run, Ha. step.
  unfold try_catch, ensureDir. unfold bind at 1. rewrite run_mkdir.
  destruct (mkdir_p (w_fs w) (fs_segs cwd BASE_DIR)) as [e | fs1]; step.
  - reflexivity.
  - unfold bind at 1.
    destruct (listDrawnixFiles cwd fuel BASE_DIR BASE_DIR
                (after w fs1 [IoMkdir BASE_DIR] (w_res w)))
      as [[fs | e |] w1]; reflexivity.
Qed.

Lemma documented_reply (allowed : list error_kind) (s : nat) (msg : string)
  (k : error_kind) :
  error_kind_of msg = Some k -> kind_status k = s -> In k allowed ->
  documented allowed (Some (reply s msg)).
Proof.
  intros H1 H2 H3 s' msg' E. inversion E; subst. now exists k.
Qed.

Lemma documented_other (allowed : list error_kind) (r : option response) :
  (forall s msg, r <> Some {| status := s; json := BError msg |}) ->
  documented allowed r.
Proof. intros H s msg E. now apply H in E. Qed.

Lemma upload_documented (authorization : option string) (req_body : value)
  (w : world) :
  w_res w = None ->
  documented [Unauthorized; MissingField; InvalidPath; WriteFailed]
    (w_res (snd (Unified.upload cwd BASE_DIR REQ_TOKEN authorization
                   req_body w))).
Proof.
  intros Hres.
  pose proof (upload_cases cwd BASE_DIR REQ_TOKEN authorization req_body w)
    as H.
  inversion H; simpl;
    try (eapply documented_reply; [reflexivity | reflexivity | simpl; tauto]);
    apply documented_other; intros s msg; try rewrite Hres; discriminate.
Qed.

Lemma file_documented (authorization query_path : option string)
  (w : world) :
  documented [Unauthorized; MissingField; InvalidPath; NotFound]
    (w_res (snd (Unified.file cwd BASE_DIR REQ_TOKEN authorization
                   query_path w))).
Proof.
  pose proof (file_cases cwd BASE_DIR REQ_TOKEN authorization query_path w)
    as H.
  inversion H; simpl;
    try (eapply documented_reply; [reflexivity | reflexivity | simpl; tauto]);
    apply documented_other; intros s msg; discriminate.
Qed.

Lemma files_documented (fuel : nat) (authorization : option string)
  (w : world) :
  w_res w = None ->
  documented [Unauthorized; ListFailed]
    (w_res (snd (Unified.files cwd BASE_DIR REQ_TOKEN fuel authorization w))).
Proof.
  intros Hres. destruct (auth_ok REQ_TOKEN authorization) eqn:Ha.
  - rewrite files_run by assumption.
    destruct (mkdir_p (w_fs w) (fs_segs cwd BASE_DIR)) as [e | fs1].
    + simpl. eapply documented_reply; [reflexivity | reflexivity | simpl; tauto].
    + destruct (list_frame cwd fuel BASE_DIR BASE_DIR
                  (after w fs1 [IoMkdir BASE_DIR] (w_res w))) as [ops Hf].
      destruct (listDrawnixFiles cwd fuel BASE_DIR BASE_DIR
                  (after w fs1 [IoMkdir BASE_DIR] (w_res w)))
        as [[fs | e |] w1]; simpl in Hf; subst w1; simpl.
      * apply documented_other. discriminate.
      * eapply documented_reply; [reflexivity | reflexivity | simpl; tauto].
      * rewrite Hres. apply documented_other. discriminate.
  - rewrite unauthorized_files by assumption. simpl.
    eapply documented_reply; [reflexivity | reflexivity | simpl; tauto].
Qed.

Lemma readFile_throws (p : string) (w w1 : world) (e : exn) :
  fsp_readFile cwd p w = (Throw e, w1) ->
  forall c m, lookup (w_fs w) (fs_segs cwd p) <> inr (File c m).
Proof.
  intros H c m El. rewrite (run_readFile cwd p w c m El) in H. discriminate.
Qed.

Lemma file_run_missing (authorization query_path : option string)
  (w : world) :
  auth_ok REQ_TOKEN authorization = true ->
  read_rel query_path = "" ->
  Unified.file cwd BASE_DIR REQ_TOKEN authorization query_path w =
  (Val tt, set_res (reply 400 "path required") w).
Proof.
  intros Ha Hr.
  pose proof (file_cases cwd BASE_DIR REQ_TOKEN authorization query_path w)
    as H.
  inversion H; congruence.
Qed.

Lemma file_run_unreadable (authorization query_path : option string)
  (w : world) :
  auth_ok REQ_TOKEN authorization = true ->
  read_rel query_path <> "" ->
  isPathInside cwd BASE_DIR (read_abs cwd BASE_DIR query_path) = true ->
  (forall c m, lookup (w_fs w) (fs_segs cwd (read_abs cwd BASE_DIR query_path))
               <> inr (File c m)) ->
  Unified.file cwd BASE_DIR REQ_TOKEN authorization query_path w =
  (Val tt, after w (w_fs w) [IoReadFile (read_abs cwd BASE_DIR query_path)]
             (Some (reply 404 "Not Found"))).
Proof.
  intros Ha Hr Hin Hno.
  pose proof (file_cases cwd BASE_DIR REQ_TOKEN authorization query_path w)
    as H.
  inversion H; try congruence;
    try (exfalso; eapply Hno; eassumption).
Qed.

Lemma file_run_found (authorization query_path : option string)
  (w : world) (content : string) (m : Z) :
  auth_ok REQ_TOKEN authorization = true ->
  read_rel query_path <> "" ->
  isPathInside cwd BASE_DIR (read_abs cwd BASE_DIR query_path) = true ->
  lookup (w_fs w) (fs_segs cwd (read_abs cwd BASE_DIR query_path))
    = inr (File content m) ->
  Unified.file cwd BASE_DIR REQ_TOKEN authorization query_path w =
  (Val tt, after w (w_fs w) [IoReadFile (read_abs cwd BASE_DIR query_path)]
             (Some {| status := 200;
                      json := BFile (path.basename
                                       (read_abs cwd BASE_DIR query_path))
                                (read_rel query_path)
                                (Buffer_toString content) |})).
Proof.
  intros Ha Hr Hin Hl.
  pose proof (file_cases cwd BASE_DIR REQ_TOKEN authorization query_path w)
    as H.
  inversion H; try congruence;
    try (exfalso;
         match goal with Hn : forall c m, _ <> _ |- _ => eapply Hn end;
         eassumption).
Qed.

Lemma upload_run_no_filename (authorization : option string)
  (req_body : value) (w : world) :
  auth_ok REQ_TOKEN authorization = true ->
  (forall c f, upload_field req_body "filename" <> JStr (String c f)) ->
  Unified.upload cwd BASE_DIR REQ_TOKEN authorization req_body w =
  (Val tt, set_res (reply 400 "filename required") w).
Proof.
  intros Ha Hf.
  pose proof (upload_cases cwd BASE_DIR REQ_TOKEN authorization req_body w)
    as H.
  inversion H; try congruence;
    try (exfalso; eapply Hf; eassumption).
Qed.

Lemma upload_run_mkdir_fails (authorization : option string)
  (req_body : value) (w : world) (c : ascii) (f dir_s : string) (e : errno) :
  auth_ok REQ_TOKEN authorization = true ->
  upload_field req_body "filename" = JStr (String c f) ->
  dir_string req_body = Some dir_s ->
  isPathInside cwd BASE_DIR (target_path cwd BASE_DIR (String c f) dir_s)
    = true ->
  mkdir_p (w_fs w) (fs_segs cwd (target_dir cwd BASE_DIR dir_s)) = inl e ->
  Unified.upload cwd BASE_DIR REQ_TOKEN authorization req_body w =
  (Val tt, after w (w_fs w) [IoMkdir (target_dir cwd BASE_DIR dir_s)]
             (Some (reply 500 "Write failed"))).
Proof.
  intros Ha Hf Hd Hin Hmk.
  pose proof (upload_cases cwd BASE_DIR REQ_TOKEN authorization req_body w)
    as H.
  inversion H; same_lhs; congruence.
Qed.

(** C7, as the code has it.  Every error answer of the three routes has
    a kind of the taxonomy and the status of that kind: an upload answers
    only [Unauthorized] (401), [MissingField] (400), [InvalidPath] (400) or
    [WriteFailed] (500); a listing only [Unauthorized] or [ListFailed]
    (500); a read only [Unauthorized], [MissingField], [InvalidPath] or
    [NotFound] (404).  A failed credential check gives [Unauthorized]; a
    missing [filename] or [path] gives [MissingField]; a candidate path
    outside the root gives [InvalidPath]; an I/O error of the write gives
    [WriteFailed] and one of the listing gives [ListFailed]; every I/O
    error of the read, whatever its cause, gives [NotFound] with status
    404, and no route ever answers [ReadFailed]. *)
Theorem C7_error_kinds_and_statuses :
  forall (authorization : option string) (w : world),
    let upload := Unified.upload cwd BASE_DIR REQ_TOKEN authorization in
    let files := fun fuel =>
                   Unified.files cwd BASE_DIR REQ_TOKEN fuel authorization in
    let file := Unified.file cwd BASE_DIR REQ_TOKEN authorization in
    (* the kinds and statuses of the error answers *)
    ((forall req_body,
        documented [Unauthorized; MissingField; InvalidPath; WriteFailed]
          (w_res (snd (serve (upload req_body) w)))) /\
     (forall fuel,
        documented [Unauthorized; ListFailed]
          (w_res (snd (serve (files fuel) w)))) /\
     (forall query_path,
        documented [Unauthorized; MissingField; InvalidPath; NotFound]
          (w_res (snd (serve (file query_path) w))))) /\
    (* a failed credential check *)
    (auth_ok REQ_TOKEN authorization = false ->
     forall req_body fuel query_path,
       w_res (snd (upload req_body w)) = Some (reply 401 "Unauthorized") /\
       w_res (snd (files fuel w)) = Some (reply 401 "Unauthorized") /\
       w_res (snd (file query_path w)) = Some (reply 401 "Unauthorized")) /\
    (auth_ok REQ_TOKEN authorization = true ->
     (* upload *)
     (forall req_body,
        (forall c f, upload_field req_body "filename" <> JStr (String c f)) ->
        w_res (snd (upload req_body w))
          = Some (reply 400 "filename required")) /\
     (forall req_body c f dir_s,
        upload_field req_body "filename" = JStr (String c f) ->
        dir_string req_body = Some dir_s ->
        let p := target_path cwd BASE_DIR (String c f) dir_s in
        let dir := target_dir cwd BASE_DIR dir_s in
        (isPathInside cwd BASE_DIR p = false ->
         w_res (snd (upload req_body w)) = Some (reply 400 "Invalid path")) /\
        (isPathInside cwd BASE_DIR p = true ->
         (forall e,
            mkdir_p (w_fs w) (fs_segs cwd dir) = inl e ->
            w_res (snd (upload req_body w))
              = Some (reply 500 "Write failed")) /\
         (forall fs1 data e,
            mkdir_p (w_fs w) (fs_segs cwd dir) = inr fs1 ->
            ToString (upload_field req_body "content") = Some data ->
            write_at fs1 (fs_segs cwd p) data (w_now w) = inl e ->
            w_res (snd (upload req_body w))
              = Some (reply 500 "Write failed")))) /\
     (* list *)
     (forall fuel,
        (forall e,
           mkdir_p (w_fs w) (fs_segs cwd BASE_DIR) = inl e ->
           w_res (snd (files fuel w)) = Some (reply 500 "List failed")) /\
        (forall fs1 e w1,
           mkdir_p (w_fs w) (fs_segs cwd BASE_DIR) = inr fs1 ->
           listDrawnixFiles cwd fuel BASE_DIR BASE_DIR
             (after w fs1 [IoMkdir BASE_DIR] (w_res w)) = (Throw e, w1) ->
           w_res (snd (files fuel w)) = Some (reply 500 "List failed"))) /\
     (* read *)
     (forall query_path,
        (read_rel query_path = "" ->
         w_res (snd (file query_path w)) = Some (reply 400 "path required")) /\
        (read_rel query_path <> "" ->
         let abs := read_abs cwd BASE_DIR query_path in
         (isPathInside cwd BASE_DIR abs = false ->
          w_res (snd (file query_path w))
            = Some (reply 400 "Invalid path")) /\
         (isPathInside cwd BASE_DIR abs = true ->
          forall e w1,
            fsp_readFile cwd abs w = (Throw (IOError e), w1) ->
            w_res (snd (file query_path w))
              = Some (reply 404 "Not Found"))))).
Proof.
  intros authorization w upload files file. subst upload files file.
  split; [|split].
  - split; [|split]; intros; unfold serve.
    + now apply upload_documented.
    + now apply files_documented.
    + apply file_documented.
  - intros Ha req_body fuel query_path.
    now rewrite unauthorized_upload, unauthorized_files, unauthorized_file.
  - intros Ha. split; [|split; [|split]].
    + intros req_body Hf. now rewrite upload_run_no_filename.
    + intros req_body c f dir_s Hf Hd p dir. subst p dir. split.
      * intros Hin. now rewrite (rejected_upload _ _ _ _ _ _ c f dir_s).
      * intros Hin. split.
        -- intros e Hmk.
           now rewrite (upload_run_mkdir_fails _ _ _ c f dir_s e).
        -- intros fs1 data e Hmk Hc Hw.
           rewrite (upload_run_content _ _ _ _ _ _ c f dir_s fs1) by assumption.
           now rewrite Hc, (write_at_fails _ _ (Buffer_from data) _ _ _ Hw).
    + intros fuel. split.
      * intros e Hmk. rewrite files_run by assumption. now rewrite Hmk.
      * intros fs1 e w1 Hmk Hl. rewrite files_run by assumption.
        now rewrite Hmk, Hl.
    + intros query_path. split.
      * intros Hr. now rewrite file_run_missing.
      * intros Hr abs. subst abs. split.
        -- intros Hin. now rewrite rejected_file.
        -- intros Hin e w1 Hthrow.
           rewrite file_run_unreadable; try assumption; [reflexivity|].
           now apply (readFile_throws _ _ _ _ Hthrow).
Qed.

End ErrorClaims.

Lemma strip_not_absolute (s : string) :
  path.isAbsolute s = false -> strip_leading_slashes s = s.
Proof.
  destruct s as [|c tl]; [reflexivity|].
  destruct c as [[] [] [] [] [] [] [] []]; try reflexivity; discriminate.
Qed.

Section RoundTrip.

Variable cwd : string.
Hypothesis cwd_absolute : path.isAbsolute cwd = true.
Variable BASE_DIR : string.
Variable REQ_TOKEN : string.

(** A path inside the root is found again from its relative path. *)
Lemma resolve_relative_inside (p : string) (args : list string) :
  p = path.resolve cwd args ->
  isPathInside cwd BASE_DIR p = true ->
  let rel := path.relative cwd BASE_DIR p in
  rel <> "" /\
  strip_leading_slashes rel = rel /\
  path.resolve cwd [BASE_DIR; rel] = p.
Proof.
  intros Ep Hin rel.
  apply isPathInside_spec in Hin as (s & r & Hsegs & _); [|assumption].
  pose proof (resolve_segs_valid cwd cwd_absolute [p]) as Hv.
  rewrite Hsegs in Hv. apply all_valid_app in Hv as [_ Hv].
  inversion Hv as [|? ? Hs Hr]; subst x l.
  assert (Erel : rel = path.join_segs (s :: r)).
  { unfold rel. now apply relative_below. }
  destruct (join_name_shape s r Hs) as [Ht Ha].
  rewrite Erel. split; [|split].
  - intros E. rewrite E in Ht. discriminate.
  - now apply strip_not_absolute.
  - rewrite resolve_string by assumption.
    rewrite (resolve_segs_fold cwd cwd_absolute [_; _]). simpl fold_left.
    unfold resolve_one at 1. rewrite Ha.
    rewrite split_join;
      [| discriminate | now apply all_valid_slash_free].
    rewrite push_segs_names by assumption.
    rewrite <- fs_segs_one by assumption. unfold fs_segs.
    rewrite <- Hsegs.
    assert (Hp : path.resolve_segs cwd [p] = path.resolve_segs cwd args).
    { rewrite Ep. now apply fs_segs_resolve. }
    rewrite Hp, Ep. symmetry. now apply resolve_string.
Qed.

(** C5, as the code has it.  Write, then read.  When an upload whose
    [content] is the string [X] has been answered [200] with the stored
    path [p], a read (by any client that passes the credential check) of
    the relative path of [p] below the root, which is the [relativePath]
    the listing reports for it, is answered [200] with the text that is
    read from the bytes written for [X].  That text is [X] itself, byte
    for byte, when [X] is well-formed Unicode text, that is, holds no
    unpaired surrogate. *)
Theorem C5_write_then_read :
  forall (authorization : option string) (req_body : value) (w w1 : world)
         (X p : string) (size : nat),
    get_prop (if truthy req_body then req_body else JObj []) "content"
      = JStr X ->
    Unified.upload cwd BASE_DIR REQ_TOKEN authorization req_body w
      = (Val tt, w1) ->
    w_res w1 = Some {| status := 200; json := BUpload p size |} ->
    forall reader : option string,
      auth_ok REQ_TOKEN reader = true ->
      let rel := path.relative cwd BASE_DIR p in
      let read := Buffer_toString (Buffer_from X) in
      Unified.file cwd BASE_DIR REQ_TOKEN reader (Some rel) w1 =
      (Val tt,
       after w1 (w_fs w1) [IoReadFile p]
         (Some {| status := 200;
                  json := BFile (path.basename p) rel read |})) /\
      (utf8_text X = true -> read = X).
Proof.
  intros authorization req_body w w1 X p size Hc Hup Hres reader Hreader rel
    read.
  split; [|apply write_then_read_text].
  pose proof (upload_cases cwd BASE_DIR REQ_TOKEN authorization req_body w)
    as H.
  rewrite Hup in H.
  inversion H; subst; simpl in Hres; try discriminate.
  inversion Hres; subst p size. clear Hres.
  match goal with
  | Hw : write_at _ _ (Buffer_from ?d) _ = inr _,
    Hs : ToString _ = Some ?d |- _ =>
      rewrite (upload_field_string _ _ _ Hc) in Hs; simpl in Hs;
      inversion Hs; subst d; apply lookup_write_at in Hw; rename Hw into Hfile
  end.
  match goal with
  | Hin : isPathInside _ _ _ = true |- _ =>
      destruct (resolve_relative_inside _ _ eq_refl Hin) as (Hne & Hstrip & Habs)
  end.
  fold rel in Hne, Hstrip, Habs.
  assert (Er : read_rel (Some rel) = rel) by exact Hstrip.
  assert (Ea : read_abs cwd BASE_DIR (Some rel)
               = target_path cwd BASE_DIR (String c f) dir_s).
  { unfold read_abs. now rewrite Er. }
  rewrite (file_run_found cwd BASE_DIR REQ_TOKEN reader (Some rel) _
             (Buffer_from X) (w_now w)); rewrite ?Ea, ?Er; try assumption;
    reflexivity.
Qed.

End RoundTrip.

(** * Symbolic links and termination *)







(** * Listing the documents *)

Lemma document_name_valid (k : string) :
  slash_free k = true -> endsWith k ".drawnix" = true -> valid_name k = true.
Proof.
  intros Hs He. apply valid_name_spec. repeat split; try assumption;
    intros ->; discriminate.
Qed.

Lemma app_tail_split {A} (l1 l2 : list A) (a x : A) (y : list A) :
  (l1 ++ [a] = l2 ++ x :: y)%list ->
  exists qd, l1 = (l2 ++ qd)%list /\ x :: y = (qd ++ [a])%list.
Proof.
  intros H. destruct (exists_last (l := x :: y)) as (qd & z & E);
    [discriminate|].
  rewrite E, app_assoc in H. apply app_inj_tail in H as [-> ->].
  now exists qd.
Qed.

Section Listing.

Variable cwd : string.
Hypothesis cwd_absolute : path.isAbsolute cwd = true.
Variable BASE_DIR : string.
Variable REQ_TOKEN : string.

(** [GET /files] on a storage root that is a well-formed directory. *)
Lemma files_run_ok (fuel : nat) (authorization : option string) (w : world)
  (es : list (string * node)) :
  auth_ok REQ_TOKEN authorization = true ->
  lookup (w_fs w) (fs_segs cwd BASE_DIR) = inr (Dir es) ->
  wf_node (Dir es) = true ->
  depth (Dir es) <= fuel ->
  exists ops,
    Unified.files cwd BASE_DIR REQ_TOKEN fuel authorization w =
    (Val tt,
     after w (w_fs w) (IoMkdir BASE_DIR :: ops)
       (Some {| status := 200; json := BFiles (documents [] (Dir es)) |})) /\
    Forall (walk_op_ok cwd (w_fs w)) ops.
Proof.
  intros Ha Hl Hwf Hd. rewrite files_run by assumption.
  rewrite (mkdir_p_existing _ _ _ Hl).
  destruct (list_walk cwd cwd_absolute BASE_DIR fuel BASE_DIR [] es
              (after w (w_fs w) [IoMkdir BASE_DIR] (w_res w)) Hd Hwf)
    as (ops & Hrun & Hok); [now rewrite app_nil_r | exact Hl |].
  exists ops. rewrite Hrun. split; [|exact Hok].
  unfold after, set_res, add_logs. simpl. now rewrite <- app_assoc.
Qed.

Lemma upload_stored_facts (authorization : option string) (req_body : value)
  (w w1 : world) (p : string) (size : nat) :
  Unified.upload cwd BASE_DIR REQ_TOKEN authorization req_body w
    = (Val tt, w1) ->
  w_res w1 = Some {| status := 200; json := BUpload p size |} ->
  exists c f dir_s fs1 data,
    upload_field req_body "filename" = JStr (String c f) /\
    p = target_path cwd BASE_DIR (String c f) dir_s /\
    isPathInside cwd BASE_DIR p = true /\
    mkdir_p (w_fs w) (fs_segs cwd (target_dir cwd BASE_DIR dir_s))
      = inr fs1 /\
    write_at fs1 (fs_segs cwd p) (Buffer_from data) (w_now w)
      = inr (w_fs w1).
Proof.
  intros Hup Hres.
  pose proof (upload_cases cwd BASE_DIR REQ_TOKEN authorization req_body w)
    as H.
  rewrite Hup in H.
  inversion H; subst; simpl in Hres; try discriminate.
  inversion Hres; subst. now exists c, f, dir_s, fs1, data.
Qed.

(** One more stored document keeps [root_holds]. *)
Lemma root_holds_step (stored : list string) (w w1 : world)
  (authorization : option string) (req_body : value) (filename p : string)
  (size : nat) :
  root_holds cwd BASE_DIR stored w ->
  upload_field req_body "filename" = JStr filename ->
  endsWith (path.basename filename) ".drawnix" = true ->
  Unified.upload cwd BASE_DIR REQ_TOKEN authorization req_body w
    = (Val tt, w1) ->
  w_res w1 = Some {| status := 200; json := BUpload p size |} ->
  root_holds cwd BASE_DIR (stored ++ [p]) w1.
Proof.
  intros (es & Hl & Hwf & Hdocs & Hstored) Hf Hext Hup Hres.
  destruct (upload_stored_facts _ _ _ _ _ _ Hup Hres)
    as (c & f & dir_s & fs1 & data & Hf' & Ep & Hin & Hmk & Hw).
  rewrite Hf in Hf'. inversion Hf'; subst filename. clear Hf'.
  set (name := path.basename (String c f)) in *.
  set (B := fs_segs cwd BASE_DIR) in *.
  assert (Hname : valid_name name = true)
    by (apply document_name_valid; [apply basename_slash_free | exact Hext]).
  set (T := path.resolve_segs cwd [BASE_DIR; dir_s]).
  assert (HT : fs_segs cwd (target_dir cwd BASE_DIR dir_s) = T)
    by (now apply fs_segs_resolve).
  assert (Hp : fs_segs cwd p = (T ++ [name])%list).
  { rewrite Ep, target_path_segs by assumption. now apply push_segs_name. }
  apply isPathInside_spec in Hin as (s & r & Hsegs & _); [|assumption].
  fold (fs_segs cwd p) in Hsegs. fold (fs_segs cwd BASE_DIR) in Hsegs.
  fold B in Hsegs. rewrite Hp in Hsegs.
  destruct (app_tail_split _ _ _ _ _ Hsegs) as (qd & ET & Eq).
  assert (HvT : all_valid T) by (now apply resolve_segs_valid).
  assert (Hvqd : all_valid qd).
  { rewrite ET in HvT. now apply all_valid_app in HvT. }
  assert (Hvq : all_valid (qd ++ [name])).
  { apply all_valid_app. split; [exact Hvqd | now repeat constructor]. }
  assert (Hpq : fs_segs cwd p = (B ++ (qd ++ [name]))%list)
    by (now rewrite Hp, ET, app_assoc).
  rewrite HT, ET in Hmk.
  destruct (mkdir_p_below _ _ _ _ _ Hl Hmk) as (r1 & Hmk1 & Hl1).
  rewrite Hpq in Hw.
  destruct (write_at_below _ _ _ _ _ _ _ (@app_cons_not_nil _ qd name) Hl1 Hw)
    as (r2 & Hw2 & Hl2).
  pose proof (wf_mkdir_p _ _ _ Hwf Hvqd Hmk1) as Hwf1.
  pose proof (wf_write_at _ _ _ _ _ Hwf1 Hvq Hw2) as Hwf2.
  destruct (write_at_Dir _ _ _ _ _ Hw2) as [es2 ->].
  exists es2. split; [exact Hl2|]. split; [exact Hwf2|]. split.
  - intros q.
    assert (Hiff : In q (doc_paths (Dir es2)) <->
                   q = (qd ++ [name])%list \/ In q (doc_paths (Dir es))).
    { rewrite (doc_paths_spec _ Hwf2), (doc_paths_spec _ Hwf). split.
      - intros (q0 & k & ct & m & Eq0 & Hfile & Hk).
        apply (lookup_file_write_at _ _ _ _ _ Hw2) in Hfile
          as [(Hq & _) | (Hne & Hfile)]; [now left | right].
        apply (lookup_file_mkdir_p _ _ _ Hmk1) in Hfile.
        now exists q0, k, ct, m.
      - intros [-> | (q0 & k & ct & m & Eq0 & Hfile & Hk)].
        + exists qd, name, (Buffer_from data), (w_now w). repeat split; try assumption.
          now apply (lookup_write_at _ _ _ _ _ Hw2).
        + destruct (list_eq_dec string_dec q (qd ++ [name])%list) as [E | Hne].
          * exists qd, name, (Buffer_from data), (w_now w). repeat split; try assumption.
            rewrite E. now apply (lookup_write_at _ _ _ _ _ Hw2).
          * exists q0, k, ct, m. repeat split; try assumption.
            apply (lookup_file_write_at _ _ _ _ _ Hw2). right.
            split; [exact Hne|].
            now apply (lookup_file_mkdir_p _ _ _ Hmk1). }
    rewrite Hiff, Hdocs. split.
    + intros [-> | (p' & Hp' & Hs')].
      * exists p. split; [apply in_or_app; right; now left | exact Hpq].
      * exists p'. split; [apply in_or_app; now left | exact Hs'].
    + intros (p' & Hp' & Hs'). apply in_app_or in Hp' as [Hp' | [<- | []]].
      * right. now exists p'.
      * left. rewrite Hpq in Hs'. now apply app_inv_head in Hs'.
  - apply Forall_app. split; [exact Hstored|].
    constructor; [|constructor]. split; [|now exists (qd ++ [name])%list].
    rewrite Ep. unfold target_path.
    rewrite fs_segs_resolve by assumption. now apply resolve_string.
Qed.

Lemma no_documents_no_paths (n : node) :
  documents [] n = [] -> doc_paths n = [].
Proof.
  intros H. pose proof (documents_paths n []) as E. rewrite H in E.
  simpl in E. symmetry in E. now apply map_eq_nil in E.
Qed.

Lemma root_holds_uploaded (w0 w : world) (stored : list string)
  (es0 : list (string * node)) :
  lookup (w_fs w0) (fs_segs cwd BASE_DIR) = inr (Dir es0) ->
  wf_node (Dir es0) = true ->
  documents [] (Dir es0) = [] ->
  uploaded cwd BASE_DIR REQ_TOKEN w0 stored w ->
  root_holds cwd BASE_DIR stored w.
Proof.
  intros Hl Hwf Hno Hup. induction Hup.
  - exists es0. repeat split; try assumption; try constructor.
    + rewrite (no_documents_no_paths _ Hno). contradiction.
    + intros (p & [] & _).
  - eapply root_holds_step; eassumption.
Qed.

Lemma join_segs_inj (l1 l2 : list string) :
  l1 <> [] -> l2 <> [] -> all_valid l1 -> all_valid l2 ->
  path.join_segs l1 = path.join_segs l2 -> l1 = l2.
Proof.
  intros H1 H2 Hv1 Hv2 E.
  rewrite <- (split_join l1), <- (split_join l2), E;
    auto using all_valid_slash_free.
Qed.

Lemma relative_paths_NoDup (n : node) :
  wf_node n = true -> NoDup (map fi_relativePath (documents [] n)).
Proof.
  intros Hwf. rewrite documents_paths.
  apply NoDup_map_NoDup_ForallPairs; [|now apply doc_paths_NoDup].
  intros a b Ha Hb E. simpl in E.
  destruct (doc_paths_valid _ _ Hwf Ha), (doc_paths_valid _ _ Hwf Hb).
  now apply join_segs_inj.
Qed.

(** C6.  The listing.  On a storage root that is a well-formed directory
    within the limits of the platform, [GET /files] (on both servers)
    answers [200] with one entry for each regular file whose name ends in
    [".drawnix"] and that is reached from the root through directories, and
    with nothing else; the entry carries the file's name, its path and its
    parent directory relative to the root (the empty string for a file
    directly under the root), its size in bytes and its modification time.
    No two entries have the same [relativePath], and an empty root gives
    the empty list.  After [N] documents have been stored by successful
    uploads at [N] different paths, each within the limits of the
    platform, in a root that held no document and no symbolic link, the
    listing has exactly [N] entries, and their [relativePath]s are the
    relative paths of the stored paths. *)
Theorem C6_list_documents :
  forall authorization : option string,
    auth_ok REQ_TOKEN authorization = true ->
    platform_path BASE_DIR = true ->
    (forall (w : world) (es : list (string * node)) (fuel : nat),
       lookup (w_fs w) (fs_segs cwd BASE_DIR) = inr (Dir es) ->
       wf_node (Dir es) = true ->
       platform_tree (room_below BASE_DIR) (Dir es) = true ->
       depth (Dir es) <= fuel ->
       exists files w',
         Unified.files cwd BASE_DIR REQ_TOKEN fuel authorization w
           = (Val tt, w') /\
         Mock.handleListFiles cwd BASE_DIR REQ_TOKEN fuel authorization w
           = (Val tt, w') /\
         w_res w' = Some {| status := 200; json := BFiles files |} /\
         w_fs w' = w_fs w /\
         (forall e,
            In e files <->
            exists q k ct m,
              lookup (Dir es) (q ++ [k]) = inr (File ct m) /\
              endsWith k ".drawnix" = true /\
              e = {| fi_name := k;
                     fi_relativePath := path.join_segs (q ++ [k]);
                     fi_dir := path.join_segs q;
                     fi_size := String.length ct;
                     fi_mtime := m |}) /\
         NoDup (map fi_relativePath files) /\
         (es = [] -> files = [])) /\
    (forall (w0 w : world) (es0 : list (string * node))
            (stored : list string),
       lookup (w_fs w0) (fs_segs cwd BASE_DIR) = inr (Dir es0) ->
       wf_node (Dir es0) = true ->
       platform_tree (room_below BASE_DIR) (Dir es0) = true ->
       without_symlinks (Dir es0) = Dir es0 ->
       documents [] (Dir es0) = [] ->
       uploaded cwd BASE_DIR REQ_TOKEN w0 stored w ->
       NoDup stored ->
       Forall (fun p => storable cwd BASE_DIR p = true) stored ->
       exists es,
         lookup (w_fs w) (fs_segs cwd BASE_DIR) = inr (Dir es) /\
         wf_node (Dir es) = true /\
         forall fuel,
           depth (Dir es) <= fuel ->
           exists files w',
             Unified.files cwd BASE_DIR REQ_TOKEN fuel authorization w
               = (Val tt, w') /\
             w_res w' = Some {| status := 200; json := BFiles files |} /\
             List.length files = List.length stored /\
             NoDup (map fi_relativePath files) /\
             (forall rp,
                In rp (map fi_relativePath files) <->
                exists p, In p stored /\
                          rp = path.relative cwd BASE_DIR p)).
Proof.
  intros authorization Ha _. split.
  - intros w es fuel Hl Hwf _ Hd.
    destruct (files_run_ok fuel authorization w es Ha Hl Hwf Hd)
      as (ops & Hrun & _).
    exists (documents [] (Dir es)). eexists.
    split; [exact Hrun|]. split; [now rewrite mock_handleListFiles|].
    split; [reflexivity|]. split; [reflexivity|]. split; [|split].
    + intros e. now rewrite (documents_spec _ Hwf).
    + now apply relative_paths_NoDup.
    + now intros ->.
  - intros w0 w es0 stored Hl0 Hwf0 _ _ Hno Hup Hnd _.
    destruct (root_holds_uploaded w0 w stored es0 Hl0 Hwf0 Hno Hup)
      as (es & Hl & Hwf & Hdocs & Hstored).
    exists es. split; [exact Hl|]. split; [exact Hwf|].
    intros fuel Hd.
    destruct (files_run_ok fuel authorization w es Ha Hl Hwf Hd)
      as (ops & Hrun & _).
    exists (documents [] (Dir es)). eexists.
    split; [exact Hrun|]. split; [reflexivity|].
    set (B := fs_segs cwd BASE_DIR) in *.
    set (below := fun p => skipn (List.length B) (fs_segs cwd p)).
    rewrite Forall_forall in Hstored.
    assert (Hbelow : forall p, In p stored ->
                     fs_segs cwd p = (B ++ below p)%list).
    { intros p Hp. destruct (Hstored p Hp) as [_ [q Hq]].
      unfold below. rewrite Hq at 1. f_equal. rewrite Hq.
      rewrite skipn_app, skipn_all, Nat.sub_diag. reflexivity. }
    assert (Hmem : forall q, In q (map below stored) <->
                             In q (doc_paths (Dir es))).
    { intros q. rewrite Hdocs, in_map_iff. split.
      - intros (p & <- & Hp). exists p. split; [exact Hp | now apply Hbelow].
      - intros (p & Hp & Hq). exists p. split; [|exact Hp].
        rewrite (Hbelow p Hp) in Hq. now apply app_inv_head in Hq. }
    assert (Hnd' : NoDup (map below stored)).
    { apply NoDup_map_NoDup_ForallPairs; [|exact Hnd].
      intros a b Hp1 Hp2 E.
      destruct (Hstored a Hp1) as [E1 _], (Hstored b Hp2) as [E2 _].
      rewrite E1, E2, (Hbelow a Hp1), (Hbelow b Hp2). now rewrite E. }
    assert (Hperm : Permutation (map below stored) (doc_paths (Dir es))).
    { apply NoDup_Permutation;
        [exact Hnd' | now apply doc_paths_NoDup | exact Hmem]. }
    split; [|split].
    + rewrite <- (length_map fi_relativePath), documents_paths, length_map.
      rewrite <- (Permutation_length Hperm). apply length_map.
    + now apply relative_paths_NoDup.
    + intros rp. rewrite documents_paths, in_map_iff. split.
      * intros (q & <- & Hq). apply Hmem in Hq.
        apply in_map_iff in Hq as (p & <- & Hp). exists p.
        split; [exact Hp|]. simpl app. symmetry.
        apply relative_below; [assumption | now apply Hbelow].
      * intros (p & Hp & ->). exists (below p). split.
        -- simpl app. symmetry.
           apply relative_below; [assumption | now apply Hbelow].
        -- apply Hmem. now apply in_map.
Qed.

End Listing.

(** * The theorems at work on a small machine

    The servers run with working directory ["/"], storage root
    ["/srv/up"] and no access token, on [sample_world] and
    [empty_world]. *)

Lemma C2_upload_target_witness :
  w_res (snd (serve (Unified.upload "/" "/srv/up" "" None
                       (JObj [("filename", JStr "../../etc/passwd");
                              ("content", JStr "root")])) sample_world))
    = Some {| status := 200; json := BUpload "/srv/up/passwd" 4 |} /\
  strict_descendant (path.resolve_segs "/" ["/srv/up"])
    (path.resolve_segs "/" ["/srv/up/passwd"]) /\
  path.resolve_segs "/" ["/srv/up/passwd"] =
    (path.resolve_segs "/" ["/srv/up"] ++ ["passwd"])%list.
Proof.
  split; [reflexivity|].
  destruct (C2_upload_target "/" eq_refl "/srv/up" "" None
              (JObj [("filename", JStr "../../etc/passwd");
                     ("content", JStr "root")]) sample_world)
    as [_ H].
  destruct (H [IoMkdir "/srv/up"; IoWriteFile "/srv/up/passwd" "root"]
              "/srv/up/passwd" "root" eq_refl
              (or_intror (ex_intro _ 4 eq_refl))) as (_ & Hs & Hp).
  split; [exact Hs | apply Hp; reflexivity].
Defined.

Lemma C3_rejected_path_no_io_witness :
  Unified.upload "/" "/srv/up" "" None
    (JObj [("filename", JStr "x.drawnix"); ("dir", JStr "../..")])
    sample_world
  = (Val tt, set_res (reply 400 "Invalid path") sample_world) /\
  Unified.file "/" "/srv/up" "" None (Some "../secret") sample_world
  = (Val tt, set_res (reply 400 "Invalid path") sample_world).
Proof.
  destruct (C3_rejected_path_no_io "/" "/srv/up" "" None sample_world eq_refl)
    as (Hup & Hrd & _).
  split.
  - apply (Hup (JObj [("filename", JStr "x.drawnix"); ("dir", JStr "../..")])
             "x"%char ".drawnix" "../.."); reflexivity.
  - apply (Hrd (Some "../secret")); [discriminate | reflexivity].
Defined.

Lemma C5_write_then_read_witness :
  exists w1,
    Unified.upload "/" "/srv/up" "" None
      (JObj [("filename", JStr "a.drawnix"); ("content", JStr "X")])
      empty_world = (Val tt, w1) /\
    w_res (snd (Unified.file "/" "/srv/up" "" None (Some "a.drawnix") w1))
    = Some {| status := 200;
              json := BFile "a.drawnix" "a.drawnix" "X" |}.
Proof.
  exists (snd (Unified.upload "/" "/srv/up" "" None
                 (JObj [("filename", JStr "a.drawnix"); ("content", JStr "X")])
                 empty_world)).
  split; [reflexivity|].
  destruct (C5_write_then_read "/" eq_refl "/srv/up" "" None
              (JObj [("filename", JStr "a.drawnix"); ("content", JStr "X")])
              empty_world _ "X" "/srv/up/a.drawnix" 1
              eq_refl eq_refl eq_refl None eq_refl) as [Hrun Htext].
  rewrite <- (Htext eq_refl) at 2.
  exact (f_equal (fun r => w_res (snd r)) Hrun).
Defined.

Lemma C9_content_is_optional_witness :
  Unified.upload "/" "/srv/up" "" None
    (JObj [("filename", JStr "a.drawnix"); ("content", JNull)]) empty_world
  = (Val tt,
     after empty_world
       (Dir [("srv", Dir [("up", Dir [("a.drawnix", File "" 100%Z)])])])
       [IoMkdir "/srv/up"; IoWriteFile "/srv/up/a.drawnix" ""]
       (Some {| status := 200;
                json := BUpload "/srv/up/a.drawnix" 0 |})).
Proof.
  destruct (C9_content_is_optional_and_coerced "/" "/srv/up" "" None
              (JObj [("filename", JStr "a.drawnix"); ("content", JNull)])
              empty_world "a"%char ".drawnix" "" (w_fs empty_world)
              eq_refl eq_refl eq_refl eq_refl eq_refl)
    as (_ & _ & H & _).
  destruct (H "" eq_refl) as (_ & _ & _ & _ & Hrun).
  exact (proj1 Hrun).
Defined.


Lemma C6_list_documents_witness :
  (exists files w',
     Unified.files "/" "/srv/up" "" 3 None sample_world = (Val tt, w') /\
     w_res w' = Some {| status := 200; json := BFiles files |} /\
     NoDup (map fi_relativePath files)) /\
  (exists w files w',
     uploaded "/" "/srv/up" "" empty_world
       ["/srv/up/d/a.drawnix"; "/srv/up/b.drawnix"] w /\
     Unified.files "/" "/srv/up" "" 3 None w = (Val tt, w') /\
     w_res w' = Some {| status := 200; json := BFiles files |} /\
     List.length files = 2).
Proof.
  destruct (C6_list_documents "/" eq_refl "/srv/up" "" None eq_refl eq_refl)
    as [HI HII].
  split.
  - destruct (HI sample_world (dir_entries sample_root) 3 eq_refl eq_refl
                eq_refl)
      as (files & w' & H1 & _ & H3 & _ & _ & H6 & _).
    + simpl. lia.
    + now exists files, w'.
  - set (body1 := JObj [("filename", JStr "a.drawnix");
                        ("content", JStr "X"); ("dir", JStr "d")]).
    set (body2 := JObj [("filename", JStr "x/b.drawnix");
                        ("content", JStr "Y")]).
    set (w1 := snd (Unified.upload "/" "/srv/up" "" None body1 empty_world)).
    set (w2 := snd (Unified.upload "/" "/srv/up" "" None body2 w1)).
    assert (Hup : uploaded "/" "/srv/up" "" empty_world
                    ["/srv/up/d/a.drawnix"; "/srv/up/b.drawnix"] w2).
    { apply (uploaded_more "/" "/srv/up" "" empty_world
               ["/srv/up/d/a.drawnix"] w1 None body2 "x/b.drawnix" w2
               "/srv/up/b.drawnix" 1);
        try reflexivity.
      apply (uploaded_more "/" "/srv/up" "" empty_world
               [] empty_world None body1 "a.drawnix" w1
               "/srv/up/d/a.drawnix" 1);
        try reflexivity.
      apply uploaded_none. }
    destruct (HII empty_world w2 [] _ eq_refl eq_refl eq_refl eq_refl eq_refl
                Hup)
      as (es & Hl & _ & Hrun).
    { repeat constructor; simpl; intuition discriminate. }
    { repeat constructor. }
    vm_compute in Hl. inversion Hl; subst es. clear Hl.
    destruct (Hrun 3) as (files & w' & H1 & H2 & H3 & _).
    + simpl. lia.
    + now exists w2, files, w'.
Defined.

(** * Where the specification and the code part *)

(** C7, at a read that fails with an I/O error other than a missing
    file: [docs] is a directory, [readFile] on it throws [EISDIR], and the
    answer is [404 Not Found], not a [500]; so it is not the case that
    every I/O error of a read is answered with status [500]. *)
Lemma C7_read_io_error_is_404 :
  (fsp_readFile "/" "/srv/up/docs" sample_world
   = (Throw (IOError EISDIR),
      add_log (IoReadFile "/srv/up/docs") sample_world) /\
   w_res (snd (Unified.file "/" "/srv/up" "" None (Some "docs") sample_world))
   = Some (reply 404 "Not Found") /\
   error_kind_of "Not Found" = Some NotFound) /\
  ~ (forall (w : world) (query_path : option string) (e : errno) (w1 : world),
       fsp_readFile "/" (read_abs "/" "/srv/up" query_path) w
         = (Throw (IOError e), w1) ->
       exists msg,
         w_res (snd (Unified.file "/" "/srv/up" "" None query_path w))
         = Some (reply (kind_status ReadFailed) msg)).
Proof.
  split.
  - repeat split.
  - intros H.
    destruct (H sample_world (Some "docs") EISDIR _ eq_refl) as [msg E].
    discriminate.
Qed.

(** C5, at a [content] that holds an unpaired surrogate: the string of
    the one code unit U+D800.  The upload is answered [200] with size 3,
    what is written is U+FFFD, and the read answers U+FFFD, which is not
    the string that was uploaded; so it is not the case that every content
    string is read back as it was written. *)
Lemma C5_unpaired_surrogate_is_replaced :
  let X := String "237" (String "160" (String "128" EmptyString)) in
  let req_body := JObj [("filename", JStr "a.drawnix");
                        ("content", JStr X)] in
  let w1 := snd (Unified.upload "/" "/srv/up" "" None req_body empty_world) in
  (Unified.upload "/" "/srv/up" "" None req_body empty_world = (Val tt, w1) /\
   w_res w1
   = Some {| status := 200; json := BUpload "/srv/up/a.drawnix" 3 |} /\
   lookup (w_fs w1) ["srv"; "up"; "a.drawnix"] = inr (File U_FFFD 100%Z) /\
   path.relative "/" "/srv/up" "/srv/up/a.drawnix" = "a.drawnix" /\
   w_res (snd (Unified.file "/" "/srv/up" "" None (Some "a.drawnix") w1))
   = Some {| status := 200;
             json := BFile "a.drawnix" "a.drawnix" U_FFFD |} /\
   U_FFFD <> X) /\
  ~ (forall (req_body : value) (w w1 : world) (X p : string) (size : nat),
       get_prop req_body "content" = JStr X ->
       Unified.upload "/" "/srv/up" "" None req_body w = (Val tt, w1) ->
       w_res w1 = Some {| status := 200; json := BUpload p size |} ->
       exists name,
         w_res (snd (Unified.file "/" "/srv/up" "" None
                       (Some (path.relative "/" "/srv/up" p)) w1))
         = Some {| status := 200;
                   json := BFile name (path.relative "/" "/srv/up" p) X |}).
Proof.
  split.
  - repeat split. discriminate.
  - intros H.
    destruct (H (JObj [("filename", JStr "a.drawnix");
                       ("content",
                        JStr (String "237" (String "160"
                                (String "128" EmptyString))))])
                empty_world _ _ "/srv/up/a.drawnix" 3
                eq_refl eq_refl eq_refl) as [name E].
    vm_compute in E. discriminate.
Qed.

(** C9, at a [content] that has no string form: an object with a member
    named [toString].  [String(content)] throws a [TypeError], the answer
    is [500 Write failed], and no file is written. *)
Lemma C9_content_without_string_form :
  let content := JObj [("toString", JStr "x")] in
  let req_body := JObj [("filename", JStr "a.drawnix");
                        ("content", content)] in
  let run := Unified.upload "/" "/srv/up" "" None req_body empty_world in
  ToString content = None /\
  js_String content empty_world = (Throw TypeError, empty_world) /\
  w_res (snd run) = Some (reply 500 "Write failed") /\
  lookup (w_fs (snd run)) ["srv"; "up"; "a.drawnix"] = inl ENOENT /\
  Mock.handleUpload "/" "/srv/up" "" None (Some req_body) empty_world = run.
Proof. repeat split. Qed.

(** * Further properties of the routes *)

(** ** What the routes touch *)

Lemma not_valid_name (b : string) :
  slash_free b = true -> valid_name b = false ->
  b = "" \/ b = "." \/ b = "..".
Proof.
  intros Hs Hv.
  destruct (string_dec b "") as [|H1]; [now left|].
  destruct (string_dec b ".") as [|H2]; [now right; left|].
  destruct (string_dec b "..") as [|H3]; [now right; right|].
  assert (valid_name b = true) by (apply valid_name_spec; tauto).
  congruence.
Qed.

Lemma log_set_res (r : response) (w : world) :
  w_log (set_res r w) = (w_log w ++ [])%list.
Proof. simpl. now rewrite app_nil_r. Qed.

Section Confinement.

Variable cwd : string.
Hypothesis cwd_absolute : path.isAbsolute cwd = true.
Variable BASE_DIR : string.
Variable REQ_TOKEN : string.

(** The directory of an upload that passes the guard is the root or lies
    below it. *)
Lemma target_dir_below (filename dir_s : string) :
  isPathInside cwd BASE_DIR (target_path cwd BASE_DIR filename dir_s) = true ->
  exists q,
    fs_segs cwd (target_dir cwd BASE_DIR dir_s)
    = (fs_segs cwd BASE_DIR ++ q)%list.
Proof.
  intros Hin.
  apply isPathInside_spec in Hin as (s & r & Hsegs & _); [|assumption].
  fold (fs_segs cwd (target_path cwd BASE_DIR filename dir_s)) in Hsegs.
  fold (fs_segs cwd BASE_DIR) in Hsegs.
  rewrite target_path_segs in Hsegs by assumption.
  unfold target_dir. rewrite fs_segs_resolve by assumption.
  set (D := path.resolve_segs cwd [BASE_DIR; dir_s]) in *.
  assert (HvD : all_valid D) by (now apply resolve_segs_valid).
  pose proof (basename_slash_free filename) as Hsf.
  destruct (valid_name (path.basename filename)) eqn:Hv.
  - rewrite push_segs_name in Hsegs by assumption.
    destruct (app_tail_split _ _ _ _ _ Hsegs) as (qd & ED & _).
    now exists qd.
  - destruct (not_valid_name _ Hsf Hv) as [E | [E | E]]; rewrite E in Hsegs.
    + rewrite push_segs_skip in Hsegs by now left. now exists (s :: r).
    + rewrite push_segs_skip in Hsegs by now right. now exists (s :: r).
    + destruct D as [|d0 D0] using rev_ind.
      * rewrite push_segs_dotdot_root in Hsegs.
        now destruct (fs_segs cwd BASE_DIR).
      * rewrite push_segs_dotdot in Hsegs by assumption.
        exists ((s :: r) ++ [d0])%list. rewrite Hsegs.
        now rewrite <- app_assoc.
Qed.

(** X1.  A [POST /upload], on either server, makes at most two [fs]
    calls: first [mkdir] on the storage root or a directory below it, then
    [writeFile] on a path strictly below the root. *)
Theorem upload_io_confined :
  forall (authorization : option string) (req_body : value) (w : world),
    let run :=
      Unified.upload cwd BASE_DIR REQ_TOKEN authorization req_body w in
    Mock.handleUpload cwd BASE_DIR REQ_TOKEN authorization (Some req_body) w
      = run /\
    (w_log (snd run) = w_log w \/
     exists dir q,
       fs_segs cwd dir = (fs_segs cwd BASE_DIR ++ q)%list /\
       (w_log (snd run) = (w_log w ++ [IoMkdir dir])%list \/
        exists p data s r,
          w_log (snd run) = (w_log w ++ [IoMkdir dir; IoWriteFile p data])%list /\
          fs_segs cwd p = (fs_segs cwd BASE_DIR ++ s :: r)%list)).
Proof.
  intros authorization req_body w run.
  split; [apply mock_handleUpload|].
  pose proof (upload_cases cwd BASE_DIR REQ_TOKEN authorization req_body w)
    as H.
  fold run in H.
  inversion H as [ H1 | H1 H2 | c f H1 H2 H3 | c f d H1 H2 H3 H4
                 | c f d e H1 H2 H3 H4 H5 | c f d fs1 H1 H2 H3 H4 H5 H6
                 | c f d fs1 dt e H1 H2 H3 H4 H5 H6 H7
                 | c f d fs1 dt fs2 H1 H2 H3 H4 H5 H6 H7 ];
    simpl snd; try (left; reflexivity); right;
    destruct (target_dir_below _ _ H4) as [q Hq];
    exists (target_dir cwd BASE_DIR d), q; (split; [exact Hq|]);
    try (left; reflexivity); right;
    destruct (isPathInside_strict cwd cwd_absolute _ _ H4) as (s & r & Hs);
    exists (target_path cwd BASE_DIR (String c f) d), dt, s, r;
    (split; [reflexivity | exact Hs]).
Qed.

(** X2.  A [GET /file], on either server, never changes the tree, and
    makes at most one [fs] call: a [readFile] on a path strictly below the
    storage root. *)
Theorem read_is_confined_and_read_only :
  forall (authorization query_path : option string) (w : world),
    let run :=
      Unified.file cwd BASE_DIR REQ_TOKEN authorization query_path w in
    Mock.handleReadFile cwd BASE_DIR REQ_TOKEN authorization query_path w
      = run /\
    w_fs (snd run) = w_fs w /\
    (w_log (snd run) = w_log w \/
     exists p s r,
       w_log (snd run) = (w_log w ++ [IoReadFile p])%list /\
       fs_segs cwd p = (fs_segs cwd BASE_DIR ++ s :: r)%list).
Proof.
  intros authorization query_path w run.
  split; [apply mock_handleReadFile|].
  pose proof (file_cases cwd BASE_DIR REQ_TOKEN authorization query_path w)
    as H.
  fold run in H.
  inversion H as [ H1 | H1 H2 | H1 H2 H3 | H1 H2 H3 H4 | ct m H1 H2 H3 H4 ];
    simpl snd; (split; [reflexivity|]); try (left; reflexivity); right;
    destruct (isPathInside_strict cwd cwd_absolute _ _ H3) as (s & r & Hs);
    exists (read_abs cwd BASE_DIR query_path), s, r;
    (split; [reflexivity | exact Hs]).
Qed.

End Confinement.

(** ** What an upload leaves alone *)

Section Frame.

Variable cwd : string.
Variable BASE_DIR : string.
Variable REQ_TOKEN : string.



End Frame.

(** ** The storage root: absent, misconfigured, or a directory *)

(** [mkdir -p] of a missing path creates it, empty. *)
Lemma mkdir_p_missing (ps : list string) :
  forall n,
    lookup n ps = inl ENOENT ->
    exists n', mkdir_p n ps = inr n' /\ lookup n' ps = inr (Dir []).
Proof.
  induction ps as [|p ps IH]; intros n Hl; [discriminate|].
  destruct n as [ct m | es | t]; try discriminate.
  rewrite lookup_Dir_cons in Hl. simpl mkdir_p.
  destruct (assoc p es) as [c|] eqn:Ea.
  - destruct (IH c Hl) as (c' & Hmk & Hl'). rewrite Hmk.
    eexists. split; [reflexivity|].
    rewrite lookup_Dir_cons, assoc_set_entry_same. exact Hl'.
  - eexists. split; [reflexivity|].
    rewrite lookup_Dir_cons, assoc_set_entry_same. apply lookup_fresh_dirs.
Qed.

(** [mkdir -p] cannot pass through a regular file. *)
Lemma mkdir_p_through_file (R : list string) :
  forall n ct m q,
    lookup n R = inr (File ct m) -> exists e, mkdir_p n (R ++ q)%list = inl e.
Proof.
  induction R as [|x R IH]; intros n ct m q Hl.
  - simpl in Hl. inversion Hl; subst n. destruct q; eexists; reflexivity.
  - destruct n as [ct0 m0 | es | t]; try discriminate.
    rewrite lookup_Dir_cons in Hl. simpl.
    destruct (assoc x es) as [c|]; [|discriminate].
    destruct (IH c ct m q Hl) as [e He]. rewrite He. now exists e.
Qed.

(** Writing a file directly in an existing directory: it fails exactly on
    a directory or a symbolic link of that name. *)
Lemma write_at_child (R : list string) (k d : string) (t : Z) :
  forall n es,
    lookup n R = inr (Dir es) ->
    match assoc k es with
    | Some (Dir _) | Some (Symlink _) =>
        exists e, write_at n (R ++ [k])%list d t = inl e
    | _ => exists n', write_at n (R ++ [k])%list d t = inr n'
    end.
Proof.
  induction R as [|x R IH]; intros n es Hl.
  - simpl in Hl. inversion Hl; subst n. simpl.
    destruct (assoc k es) as [[ct m | es' | tg]|]; eexists; reflexivity.
  - destruct n as [ct0 m0 | es0 | t0]; try discriminate.
    rewrite lookup_Dir_cons in Hl.
    destruct (assoc x es0) as [c|] eqn:Ea; [|discriminate].
    specialize (IH c es Hl).
    change ((x :: R) ++ [k])%list with (x :: (R ++ [k]))%list.
    assert (Hw : write_at (Dir es0) (x :: (R ++ [k])%list) d t =
                 match write_at c (R ++ [k])%list d t with
                 | inr c' => inr (Dir (set_entry x c' es0))
                 | inl e => inl e
                 end).
    { simpl. destruct (R ++ [k])%list eqn:E.
      - now destruct R.
      - now rewrite Ea. }
    rewrite Hw.
    destruct (assoc k es) as [[ct m | es' | tg]|];
      destruct IH as [r Hr]; rewrite Hr; eexists; reflexivity.
Qed.

Section StorageRoot.

Variable cwd : string.
Hypothesis cwd_absolute : path.isAbsolute cwd = true.
Variable BASE_DIR : string.
Variable REQ_TOKEN : string.

(** What a [200] answer of [POST /upload] tells. *)
Lemma upload_stored_run (authorization : option string) (req_body : value)
  (w w1 : world) (p : string) (size : nat) :
  Unified.upload cwd BASE_DIR REQ_TOKEN authorization req_body w
    = (Val tt, w1) ->
  w_res w1 = Some {| status := 200; json := BUpload p size |} ->
  exists c f dir_s fs1 data,
    upload_field req_body "filename" = JStr (String c f) /\
    p = target_path cwd BASE_DIR (String c f) dir_s /\
    isPathInside cwd BASE_DIR p = true /\
    mkdir_p (w_fs w) (fs_segs cwd (target_dir cwd BASE_DIR dir_s))
      = inr fs1 /\
    ToString (upload_field req_body "content") = Some data /\
    size = byteLength data /\
    write_at fs1 (fs_segs cwd p) (Buffer_from data) (w_now w)
      = inr (w_fs w1).
Proof.
  intros Hup Hres.
  pose proof (upload_cases cwd BASE_DIR REQ_TOKEN authorization req_body w)
    as H.
  rewrite Hup in H.
  inversion H; subst; simpl in Hres; try discriminate.
  inversion Hres; subst. exists c, f, dir_s, fs1, data. now repeat split.
Qed.

(** X4.  An upload directly into an existing storage root ([dir] absent or
    empty) under a name that is no symbolic link there, and whose path is
    within the limits of the platform, is stored exactly when the last
    segment of [filename] is a name (not empty, not ["."]) that does not
    begin with [".."], and the root holds no directory of that name.  It
    is then stored under that name in the root, in UTF-8, replacing the
    regular file that was there, if any. *)
Theorem top_level_upload_stored_iff :
  forall (authorization : option string) (req_body : value) (w : world)
         (c : ascii) (f data : string) (es : list (string * node)),
    auth_ok REQ_TOKEN authorization = true ->
    upload_field req_body "filename" = JStr (String c f) ->
    dir_string req_body = Some "" ->
    ToString (upload_field req_body "content") = Some data ->
    lookup (w_fs w) (fs_segs cwd BASE_DIR) = inr (Dir es) ->
    let name := path.basename (String c f) in
    (forall t, assoc name es <> Some (Symlink t)) ->
    platform_path (target_path cwd BASE_DIR (String c f) "") = true ->
    let w1 :=
      snd (Unified.upload cwd BASE_DIR REQ_TOKEN authorization req_body w) in
    ((exists p size,
        w_res w1 = Some {| status := 200; json := BUpload p size |}) <->
     (name <> "" /\ name <> "." /\ startsWith name ".." = false /\
      (forall es', assoc name es <> Some (Dir es')))) /\
    (forall p size,
       w_res w1 = Some {| status := 200; json := BUpload p size |} ->
       p = "/" ++ path.join_segs (fs_segs cwd BASE_DIR ++ [name]) /\
       size = byteLength data /\
       lookup (w_fs w1) (fs_segs cwd BASE_DIR ++ [name])
         = inr (File (Buffer_from data) (w_now w))).
Proof.
  intros authorization req_body w c f data es Ha Hf Hd Hc Hl name Hns _ w1.
  set (R := fs_segs cwd BASE_DIR) in *.
  assert (Hsf : slash_free name = true) by apply basename_slash_free.
  assert (HT : fs_segs cwd (target_dir cwd BASE_DIR "") = R).
  { unfold target_dir. rewrite fs_segs_resolve by assumption.
    apply base_segs_with_empty_dir; assumption. }
  assert (HP : fs_segs cwd (target_path cwd BASE_DIR (String c f) "")
               = push_segs R [name]).
  { rewrite target_path_segs by assumption.
    now rewrite base_segs_with_empty_dir by assumption. }
  assert (Hstr : target_path cwd BASE_DIR (String c f) ""
                 = "/" ++ path.join_segs
                            (fs_segs cwd (target_path cwd BASE_DIR (String c f) ""))).
  { unfold target_path at 1. rewrite resolve_string by assumption.
    unfold target_path. now rewrite fs_segs_resolve by assumption. }
  (* the run, by the guard *)
  destruct (isPathInside cwd BASE_DIR (target_path cwd BASE_DIR (String c f) ""))
    eqn:Hin.
  2:{ assert (Hrun : w1 = set_res (reply 400 "Invalid path") w).
      { subst w1. now rewrite (rejected_upload cwd BASE_DIR REQ_TOKEN
                                 authorization req_body w c f "") by assumption. }
      split.
      - split.
        + intros (p & size & Hres). rewrite Hrun in Hres. discriminate.
        + intros (H1 & H2 & H3 & _). exfalso.
          assert (Hv : valid_name name = true).
          { apply valid_name_spec. repeat split; try assumption.
            intros E. rewrite E in H3. discriminate. }
          assert (isPathInside cwd BASE_DIR
                    (target_path cwd BASE_DIR (String c f) "") = true).
          { apply isPathInside_spec; [assumption|].
            exists name, []. split; [|exact H3].
            fold (fs_segs cwd (target_path cwd BASE_DIR (String c f) "")).
            fold (fs_segs cwd BASE_DIR). fold R.
            rewrite HP. now apply push_segs_name. }
          congruence.
      - intros p size Hres. rewrite Hrun in Hres. discriminate. }
  (* the guard passed: the name is valid and does not begin with ".." *)
  pose proof Hin as Hspec.
  apply isPathInside_spec in Hspec as (s & r & Hsegs & Hdd); [|assumption].
  fold (fs_segs cwd (target_path cwd BASE_DIR (String c f) "")) in Hsegs.
  fold (fs_segs cwd BASE_DIR) in Hsegs. fold R in Hsegs.
  rewrite HP in Hsegs.
  assert (HvR : all_valid R) by (now apply resolve_segs_valid).
  assert (Hv : valid_name name = true).
  { destruct (valid_name name) eqn:Hv; [reflexivity | exfalso].
    destruct (not_valid_name _ Hsf Hv) as [E | [E | E]]; rewrite E in Hsegs.
    - rewrite push_segs_skip in Hsegs by now left.
      apply (f_equal (@List.length string)) in Hsegs.
      rewrite length_app in Hsegs. simpl in Hsegs. lia.
    - rewrite push_segs_skip in Hsegs by now right.
      apply (f_equal (@List.length string)) in Hsegs.
      rewrite length_app in Hsegs. simpl in Hsegs. lia.
    - destruct R as [|r0 R0] using rev_ind.
      + rewrite push_segs_dotdot_root in Hsegs. discriminate.
      + rewrite push_segs_dotdot in Hsegs by assumption.
        apply (f_equal (@List.length string)) in Hsegs.
        rewrite !length_app in Hsegs. simpl in Hsegs. lia. }
  rewrite push_segs_name in Hsegs by assumption.
  assert (Es : s = name /\ r = []).
  { apply app_inv_head in Hsegs. now inversion Hsegs. }
  destruct Es as [-> ->]. clear Hsegs.
  rewrite push_segs_name in HP by assumption.
  apply valid_name_spec in Hv as Hv'. destruct Hv' as (Hn1 & Hn2 & _ & _).
  (* mkdir leaves the tree as it is, the write decides *)
  pose proof (upload_run_content cwd BASE_DIR REQ_TOKEN authorization req_body
                w c f "" (w_fs w) Ha Hf Hd Hin) as Hrun.
  rewrite HT, (mkdir_p_existing _ _ _ Hl) in Hrun.
  specialize (Hrun eq_refl). rewrite Hc, HP in Hrun.
  pose proof (write_at_child R name (Buffer_from data) (w_now w) (w_fs w) es
                Hl) as Hw.
  fold name in Hrun.
  destruct (write_at (w_fs w) (R ++ [name])%list (Buffer_from data) (w_now w))
    as [e | fs2] eqn:Ew.
  - assert (Hres : w_res w1 = Some (reply 500 "Write failed"))
      by (subst w1; now rewrite Hrun).
    split.
    + split.
      * intros (p & size & Hp). rewrite Hres in Hp. discriminate.
      * intros (_ & _ & _ & Hnd). exfalso.
        destruct (assoc name es) as [[ct m | es' | tg]|].
        -- destruct Hw as [n' Hn']. discriminate.
        -- now apply (Hnd es').
        -- now apply (Hns tg).
        -- destruct Hw as [n' Hn']. discriminate.
    + intros p size Hp. rewrite Hres in Hp. discriminate.
  - assert (Hres : w_res w1
                   = Some {| status := 200;
                             json := BUpload
                                       (target_path cwd BASE_DIR (String c f) "")
                                       (byteLength data) |})
      by (subst w1; now rewrite Hrun).
    assert (Hfs : w_fs w1 = fs2) by (subst w1; now rewrite Hrun).
    split.
    + split; [intros _ | intros _; eauto].
      repeat split; try assumption.
      intros es' E. rewrite E in Hw. destruct Hw as [e He]. discriminate.
    + intros p size Hp. rewrite Hres in Hp. inversion Hp; subst p size.
      split; [|split; [reflexivity|]].
      * rewrite Hstr at 1. now rewrite HP.
      * rewrite Hfs. now apply (lookup_write_at _ _ _ _ _ Ew).
Qed.

(** X5.  [GET /files] on a machine where the storage root does not exist
    yet creates it and answers with the empty list, on either server;
    every file that was on the machine is still there. *)
Theorem list_creates_missing_root :
  forall (authorization : option string) (w : world) (fuel : nat),
    auth_ok REQ_TOKEN authorization = true ->
    lookup (w_fs w) (fs_segs cwd BASE_DIR) = inl ENOENT ->
    let run :=
      Unified.files cwd BASE_DIR REQ_TOKEN (S fuel) authorization w in
    Mock.handleListFiles cwd BASE_DIR REQ_TOKEN (S fuel) authorization w
      = run /\
    fst run = Val tt /\
    w_res (snd run) = Some {| status := 200; json := BFiles [] |} /\
    w_log (snd run) = (w_log w ++ [IoMkdir BASE_DIR; IoReaddir BASE_DIR])%list /\
    lookup (w_fs (snd run)) (fs_segs cwd BASE_DIR) = inr (Dir []) /\
    (forall q ct m,
       lookup (w_fs (snd run)) q = inr (File ct m) <->
       lookup (w_fs w) q = inr (File ct m)).
Proof.
  intros authorization w fuel Ha Hl run.
  split; [apply mock_handleListFiles|].
  destruct (mkdir_p_missing _ _ Hl) as (fs1 & Hmk & Hl1).
  assert (Hrun : run = (Val tt,
                        after w fs1 [IoMkdir BASE_DIR; IoReaddir BASE_DIR]
                          (Some {| status := 200; json := BFiles [] |}))).
  { subst run. rewrite files_run by assumption. rewrite Hmk.
    rewrite listDrawnixFiles_S. unfold bind at 1.
    rewrite (run_readdir cwd BASE_DIR _ []) by exact Hl1.
    simpl. unfold ret, after, add_logs, set_res. simpl.
    now rewrite <- app_assoc. }
  rewrite Hrun. simpl. repeat split; try assumption.
  - now apply (lookup_file_mkdir_p _ _ _ Hmk).
  - now apply (lookup_file_mkdir_p _ _ _ Hmk).
Qed.

(** X6.  When the path configured as storage root is a regular file, no
    upload is ever stored and every authorized listing fails with [500],
    on either server; neither request changes the tree. *)
Theorem root_is_a_regular_file :
  forall (w : world) (ct : string) (m : Z),
    lookup (w_fs w) (fs_segs cwd BASE_DIR) = inr (File ct m) ->
    (forall authorization req_body,
       let run :=
         serve (Unified.upload cwd BASE_DIR REQ_TOKEN authorization req_body)
           w in
       serve (Mock.handleUpload cwd BASE_DIR REQ_TOKEN authorization
                (Some req_body)) w = run /\
       w_fs (snd run) = w_fs w /\
       forall p size,
         w_res (snd run) <> Some {| status := 200; json := BUpload p size |}) /\
    (forall authorization fuel,
       auth_ok REQ_TOKEN authorization = true ->
       let run := Unified.files cwd BASE_DIR REQ_TOKEN fuel authorization w in
       Mock.handleListFiles cwd BASE_DIR REQ_TOKEN fuel authorization w = run /\
       w_fs (snd run) = w_fs w /\
       w_res (snd run) = Some (reply 500 "List failed")).
Proof.
  intros w ct m Hl. split.
  - intros authorization req_body run.
    split; [apply mock_handleUpload|].
    pose proof (upload_cases cwd BASE_DIR REQ_TOKEN authorization req_body
                  {| w_fs := w_fs w; w_now := w_now w; w_log := w_log w;
                     w_res := None |}) as H.
    change (Unified.upload cwd BASE_DIR REQ_TOKEN authorization req_body _)
      with run in H.
    assert (Hno : forall c f d fs1,
              isPathInside cwd BASE_DIR (target_path cwd BASE_DIR (String c f) d)
                = true ->
              mkdir_p (w_fs w) (fs_segs cwd (target_dir cwd BASE_DIR d))
                = inr fs1 -> False).
    { intros c f d fs1 Hin Hmk.
      destruct (target_dir_below cwd cwd_absolute BASE_DIR _ _ Hin) as [q Hq].
      rewrite Hq in Hmk.
      destruct (mkdir_p_through_file _ _ _ _ q Hl) as [e He]. congruence. }
    inversion H as [ H1 | H1 H2 | c f H1 H2 H3 | c f d H1 H2 H3 H4
                   | c f d e H1 H2 H3 H4 H5 | c f d fs1 H1 H2 H3 H4 H5 H6
                   | c f d fs1 dt e H1 H2 H3 H4 H5 H6 H7
                   | c f d fs1 dt fs2 H1 H2 H3 H4 H5 H6 H7 ];
      simpl in *;
      try (exfalso; now apply (Hno c f d fs1));
      (split; [reflexivity | intros p size; discriminate]).
  - intros authorization fuel Ha run.
    split; [apply mock_handleListFiles|].
    subst run. rewrite files_run by assumption.
    destruct (mkdir_p_through_file _ _ _ _ [] Hl) as [e He].
    rewrite app_nil_r in He. rewrite He. now split.
Qed.

End StorageRoot.

(** ** The listing after an upload *)

Section ListAfterUpload.

Variable cwd : string.
Hypothesis cwd_absolute : path.isAbsolute cwd = true.
Variable BASE_DIR : string.
Variable REQ_TOKEN : string.

(** The path of a regular file named [*.drawnix] in a well-formed tree is
    made of valid names. *)
Lemma document_path_valid (n : node) (q : list string) (k ct : string)
  (m : Z) :
  wf_node n = true -> lookup n (q ++ [k]) = inr (File ct m) ->
  endsWith k ".drawnix" = true -> all_valid (q ++ [k]).
Proof.
  intros Hwf Hl Hk.
  apply (doc_paths_valid n (q ++ [k]) Hwf).
  apply doc_paths_spec; [assumption|]. now exists q, k, ct, m.
Qed.

(** X7.  After a document (a file named [*.drawnix]) has been stored by
    [POST /upload] in a well-formed storage root without symbolic links,
    root and path being within the limits of the platform, [GET /files]
    lists it with the name, relative path, directory, size and time of
    that upload, and besides it exactly the entries it listed before,
    except the one the upload replaced. *)
Theorem upload_then_list :
  forall (authorization reader : option string) (req_body : value)
         (w w1 : world) (f p : string) (size : nat)
         (es : list (string * node)),
    lookup (w_fs w) (fs_segs cwd BASE_DIR) = inr (Dir es) ->
    wf_node (Dir es) = true ->
    without_symlinks (Dir es) = Dir es ->
    platform_path BASE_DIR = true ->
    platform_tree (room_below BASE_DIR) (Dir es) = true ->
    upload_field req_body "filename" = JStr f ->
    endsWith (path.basename f) ".drawnix" = true ->
    Unified.upload cwd BASE_DIR REQ_TOKEN authorization req_body w
      = (Val tt, w1) ->
    w_res w1 = Some {| status := 200; json := BUpload p size |} ->
    storable cwd BASE_DIR p = true ->
    auth_ok REQ_TOKEN reader = true ->
    let rel := path.relative cwd BASE_DIR p in
    let entry := {| fi_name := path.basename f;
                    fi_relativePath := rel;
                    fi_dir := if path.dirname rel =? "." then ""
                              else path.dirname rel;
                    fi_size := size;
                    fi_mtime := w_now w |} in
    exists fuel0,
      forall fuel, fuel0 <= fuel ->
        exists listed0 listed1 w0' w1',
          Unified.files cwd BASE_DIR REQ_TOKEN fuel reader w = (Val tt, w0') /\
          w_res w0' = Some {| status := 200; json := BFiles listed0 |} /\
          Unified.files cwd BASE_DIR REQ_TOKEN fuel reader w1 = (Val tt, w1') /\
          w_res w1' = Some {| status := 200; json := BFiles listed1 |} /\
          (forall e,
             In e listed1 <->
             e = entry \/ (In e listed0 /\ fi_relativePath e <> rel)).
Proof.
  intros authorization reader req_body w w1 f p size es Hl Hwf _ _ _ Hf Hext
    Hup Hres _ Hrd rel entry.
  destruct (upload_stored_run cwd BASE_DIR REQ_TOKEN _ _ _ _ _ _ Hup Hres)
    as (c & f0 & dir_s & fs1 & data & Hf' & Ep & Hin & Hmk & _ & Esize & Hw).
  rewrite Hf in Hf'. inversion Hf'; subst f. clear Hf'.
  set (name := path.basename (String c f0)) in *.
  set (B := fs_segs cwd BASE_DIR) in *.
  assert (Hname : valid_name name = true)
    by (apply document_name_valid; [apply basename_slash_free | exact Hext]).
  set (T := path.resolve_segs cwd [BASE_DIR; dir_s]).
  assert (HT : fs_segs cwd (target_dir cwd BASE_DIR dir_s) = T)
    by (now apply fs_segs_resolve).
  assert (Hp : fs_segs cwd p = (T ++ [name])%list).
  { rewrite Ep, target_path_segs by assumption. now apply push_segs_name. }
  apply isPathInside_spec in Hin as (s & r & Hsegs & _); [|assumption].
  fold (fs_segs cwd p) in Hsegs. fold (fs_segs cwd BASE_DIR) in Hsegs.
  fold B in Hsegs. rewrite Hp in Hsegs.
  destruct (app_tail_split _ _ _ _ _ Hsegs) as (qd & ET & Eq).
  assert (HvT : all_valid T) by (now apply resolve_segs_valid).
  assert (Hvqd : all_valid qd).
  { rewrite ET in HvT. now apply all_valid_app in HvT. }
  assert (Hvq : all_valid (qd ++ [name])).
  { apply all_valid_app. split; [exact Hvqd | now repeat constructor]. }
  assert (Hpq : fs_segs cwd p = (B ++ (qd ++ [name]))%list)
    by (now rewrite Hp, ET, app_assoc).
  rewrite HT, ET in Hmk.
  destruct (mkdir_p_below _ _ _ _ _ Hl Hmk) as (r1 & Hmk1 & Hl1).
  rewrite Hpq in Hw.
  destruct (write_at_below _ _ _ _ _ _ _ (@app_cons_not_nil _ qd name) Hl1 Hw)
    as (r2 & Hw2 & Hl2).
  pose proof (wf_mkdir_p _ _ _ Hwf Hvqd Hmk1) as Hwf1.
  pose proof (wf_write_at _ _ _ _ _ Hwf1 Hvq Hw2) as Hwf2.
  destruct (write_at_Dir _ _ _ _ _ Hw2) as [es2 ->].
  (* the entry of the upload, read off the tree *)
  assert (Erel : rel = path.join_segs (qd ++ [name])).
  { subst rel. now apply relative_below. }
  assert (Eentry : entry = {| fi_name := name;
                              fi_relativePath := path.join_segs (qd ++ [name]);
                              fi_dir := path.join_segs qd;
                              fi_size := String.length (Buffer_from data);
                              fi_mtime := w_now w |}).
  { subst entry. rewrite Erel, dirname_join_segs by assumption.
    now rewrite Esize, length_Buffer_from. }
  exists (Nat.max (depth (Dir es)) (depth (Dir es2))).
  intros fuel Hfuel.
  destruct (files_run_ok cwd cwd_absolute BASE_DIR REQ_TOKEN fuel reader w es
              Hrd Hl Hwf) as (ops0 & Hrun0 & _); [lia|].
  destruct (files_run_ok cwd cwd_absolute BASE_DIR REQ_TOKEN fuel reader w1 es2
              Hrd Hl2 Hwf2) as (ops1 & Hrun1 & _); [lia|].
  eexists (documents [] (Dir es)), (documents [] (Dir es2)), _, _.
  split; [exact Hrun0|]. split; [reflexivity|].
  split; [exact Hrun1|]. split; [reflexivity|].
  intros e. rewrite (documents_spec _ Hwf2), (documents_spec _ Hwf).
  rewrite Eentry, Erel. simpl app. split.
  - intros (q & k & ct & m & Hfile & Hk & ->).
    apply (lookup_file_write_at _ _ _ _ _ Hw2) in Hfile
      as [(Hq & -> & ->) | (Hne & Hfile)].
    + apply app_inj_tail in Hq as [-> ->]. now left.
    + apply (lookup_file_mkdir_p _ _ _ Hmk1) in Hfile. right. split.
      * now exists q, k, ct, m.
      * simpl. intros E. apply Hne.
        apply join_segs_inj; try assumption; try apply app_cons_not_nil.
        now apply (document_path_valid (Dir es) q k ct m).
  - intros [-> | ((q & k & ct & m & Hfile & Hk & ->) & Hne)].
    + exists qd, name, (Buffer_from data), (w_now w).
      repeat split; try assumption.
      now apply (lookup_write_at _ _ _ _ _ Hw2).
    + exists q, k, ct, m. repeat split; try assumption.
      apply (lookup_file_write_at _ _ _ _ _ Hw2). right. split.
      * intros E. apply Hne. simpl. now rewrite E.
      * now apply (lookup_file_mkdir_p _ _ _ Hmk1).
Qed.

End ListAfterUpload.

(** ** The query string of the mock server *)

Lemma ParseHexOctet_escape (c : ascii) :
  ParseHexOctet (hex_digit (nat_of_ascii c / 16))
    (hex_digit (nat_of_ascii c mod 16)) = Some c.
Proof.
  destruct c as [[] [] [] [] [] [] [] []]; reflexivity.
Qed.

Lemma unreserved_is_plain (c : ascii) :
  uriUnreserved c = true ->
  Ascii.eqb c "%" = false /\ Ascii.eqb c "&" = false /\
  Ascii.eqb c "=" = false /\ Ascii.eqb c "?" = false.
Proof.
  destruct c as [[] [] [] [] [] [] [] []]; vm_compute; intros H;
    try discriminate; repeat split.
Qed.

Lemma escape_is_plain (c : ascii) : plain_value (percent_escape c).
Proof.
  destruct c as [[] [] [] [] [] [] [] []]; vm_compute; repeat constructor.
Qed.

(** The steps of [decode_loop] on an escape written by [percent_escape]. *)
Lemma decode_plain (c : ascii) (rest : string) :
  Ascii.eqb c "%" = false ->
  decode_loop (String c rest) [] 0
  = option_map (String c) (decode_loop rest [] 0).
Proof. intros H. simpl. now rewrite H. Qed.

Lemma decode_escape (c : ascii) (rest : string) :
  decode_loop (percent_escape c ++ rest) [] 0 =
  match leading_ones (nat_of_ascii c) with
  | 0 => option_map (String c) (decode_loop rest [] 0)
  | 2 => decode_loop rest [c] 1
  | 3 => decode_loop rest [c] 2
  | 4 => decode_loop rest [c] 3
  | _ => None
  end.
Proof.
  unfold percent_escape.
  change (decode_loop
            (String "%" (String (hex_digit (nat_of_ascii c / 16))
                           (String (hex_digit (nat_of_ascii c mod 16)) rest)))
            [] 0 = match leading_ones (nat_of_ascii c) with
                   | 0 => option_map (String c) (decode_loop rest [] 0)
                   | 2 => decode_loop rest [c] 1
                   | 3 => decode_loop rest [c] 2
                   | 4 => decode_loop rest [c] 3
                   | _ => None
                   end).
  cbn [decode_loop]. change (Ascii.eqb "%" "%") with true. cbv iota.
  now rewrite ParseHexOctet_escape.
Qed.

Lemma decode_continuation (c : ascii) (rest : string) (octets : list ascii)
  (need : nat) :
  decode_loop (percent_escape c ++ rest) octets (S need) =
  match need with
  | O =>
      if utf8_code_point (octets ++ [c]) then
        option_map (append (string_of_list_ascii (octets ++ [c])))
          (decode_loop rest [] 0)
      else None
  | S _ => decode_loop rest (octets ++ [c]) need
  end.
Proof.
  unfold percent_escape.
  change (String "%" (String (hex_digit (nat_of_ascii c / 16))
                        (String (hex_digit (nat_of_ascii c mod 16)) "")) ++ rest)
    with (String "%" (String (hex_digit (nat_of_ascii c / 16))
                        (String (hex_digit (nat_of_ascii c mod 16)) rest))).
  cbn [decode_loop]. change (Ascii.eqb "%" "%") with true. cbv iota.
  now rewrite ParseHexOctet_escape.
Qed.

Lemma unreserved_is_ascii (c : ascii) :
  uriUnreserved c = true -> (nat_of_ascii c <? 128)%nat = true.
Proof.
  destruct c as [[] [] [] [] [] [] [] []]; vm_compute; intros H;
    try discriminate; reflexivity.
Qed.

Lemma encode_cons (c : ascii) (s : string) :
  encodeURIComponent (String c s) =
  (if uriUnreserved c then String c "" else percent_escape c)
  ++ encodeURIComponent s.
Proof. reflexivity. Qed.

Lemma leading_ones_of (b n : nat) :
  match n with
  | 0 => b < 128
  | 1 => 128 <= b < 192
  | 2 => 192 <= b < 224
  | 3 => 224 <= b < 240
  | 4 => 240 <= b < 248
  | _ => False
  end ->
  leading_ones b = n.
Proof.
  unfold leading_ones.
  destruct (Nat.ltb_spec b 128), (Nat.ltb_spec b 192), (Nat.ltb_spec b 224),
    (Nat.ltb_spec b 240), (Nat.ltb_spec b 248);
    do 5 (try destruct n as [|n]); intros; try reflexivity; try lia;
    contradiction.
Qed.

Lemma high_octet_escaped (c : ascii) :
  (nat_of_ascii c <? 128)%nat = false -> uriUnreserved c = false.
Proof.
  intros H. destruct (uriUnreserved c) eqn:E; [|reflexivity].
  apply unreserved_is_ascii in E. congruence.
Qed.

(** [decodeURIComponent] undoes [encodeURIComponent] on well-formed
    text. *)
Lemma decode_encode_upto (n : nat) :
  forall s, String.length s <= n -> utf8_text s = true ->
            decodeURIComponent (encodeURIComponent s) = Some s.
Proof.
  unfold decodeURIComponent.
  induction n as [|n IH]; intros s Hlen Hwf.
  { destruct s; [reflexivity | simpl in Hlen; lia]. }
  destruct s as [|c0 s1]; [reflexivity|].
  simpl in Hlen. rewrite encode_cons.
  cbn [utf8_text] in Hwf.
  destruct (nat_of_ascii c0 <? 128)%nat eqn:E0.
  { destruct (uriUnreserved c0) eqn:Eu.
    - apply unreserved_is_plain in Eu as (Hp & _).
      change (String c0 "" ++ encodeURIComponent s1)
        with (String c0 (encodeURIComponent s1)).
      rewrite decode_plain by assumption. rewrite IH by (assumption || lia).
      reflexivity.
    - rewrite decode_escape. apply Nat.ltb_lt in E0.
      rewrite (leading_ones_of _ 0) by assumption.
      rewrite IH by (assumption || lia). reflexivity. }
  rewrite (high_octet_escaped _ E0).
  destruct s1 as [|c1 s2]; [discriminate|].
  simpl in Hlen. rewrite encode_cons.
  assert (E1 : uriUnreserved c1 = false).
  { apply high_octet_escaped.
    destruct (utf8_code_point [c0; c1]) eqn:H2.
    - rewrite utf8_2 in H2. arith_of_bool.
      apply Nat.ltb_ge. lia.
    - destruct s2 as [|c2 s3]; [discriminate|].
      destruct (utf8_code_point [c0; c1; c2]) eqn:H3.
      + rewrite utf8_3 in H3; cbv zeta in H3. arith_of_bool;
          apply Nat.ltb_ge; lia.
      + destruct s3 as [|c3 s4]; [discriminate|].
        apply andb_true_iff in Hwf as [H4 _].
        rewrite utf8_4 in H4; cbv zeta in H4. arith_of_bool;
          apply Nat.ltb_ge; lia. }
  rewrite E1.
  destruct (utf8_code_point [c0; c1]) eqn:H2.
  { rewrite decode_escape.
    rewrite (leading_ones_of _ 2)
      by (rewrite utf8_2 in H2; arith_of_bool; lia).
    rewrite decode_continuation. simpl app. rewrite H2.
    rewrite IH by (assumption || lia). reflexivity. }
  destruct s2 as [|c2 s3]; [discriminate|].
  simpl in Hlen. rewrite encode_cons.
  assert (E2 : uriUnreserved c2 = false).
  { apply high_octet_escaped.
    destruct (utf8_code_point [c0; c1; c2]) eqn:H3.
    - rewrite utf8_3 in H3; cbv zeta in H3. arith_of_bool;
        apply Nat.ltb_ge; lia.
    - destruct s3 as [|c3 s4]; [discriminate|].
      apply andb_true_iff in Hwf as [H4 _].
      rewrite utf8_4 in H4; cbv zeta in H4. arith_of_bool;
        apply Nat.ltb_ge; lia. }
  rewrite E2.
  destruct (utf8_code_point [c0; c1; c2]) eqn:H3.
  { rewrite decode_escape.
    rewrite (leading_ones_of _ 3)
      by (rewrite utf8_3 in H3; cbv zeta in H3; arith_of_bool; lia).
    rewrite !decode_continuation. simpl app. rewrite H3.
    rewrite IH by (assumption || lia). reflexivity. }
  destruct s3 as [|c3 s4]; [discriminate|].
  simpl in Hlen. rewrite encode_cons.
  apply andb_true_iff in Hwf as [H4 Hwf].
  assert (E3 : uriUnreserved c3 = false).
  { apply high_octet_escaped.
    rewrite utf8_4 in H4; cbv zeta in H4. arith_of_bool;
      apply Nat.ltb_ge; lia. }
  rewrite E3. rewrite decode_escape.
  rewrite (leading_ones_of _ 4)
    by (rewrite utf8_4 in H4; cbv zeta in H4; arith_of_bool; lia).
  rewrite !decode_continuation. simpl app. rewrite H4.
  rewrite IH by (assumption || lia). reflexivity.
Qed.

Lemma decode_encode (s : string) :
  utf8_text s = true -> decodeURIComponent (encodeURIComponent s) = Some s.
Proof. apply (decode_encode_upto (String.length s)). lia. Qed.

(** What [encodeURIComponent] writes holds none of the characters the
    query string is cut at. *)
Lemma encode_is_plain (s : string) : plain_value (encodeURIComponent s).
Proof.
  unfold plain_value.
  induction s as [|c s IH]; [constructor|].
  rewrite encode_cons, list_ascii_app. apply Forall_app. split; [|exact IH].
  destruct (uriUnreserved c) eqn:E.
  - apply unreserved_is_plain in E as (_ & H1 & H2 & H3).
    repeat constructor; assumption.
  - apply escape_is_plain.
Qed.

Lemma split_at_plain (sep : ascii) (s : string) :
  Forall (fun x => Ascii.eqb x sep = false) (list_ascii_of_string s) ->
  split_at sep s = [s].
Proof.
  induction s as [|c s IH]; intros H; [reflexivity|].
  simpl in H. inversion H as [|? ? Hc Hs]; subst.
  simpl. now rewrite Hc, IH.
Qed.

Lemma split_at_cons (sep c : ascii) (s : string) :
  split_at sep (String c s) =
  if Ascii.eqb c sep then EmptyString :: split_at sep s
  else match split_at sep s with
       | [] => [String c EmptyString]
       | seg :: rest => String c seg :: rest
       end.
Proof. reflexivity. Qed.

(** The query [?path=v] of a read request, for a value without ['&'] and
    ['=']. *)
Lemma parseQuery_path (v : string) :
  plain_value v ->
  MockServer.parseQuery ("/file?path=" ++ v) =
  match decodeURIComponent v with
  | Some d => Some [("path", d)]
  | None => None
  end.
Proof.
  intros Hv.
  assert (Hamp : Forall (fun x => Ascii.eqb x "&" = false)
                   (list_ascii_of_string v)).
  { eapply Forall_impl; [|exact Hv]. now intros a (H & _). }
  assert (Heq : Forall (fun x => Ascii.eqb x "=" = false)
                  (list_ascii_of_string v)).
  { eapply Forall_impl; [|exact Hv]. now intros a (_ & H). }
  unfold MockServer.parseQuery.
  change (after_first "?" ("/file?path=" ++ v)) with (Some ("path=" ++ v)).
  cbv beta iota.
  rewrite (split_at_plain "&" ("path=" ++ v))
    by (repeat (constructor; [reflexivity|]); exact Hamp).
  cbn [fold_left].
  assert (Ekv : split_at "=" ("path=" ++ v) = ["path"; v]).
  { change ("path=" ++ v)
      with (String "p" (String "a" (String "t" (String "h" (String "=" v))))).
    rewrite !split_at_cons. rewrite (split_at_plain "=" v Heq). reflexivity. }
  rewrite Ekv. cbn [hd nth].
  change (decodeURIComponent "path") with (Some "path").
  destruct (decodeURIComponent v); reflexivity.
Qed.

(** X8.  The URL the client builds to open a listed document is its API
    base followed by a request target from which the mock server's
    [parseQuery] gets back the document's [relativePath], whatever
    characters it holds. *)
Theorem client_read_url_parses :
  forall (e : Client.Env) (item : FileInfo),
    utf8_text (fi_relativePath item) = true ->
    exists target,
      Client.f_url (Client.handleOpenFile e item)
        = Client.getApiBase e ++ target /\
      startsWith target "/file" = true /\
      startsWith target "/files" = false /\
      MockServer.parseQuery target = Some [("path", fi_relativePath item)].
Proof.
  intros e item Hwf.
  exists ("/file?path=" ++ encodeURIComponent (fi_relativePath item)).
  repeat split.
  rewrite parseQuery_path by apply encode_is_plain.
  now rewrite decode_encode.
Qed.

Lemma ParseHexOctet_percent_l (l : ascii) : ParseHexOctet "%" l = None.
Proof. reflexivity. Qed.

Lemma ParseHexOctet_percent_r (h : ascii) : ParseHexOctet h "%" = None.
Proof. unfold ParseHexOctet. now destruct (hex_value h). Qed.

(** A ['%'] that is not followed by two hexadecimal digits makes
    [decodeURIComponent] throw, wherever it stands. *)
Lemma decode_bad_escape (n : nat) :
  forall a, String.length a <= n ->
  forall b octets need,
    no_hex_pair b -> decode_loop (a ++ String "%" b) octets need = None.
Proof.
  induction n as [|n IH]; intros a Hlen b octets need Hb.
  - destruct a; [|simpl in Hlen; lia].
    change ("" ++ String "%" b) with (String "%" b).
    destruct need as [|k]; cbn [decode_loop];
      change (Ascii.eqb "%" "%") with true; cbv iota;
      destruct b as [|h [|l rest]]; try reflexivity;
      simpl in Hb; now rewrite Hb.
  - destruct a as [|c a].
    { apply (IH ""); [simpl; lia | exact Hb]. }
    destruct need as [|k].
    + change (String c a ++ String "%" b) with (String c (a ++ String "%" b)).
      cbn [decode_loop]. destruct (Ascii.eqb c "%").
      * destruct a as [|h [|l a]].
        -- change ("" ++ String "%" b) with (String "%" b). cbv iota.
           destruct b; [reflexivity|]. now rewrite ParseHexOctet_percent_l.
        -- change (String h "" ++ String "%" b)
             with (String h (String "%" b)). cbv iota.
           now rewrite ParseHexOctet_percent_r.
        -- change (String h (String l a) ++ String "%" b)
             with (String h (String l (a ++ String "%" b))). cbv iota.
           destruct (ParseHexOctet h l) as [B|]; [|reflexivity].
           simpl in Hlen.
           destruct (leading_ones (nat_of_ascii B)) as [|[|[|[|[|?]]]]];
             try reflexivity; rewrite IH by (assumption || lia); reflexivity.
      * simpl in Hlen. rewrite IH by (assumption || lia). reflexivity.
    + destruct a as [|h [|l a]].
      * change (String c "" ++ String "%" b) with (String c (String "%" b)).
        cbn [decode_loop]. destruct b; [reflexivity|].
        destruct (Ascii.eqb c "%"); [|reflexivity].
        now rewrite ParseHexOctet_percent_l.
      * change (String c (String h "") ++ String "%" b)
          with (String c (String h (String "%" b))).
        cbn [decode_loop]. destruct (Ascii.eqb c "%"); [|reflexivity].
        now rewrite ParseHexOctet_percent_r.
      * change (String c (String h (String l a)) ++ String "%" b)
          with (String c (String h (String l (a ++ String "%" b)))).
        cbn [decode_loop]. destruct (Ascii.eqb c "%"); [|reflexivity].
        destruct (ParseHexOctet h l) as [B|]; [|reflexivity].
        simpl in Hlen. cbv zeta.
        destruct k as [|k].
        -- destruct (utf8_code_point (octets ++ [B])); [|reflexivity].
           rewrite IH by (assumption || lia). reflexivity.
        -- apply IH; [lia | exact Hb].
Qed.

Lemma startsWith_longer (s p q : string) :
  startsWith s (p ++ q) = true -> startsWith s p = true.
Proof.
  revert s. induction p as [|a p IH]; intros s H; [reflexivity|].
  destruct s as [|b s]; [discriminate|]. simpl in H |- *.
  apply andb_true_iff in H as [H1 H2]. rewrite H1. now apply IH.
Qed.

Lemma bind_assoc {A B C} (m : M A) (k : A -> M B) (h : B -> M C) (w : world) :
  bind (bind m k) h w = bind m (fun a => bind (k a) h) w.
Proof. unfold bind. destruct (m w) as [[a | e |] w']; reflexivity. Qed.

Section MockRouting.

Variable cwd : string.
Variable BASE_DIR : string.
Variable REQ_TOKEN : string.

(** [handleReadFile] once the query is parsed. *)
Lemma handleReadFile_parsed (req : MockServer.request)
  (q : list (string * string)) (w : world) :
  MockServer.parseQuery (MockServer.url req) = Some q ->
  MockServer.handleReadFile cwd BASE_DIR REQ_TOKEN req w =
  (Mock.handleReadFile cwd BASE_DIR REQ_TOKEN (MockServer.authorization req)
     (assoc "path" q) ;; ret MockServer.Answered) w.
Proof.
  intros Hq. unfold MockServer.handleReadFile, Mock.handleReadFile.
  rewrite Hq, bind_assoc. apply bind_ext; [reflexivity|].
  intros ok w0. destruct ok; step; [|reflexivity].
  destruct (truthy_string
              (strip_leading_slashes
                 match assoc "path" q with Some p => p | None => "" end));
    step; [|reflexivity].
  destruct (isPathInside cwd BASE_DIR _); step; reflexivity.
Qed.

(** X9.  The mock server answers the read request the client sends for a
    [relativePath] exactly as the unified server's [GET /file] answers
    that path: same response, same [fs] calls, same tree. *)
Theorem mock_server_reads_like_unified :
  forall (fuel : nat) (authorization : option string) (parsed : option value)
         (rel : string) (w : world),
    utf8_text rel = true ->
    MockServer.server cwd BASE_DIR REQ_TOKEN fuel
      {| MockServer.method := "GET";
         MockServer.url := "/file?path=" ++ encodeURIComponent rel;
         MockServer.authorization := authorization;
         MockServer.parsed := parsed |} w
    = (Unified.file cwd BASE_DIR REQ_TOKEN authorization (Some rel) ;;
       ret MockServer.Answered) w.
Proof.
  intros fuel authorization parsed rel w Hwf.
  unfold MockServer.server. cbn [MockServer.method MockServer.url].
  change ("GET" =? "OPTIONS") with false.
  change ("GET" =? "POST") with false.
  change ("GET" =? "GET") with true.
  change (startsWith ("/file?path=" ++ encodeURIComponent rel) "/files")
    with false.
  change (startsWith ("/file?path=" ++ encodeURIComponent rel) "/file")
    with true.
  change (truthy_string ("/file?path=" ++ encodeURIComponent rel)) with true.
  cbn [andb].
  rewrite (handleReadFile_parsed _ [("path", rel)]).
  - cbn [MockServer.authorization assoc]. change ("path" =? "path") with true.
    cbv iota. unfold bind. now rewrite mock_handleReadFile.
  - cbn [MockServer.url]. rewrite parseQuery_path by apply encode_is_plain.
    now rewrite decode_encode.
Qed.

(** X10.  A read request whose query string [parseQuery] cannot decode is
    left without any response by the mock server: after the credential
    check, which still answers [401] first, the handler throws before it
    sends anything or touches the file system.  This is what happens
    whenever the value of [path] holds a ['%'] that is not followed by two
    hexadecimal digits. *)
Theorem malformed_query_is_not_answered :
  forall (fuel : nat) (authorization : option string) (parsed : option value)
         (w : world),
    let unanswered :=
      if auth_ok REQ_TOKEN authorization
      then (Val MockServer.Rejected, w)
      else (Val MockServer.Answered, set_res (reply 401 "Unauthorized") w) in
    (forall url,
       startsWith url "/file" = true ->
       startsWith url "/files" = false ->
       MockServer.parseQuery url = None ->
       MockServer.server cwd BASE_DIR REQ_TOKEN fuel
         {| MockServer.method := "GET"; MockServer.url := url;
            MockServer.authorization := authorization;
            MockServer.parsed := parsed |} w = unanswered) /\
    (forall a b,
       plain_value (a ++ String "%" b) ->
       no_hex_pair b ->
       MockServer.server cwd BASE_DIR REQ_TOKEN fuel
         {| MockServer.method := "GET";
            MockServer.url := "/file?path=" ++ a ++ String "%" b;
            MockServer.authorization := authorization;
            MockServer.parsed := parsed |} w = unanswered).
Proof.
  intros fuel authorization parsed w unanswered.
  assert (Hgen : forall url,
            startsWith url "/file" = true ->
            startsWith url "/files" = false ->
            MockServer.parseQuery url = None ->
            MockServer.server cwd BASE_DIR REQ_TOKEN fuel
              {| MockServer.method := "GET"; MockServer.url := url;
                 MockServer.authorization := authorization;
                 MockServer.parsed := parsed |} w = unanswered).
  { intros url Hfile Hfiles Hq.
    unfold MockServer.server. cbn [MockServer.method MockServer.url].
    rewrite Hfile, Hfiles.
    change ("GET" =? "OPTIONS") with false.
    change ("GET" =? "POST") with false.
    change ("GET" =? "GET") with true.
    assert (Ht : truthy_string url = true)
      by (destruct url; [discriminate | reflexivity]).
    rewrite Ht. cbn [andb].
    unfold MockServer.handleReadFile. cbn [MockServer.url].
    rewrite Hq. unfold bind. cbn [MockServer.authorization].
    rewrite mock_authorized_run, authCheck_run. subst unanswered.
    destruct (auth_ok REQ_TOKEN authorization); reflexivity. }
  split; [exact Hgen|].
  intros a b Hplain Hb. apply Hgen; try reflexivity.
  rewrite parseQuery_path by assumption. unfold decodeURIComponent.
  now rewrite (decode_bad_escape (String.length a)).
Qed.

(** X11.  Outside its three routes the mock server checks no credential
    and touches no file: [OPTIONS] on any URL is acknowledged and every
    other request gets [404]; and the routes are chosen by prefix, so that
    any [GET] URL that begins with ["/files"] is a listing. *)
Theorem mock_routing :
  forall (fuel : nat) (req : MockServer.request) (w : world),
    (MockServer.method req = "OPTIONS" ->
     MockServer.server cwd BASE_DIR REQ_TOKEN fuel req w
     = (Val MockServer.Preflighted, w)) /\
    (MockServer.method req <> "OPTIONS" ->
     (MockServer.method req = "POST" ->
      startsWith (MockServer.url req) "/upload" = false) ->
     (MockServer.method req = "GET" ->
      startsWith (MockServer.url req) "/file" = false) ->
     MockServer.server cwd BASE_DIR REQ_TOKEN fuel req w
     = (Val MockServer.Answered, set_res (reply 404 "Not Found") w)) /\
    (MockServer.method req = "GET" ->
     startsWith (MockServer.url req) "/files" = true ->
     MockServer.server cwd BASE_DIR REQ_TOKEN fuel req w
     = (Unified.files cwd BASE_DIR REQ_TOKEN fuel
          (MockServer.authorization req) ;; ret MockServer.Answered) w).
Proof.
  intros fuel req w. unfold MockServer.server. repeat split.
  - intros ->. reflexivity.
  - intros Hopt Hpost Hget.
    destruct (String.eqb_spec (MockServer.method req) "OPTIONS") as [|_];
      [contradiction|].
    destruct (String.eqb_spec (MockServer.method req) "POST") as [E|_].
    + rewrite (Hpost E), andb_false_r.
      destruct (String.eqb_spec (MockServer.method req) "GET") as [E'|_];
        [rewrite E in E'; discriminate|]. reflexivity.
    + cbn [andb].
      destruct (String.eqb_spec (MockServer.method req) "GET") as [E|_];
        [|reflexivity].
      assert (Hfiles : startsWith (MockServer.url req) "/files" = false).
      { destruct (startsWith (MockServer.url req) "/files") eqn:Es;
          [|reflexivity].
        apply (startsWith_longer _ "/file" "s") in Es.
        rewrite (Hget E) in Es. discriminate. }
      rewrite Hfiles, (Hget E), !andb_false_r. reflexivity.
  - intros -> Hfiles.
    change ("GET" =? "OPTIONS") with false.
    change ("GET" =? "POST") with false.
    change ("GET" =? "GET") with true.
    assert (Ht : truthy_string (MockServer.url req) = true).
    { destruct (MockServer.url req); [discriminate | reflexivity]. }
    rewrite Ht, Hfiles. cbn [andb]. unfold bind.
    now rewrite mock_handleListFiles.
Qed.

End MockRouting.

(** ** The client and the servers *)

Lemma string_of_list_app (a b : list ascii) :
  string_of_list_ascii (a ++ b) =
  string_of_list_ascii a ++ string_of_list_ascii b.
Proof. induction a as [|c a IH]; [reflexivity|]. simpl. now rewrite IH. Qed.

Lemma rev_string_app (a b : string) :
  rev_string (a ++ b) = rev_string b ++ rev_string a.
Proof.
  unfold rev_string. now rewrite list_ascii_app, rev_app_distr, string_of_list_app.
Qed.

Lemma rev_string_involutive (s : string) : rev_string (rev_string s) = s.
Proof.
  unfold rev_string.
  now rewrite list_ascii_of_string_of_list_ascii, rev_involutive,
    string_of_list_ascii_of_string.
Qed.

Lemma strip_prefix_app (p s : string) : strip_prefix p (p ++ s) = Some s.
Proof.
  induction p as [|a p IH]; [reflexivity|]. simpl.
  now rewrite Ascii.eqb_refl.
Qed.

Lemma strip_suffix_app (suf t : string) :
  strip_suffix suf (t ++ suf) = Some t.
Proof.
  unfold strip_suffix. rewrite rev_string_app, strip_prefix_app. simpl.
  now rewrite rev_string_involutive.
Qed.

Lemma strip_leading_not_absolute (s : string) :
  path.isAbsolute (strip_leading_slashes s) = false.
Proof.
  induction s as [|c s IH]; [reflexivity|].
  destruct (Ascii.eqb_spec c "/") as [->|Hc]; [exact IH|].
  replace (strip_leading_slashes (String c s)) with (String c s).
  - rewrite isAbsolute_cons. now apply Ascii.eqb_neq.
  - symmetry. apply strip_not_absolute. rewrite isAbsolute_cons.
    now apply Ascii.eqb_neq.
Qed.

Lemma endsWith_slash_rev (s : string) :
  endsWith s "/" = path.isAbsolute (rev_string s).
Proof.
  destruct (endsWith s "/") eqn:E.
  - apply endsWith_iff in E as [p ->]. now rewrite rev_string_app.
  - destruct (path.isAbsolute (rev_string s)) eqn:A; [|reflexivity].
    destruct (rev_string s) as [|c r] eqn:R; [discriminate|].
    rewrite isAbsolute_cons in A. apply Ascii.eqb_eq in A. subst c.
    assert (Es : s = rev_string r ++ "/").
    { rewrite <- (rev_string_involutive s), R.
      change (String "/" r) with ("/" ++ r). now rewrite rev_string_app. }
    assert (endsWith s "/" = true) by (apply endsWith_iff; now exists (rev_string r)).
    congruence.
Qed.

Lemma strip_trailing_no_slash (s : string) :
  endsWith (strip_trailing_slashes s) "/" = false.
Proof.
  rewrite endsWith_slash_rev. unfold strip_trailing_slashes.
  rewrite rev_string_involutive. apply strip_leading_not_absolute.
Qed.

Lemma strip_trailing_id (s : string) :
  endsWith s "/" = false -> strip_trailing_slashes s = s.
Proof.
  intros H. unfold strip_trailing_slashes.
  rewrite strip_not_absolute by (now rewrite <- endsWith_slash_rev).
  apply rev_string_involutive.
Qed.

Lemma no_slash_is_not_slash (s : string) :
  endsWith s "/" = false -> s <> "/".
Proof. intros H ->. discriminate. Qed.

(** [strip_upload] on an endpoint that ends in ["/upload"], with or
    without a slash after it. *)
Lemma strip_upload_endpoint (B : string) :
  Client.strip_upload (B ++ "/upload") = B /\
  Client.strip_upload (B ++ "/upload/") = B.
Proof.
  unfold Client.strip_upload. split.
  - assert (E1 : strip_suffix "upload/" (B ++ "/upload") = None).
    { unfold strip_suffix. now rewrite rev_string_app. }
    rewrite E1.
    assert (E2 : strip_suffix "upload" (B ++ "/upload") = Some (B ++ "/")).
    { change (B ++ "/upload") with (B ++ ("/" ++ "upload")).
      rewrite <- append_assoc. apply strip_suffix_app. }
    rewrite E2. now rewrite strip_suffix_app.
  - assert (E1 : strip_suffix "upload/" (B ++ "/upload/") = Some (B ++ "/")).
    { change (B ++ "/upload/") with (B ++ ("/" ++ "upload/")).
      rewrite <- append_assoc. apply strip_suffix_app. }
    rewrite E1. now rewrite strip_suffix_app.
Qed.

Lemma append_nonempty (a b : string) : b <> "" -> a ++ b <> "".
Proof. intros H E. destruct a; simpl in E; [contradiction | discriminate]. Qed.

Lemma normalize_result (cleaned : string) :
  endsWith cleaned "/" = false ->
  (if (cleaned =? "") || (cleaned =? "/") then "" else cleaned) = cleaned.
Proof.
  intros H. destruct (String.eqb_spec cleaned "") as [->|]; [reflexivity|].
  destruct (String.eqb_spec cleaned "/") as [->|]; [discriminate|].
  reflexivity.
Qed.

(** X12.  The API base the dialog computes never ends in a slash, so its
    URLs have exactly one slash before [files] and [file]; and for an
    upload endpoint [B/upload] or [B/upload/] it is [B] without its
    trailing slashes: the dialog lists and reads on the server that
    [saveToServer] uploads to. *)
Theorem api_base_of_upload_endpoint :
  forall e : Client.Env,
    endsWith (Client.getApiBase e) "/" = false /\
    (forall B,
       Client.VITE_UPLOAD_ENDPOINT e = Some (B ++ "/upload") \/
       Client.VITE_UPLOAD_ENDPOINT e = Some (B ++ "/upload/") ->
       Client.getApiBase e = strip_trailing_slashes B) /\
    (forall B defaultName name serialized f,
       endsWith B "/" = false ->
       Client.VITE_UPLOAD_ENDPOINT e <> Some "" ->
       Client.saveToServer e defaultName name serialized = Some f ->
       Client.f_url f = B ++ "/upload" ->
       Client.f_url (Client.fetchFiles e) = B ++ "/files" /\
       forall item,
         Client.f_url (Client.handleOpenFile e item)
         = B ++ "/file?path=" ++ encodeURIComponent (fi_relativePath item)).
Proof.
  intros e.
  assert (Hnorm : forall B,
            Client.normalize (Some (B ++ "/upload")) = strip_trailing_slashes B /\
            Client.normalize (Some (B ++ "/upload/")) = strip_trailing_slashes B).
  { intros B. destruct (strip_upload_endpoint B) as [E1 E2].
    unfold Client.normalize. split.
    - destruct (B ++ "/upload") as [|c s] eqn:E;
        [now apply append_nonempty in E|].
      rewrite E1. apply normalize_result, strip_trailing_no_slash.
    - destruct (B ++ "/upload/") as [|c s] eqn:E;
        [now apply append_nonempty in E|].
      rewrite E2. apply normalize_result, strip_trailing_no_slash. }
  assert (Hbase : forall B,
            Client.VITE_UPLOAD_ENDPOINT e = Some (B ++ "/upload") \/
            Client.VITE_UPLOAD_ENDPOINT e = Some (B ++ "/upload/") ->
            Client.getApiBase e = strip_trailing_slashes B).
  { intros B [E | E]; unfold Client.getApiBase; rewrite E; apply Hnorm. }
  split; [|split; [exact Hbase|]].
  - unfold Client.getApiBase.
    destruct (Client.VITE_UPLOAD_ENDPOINT e) as [x|].
    + unfold Client.normalize. destruct x as [|c x]; [reflexivity|].
      set (cleaned := strip_trailing_slashes
                        (Client.strip_upload (String c x))).
      destruct (String.eqb_spec cleaned "") as [|]; [reflexivity|].
      destruct (String.eqb_spec cleaned "/") as [|]; [reflexivity|].
      apply strip_trailing_no_slash.
    + destruct (Client.DEV e); reflexivity.
  - intros B defaultName name serialized f HB Hne Hsave Hurl.
    assert (Eb : Client.getApiBase e = B).
    { unfold Client.saveToServer in Hsave.
      destruct (Client.VITE_UPLOAD_ENDPOINT e) as [[|c x]|] eqn:Ev.
      - now contradiction Hne.
      - inversion Hsave; subst f. simpl in Hurl.
        rewrite (Hbase B) by (left; now rewrite Hurl).
        now apply strip_trailing_id.
      - unfold Client.getApiBase. rewrite Ev.
        destruct (Client.DEV e); [|discriminate].
        inversion Hsave; subst f. simpl in Hurl.
        change "http://localhost:8787/upload"
          with ("http://localhost:8787" ++ "/upload") in Hurl.
        apply (f_equal rev_string) in Hurl.
        rewrite !rev_string_app in Hurl.
        apply (f_equal (strip_prefix (rev_string "/upload"))) in Hurl.
        rewrite !strip_prefix_app in Hurl. inversion Hurl as [E].
        apply (f_equal rev_string) in E.
        now rewrite !rev_string_involutive in E. }
    unfold Client.fetchFiles, Client.handleOpenFile. cbn [Client.f_url].
    now rewrite Eb.
Qed.

(** The name of a listed document without its extension. *)
Lemma strip_extension_rev_spec (ext r : list ascii) :
  Forall (fun c => Ascii.eqb c "." = false) ext ->
  forall seen,
    Client.strip_extension_rev (ext ++ "."%char :: r) seen =
    match (rev ext ++ seen)%list with
    | [] => None
    | _ => Some r
    end.
Proof.
  induction ext as [|c ext IH]; intros Hext seen.
  - simpl. reflexivity.
  - inversion Hext as [|? ? Hc Hrest]; subst.
    simpl. rewrite Hc, IH by assumption.
    now rewrite <- app_assoc.
Qed.

Lemma strip_extension_drawnix (b : string) :
  Client.strip_extension (b ++ ".drawnix") = b.
Proof.
  unfold Client.strip_extension.
  rewrite list_ascii_app, rev_app_distr.
  change (rev (list_ascii_of_string ".drawnix"))
    with (list_ascii_of_string "xinward" ++ "."%char :: [])%list.
  rewrite <- app_assoc.
  change (("."%char :: []) ++ rev (list_ascii_of_string b))%list
    with ("."%char :: rev (list_ascii_of_string b)).
  rewrite strip_extension_rev_spec by (repeat constructor).
  simpl. now rewrite rev_involutive, string_of_list_ascii_of_string.
Qed.

(** X13.  For every name the servers list (it ends in [".drawnix"]) the
    name the dialog gives the opened document is the name without that
    suffix, even when it holds other dots; the one name it cannot
    represent is [".drawnix"] itself, which becomes [null]. *)
Theorem baseName_of_listed_name :
  forall name : string,
    endsWith name ".drawnix" = true ->
    (name = ".drawnix" /\ Client.baseName name = None) \/
    (exists b, b <> "" /\ name = b ++ ".drawnix" /\
               Client.baseName name = Some b).
Proof.
  intros name H. apply endsWith_iff in H as [b ->].
  unfold Client.baseName. rewrite strip_extension_drawnix.
  destruct b as [|c b]; [now left | right].
  exists (String c b). repeat split. discriminate.
Qed.

Lemma append_inj_l (p a b : string) : p ++ a = p ++ b -> a = b.
Proof.
  induction p as [|c p IH]; intros H; [exact H|].
  simpl in H. inversion H. now apply IH.
Qed.

(** X14.  Every request of the client carries the same credential, and
    the servers accept it exactly when they have no token or the client
    was built with the server's token. *)
Theorem client_token_matches_server :
  forall (e : Client.Env) (REQ_TOKEN : string) (w : world),
    let header := Client.bearer (Client.VITE_UPLOAD_TOKEN e) in
    Client.f_authorization (Client.fetchFiles e) = header /\
    (forall item,
       Client.f_authorization (Client.handleOpenFile e item) = header) /\
    (forall defaultName name serialized f,
       Client.saveToServer e defaultName name serialized = Some f \/
       Client.saveToServer_v1 e defaultName name serialized = Some f ->
       Client.f_authorization f = header) /\
    (Unified.authCheck REQ_TOKEN header w = (Val true, w) <->
     REQ_TOKEN = "" \/ Client.VITE_UPLOAD_TOKEN e = Some REQ_TOKEN) /\
    Mock.authorized REQ_TOKEN header w = Unified.authCheck REQ_TOKEN header w.
Proof.
  intros e REQ_TOKEN w header.
  split; [reflexivity|]. split; [reflexivity|]. split; [|split].
  - intros defaultName name serialized f [H | H].
    + unfold Client.saveToServer in H.
      destruct (Client.VITE_UPLOAD_ENDPOINT e) as [[|c x]|];
        destruct (Client.DEV e); simpl in H; try discriminate;
        now inversion H.
    + unfold Client.saveToServer_v1 in H.
      destruct (Client.VITE_UPLOAD_ENDPOINT e) as [[|c x]|];
        try discriminate; now inversion H.
  - rewrite authCheck_run.
    assert (Hiff : auth_ok REQ_TOKEN header = true <->
                   REQ_TOKEN = "" \/ Client.VITE_UPLOAD_TOKEN e = Some REQ_TOKEN).
    { rewrite auth_ok_iff. subst header. unfold Client.bearer.
      destruct (Client.VITE_UPLOAD_TOKEN e) as [[|c t]|]; simpl.
      - split; [intros [H | H]; [now left | discriminate]|].
        intros [H | H]; [now left | inversion H; now left].
      - split.
        + intros [H | H]; [now left | right].
          apply (append_inj_l "Bearer ") in H. now rewrite H.
        + intros [H | H]; [now left | right]. now inversion H.
      - split; [intros [H | H]; [now left | discriminate]|].
        intros [H | H]; [now left | discriminate]. }
    destruct (auth_ok REQ_TOKEN header) eqn:E.
    + split; [intros _; now apply Hiff | reflexivity].
    + split; [discriminate|]. intros H. apply Hiff in H. discriminate.
  - apply mock_authorized_run.
Qed.

(** The last segment of a path that ends in a suffix without ['/'] ends in
    that suffix. *)
Lemma split_app_suffix (suf : string) :
  slash_free suf = true ->
  forall p, exists l x, path.split (p ++ suf) = (l ++ [(x ++ suf)%string])%list.
Proof.
  intros Hs. induction p as [|c p (l & x & IH)].
  - exists [], "". simpl. now apply split_slash_free.
  - change (String c p ++ suf) with (String c (p ++ suf)).
    rewrite split_cons, IH.
    destruct (Ascii.eqb c "/").
    + now exists ("" :: l), x.
    + destruct l as [|l0 l]; simpl.
      * now exists [], (String c x).
      * now exists (String c l0 :: l), x.
Qed.

Lemma basename_suffix (p suf : string) :
  slash_free suf = true -> suf <> "" ->
  endsWith (path.basename (p ++ suf)) suf = true.
Proof.
  intros Hs Hne. destruct (split_app_suffix suf Hs p) as (l & x & E).
  unfold path.basename. rewrite E, filter_app. simpl.
  assert (Ht : truthy_string (x ++ suf) = true).
  { destruct (x ++ suf) eqn:Ex; [|reflexivity].
    now apply append_nonempty in Ex. }
  rewrite Ht, last_last. apply endsWith_iff. now exists x.
Qed.

Section SaveRequests.

Variable cwd : string.
Hypothesis cwd_absolute : path.isAbsolute cwd = true.
Variable BASE_DIR : string.
Variable REQ_TOKEN : string.

(** What [saveToServer] sends, in either form. *)
Lemma save_body_shape (e : Client.Env) (defaultName : string)
  (name : option string) (serialized : string) (f : Client.Fetch)
  (body : value) :
  Client.saveToServer e defaultName name serialized = Some f \/
  Client.saveToServer_v1 e defaultName name serialized = Some f ->
  Client.f_body f = Some body ->
  exists n,
    body = Client.upload_body n serialized (Client.VITE_UPLOAD_DIR e).
Proof.
  intros [H | H] Hb.
  - unfold Client.saveToServer in H.
    destruct (Client.VITE_UPLOAD_ENDPOINT e) as [[|c x]|];
      destruct (Client.DEV e); simpl in H; try discriminate;
      inversion H; subst f; simpl in Hb; inversion Hb; eauto.
  - unfold Client.saveToServer_v1 in H.
    destruct (Client.VITE_UPLOAD_ENDPOINT e) as [[|c x]|];
      try discriminate;
      inversion H; subst f; simpl in Hb; inversion Hb; eauto.
Qed.

Lemma upload_body_fields (n serialized : string) (dir : option string) :
  let body := Client.upload_body n serialized dir in
  upload_field body "filename" = JStr (n ++ ".drawnix") /\
  upload_field body "content" = JStr serialized /\
  dir_string body = Some (match dir with Some d => d | None => "" end).
Proof.
  unfold Client.upload_body, dir_string, upload_field.
  cbn [truthy get_prop assoc app].
  change ("filename" =? "filename") with true.
  change ("filename" =? "content") with false.
  change ("content" =? "content") with true.
  change ("filename" =? "dir") with false.
  change ("content" =? "dir") with false.
  cbv iota.
  assert (Hn : or_empty (JStr (n ++ ".drawnix")) = JStr (n ++ ".drawnix")).
  { unfold or_empty. simpl.
    destruct (n ++ ".drawnix") eqn:E; [|reflexivity].
    now apply append_nonempty in E. }
  split; [exact Hn|]. split.
  - unfold or_empty. simpl. now destruct serialized.
  - destruct dir as [[|c d]|]; reflexivity.
Qed.

(** X15.  The body that [saveToServer] builds (either form, any name,
    any board) has the fields the upload route asks for.  When the route
    of the unified server has it as its [req.body], on a machine without
    symbolic links, the handler returns and does not answer
    ["filename required"]; and when it answers [200] with a path within
    the limits of the platform, the file at that path holds the
    serialized board in UTF-8 (the serialized text itself when that is
    well-formed), and its name ends in [".drawnix"], which is what the
    listing looks for. *)
Theorem client_save_request_is_well_formed :
  forall (e : Client.Env) (defaultName : string) (name : option string)
         (serialized : string) (f : Client.Fetch) (body : value) (w : world),
    Client.saveToServer e defaultName name serialized = Some f \/
    Client.saveToServer_v1 e defaultName name serialized = Some f ->
    Client.f_body f = Some body ->
    without_symlinks (w_fs w) = w_fs w ->
    let run :=
      serve (Unified.upload cwd BASE_DIR REQ_TOKEN
               (Client.f_authorization f) body) w in
    (exists n,
       upload_field body "filename" = JStr (n ++ ".drawnix") /\
       upload_field body "content" = JStr serialized /\
       dir_string body <> None) /\
    fst run = Val tt /\
    w_res (snd run) <> Some (reply 400 "filename required") /\
    (forall p size,
       w_res (snd run) = Some {| status := 200; json := BUpload p size |} ->
       platform_path p = true ->
       size = byteLength serialized /\
       lookup (w_fs (snd run)) (fs_segs cwd p)
         = inr (File (Buffer_from serialized) (w_now w)) /\
       (utf8_text serialized = true -> Buffer_from serialized = serialized) /\
       exists q k,
         fs_segs cwd p = (q ++ [k])%list /\ endsWith k ".drawnix" = true).
Proof.
  intros e defaultName name serialized f body w Hsave Hb _ run.
  destruct (save_body_shape _ _ _ _ _ _ Hsave Hb) as [n ->].
  destruct (upload_body_fields n serialized (Client.VITE_UPLOAD_DIR e))
    as (Hf & Hc & Hd).
  set (body := Client.upload_body n serialized (Client.VITE_UPLOAD_DIR e)) in *.
  split.
  { exists n. split; [exact Hf|]. split; [exact Hc|]. rewrite Hd. discriminate. }
  destruct (n ++ ".drawnix") as [|c0 f0] eqn:En;
    [now apply append_nonempty in En|].
  pose proof (upload_cases cwd BASE_DIR REQ_TOKEN (Client.f_authorization f)
                body {| w_fs := w_fs w; w_now := w_now w; w_log := w_log w;
                        w_res := None |}) as H.
  change (Unified.upload cwd BASE_DIR REQ_TOKEN (Client.f_authorization f)
            body _) with run in H.
  assert (Hname : endsWith (path.basename (String c0 f0)) ".drawnix" = true).
  { rewrite <- En. now apply basename_suffix. }
  inversion H as [ H1 | H1 H2 | c f' H1 H2 H3 | c f' d H1 H2 H3 H4
                 | c f' d er H1 H2 H3 H4 H5 | c f' d fs1 H1 H2 H3 H4 H5 H6
                 | c f' d fs1 dt er H1 H2 H3 H4 H5 H6 H7
                 | c f' d fs1 dt fs2 H1 H2 H3 H4 H5 H6 H7 ];
    simpl fst; simpl snd; simpl w_res.
  - repeat split; try discriminate.
  - exfalso. now apply (H2 c0 f0).
  - rewrite Hd in H3. discriminate.
  - repeat split; try discriminate.
  - repeat split; try discriminate.
  - rewrite Hc in H6. discriminate.
  - repeat split; try discriminate.
  - split; [reflexivity|]. split; [discriminate|].
    intros p size Hp _. inversion Hp; subst p size.
    rewrite Hc in H6. inversion H6; subst dt.
    rewrite Hf in H2. inversion H2; subst c f'.
    split; [reflexivity|]. split; [|split].
    + now apply (lookup_write_at _ _ _ _ _ H7).
    + apply Buffer_from_utf8.
    + exists (path.resolve_segs cwd [BASE_DIR; d]), (path.basename (String c0 f0)).
      split; [|exact Hname].
      rewrite target_path_segs by assumption.
      apply push_segs_name, document_name_valid;
        [apply basename_slash_free | exact Hname].
Qed.

End SaveRequests.

(** ** The listing: what it does to the machine, and reading what it
       lists *)

Section ListReads.

Variable cwd : string.

(** The walk makes reading calls only, and changes nothing but the log. *)
Lemma list_walk_reads (fuel : nat) :
  forall (dir base : string) (w : world),
  exists ops,
    snd (listDrawnixFiles cwd fuel dir base w) = add_logs ops w /\
    Forall reading_op ops.
Proof.
  induction fuel as [|f IHf]; intros dir base w.
  - exists []. simpl. now rewrite add_logs_nil.
  - rewrite listDrawnixFiles_S. unfold bind at 1.
    pose proof (readdir_frame cwd dir w) as Hr.
    destruct (fsp_readdir cwd dir w) as [[ents | e |] w1]; simpl in Hr;
      subst w1;
      try (exists [IoReaddir dir]; split; [reflexivity | now repeat constructor]).
    assert (Hloop : forall l results w1,
      exists ops,
        snd (list_loop cwd (fun abs => listDrawnixFiles cwd f abs base)
               dir base l results w1) = add_logs ops w1 /\
        Forall reading_op ops).
    { induction l as [|ent l IHl]; intros results w1.
      - exists []. simpl. now rewrite add_logs_nil.
      - cbn [list_loop]. destruct (isDirectory ent).
        + unfold bind at 1.
          destruct (IHf (path.join dir (d_name ent)) base w1)
            as (ops1 & H1 & R1).
          destruct (listDrawnixFiles cwd f (path.join dir (d_name ent)) base w1)
            as [[nested | e |] w2]; simpl in H1; subst w2;
            try (now exists ops1).
          destruct (IHl (results ++ nested)%list (add_logs ops1 w1))
            as (ops2 & H2 & R2).
          exists (ops1 ++ ops2)%list. rewrite H2, add_logs_add_logs.
          split; [reflexivity | now apply Forall_app].
        + destruct (isFile ent && endsWith (d_name ent) ".drawnix").
          * unfold bind at 1.
            pose proof (stat_frame cwd (path.join dir (d_name ent)) w1) as Hs.
            destruct (fsp_stat cwd (path.join dir (d_name ent)) w1)
              as [[st | e |] w2]; simpl in Hs; subst w2;
              try (exists [IoStat (path.join dir (d_name ent))];
                   split; [reflexivity | now repeat constructor]).
            match goal with
            | |- context [list_loop _ _ _ _ l ?r ?w0] =>
                destruct (IHl r w0) as (ops2 & H2 & R2)
            end.
            exists ([IoStat (path.join dir (d_name ent))] ++ ops2)%list.
            rewrite H2, add_logs_add_logs.
            split; [reflexivity | apply Forall_app; split; [|exact R2]].
            now repeat constructor.
          * apply IHl. }
    destruct (Hloop ents [] (add_logs [IoReaddir dir] w)) as (ops & H & R).
    exists ([IoReaddir dir] ++ ops)%list. rewrite H, add_logs_add_logs.
    split; [reflexivity | apply Forall_app; split; [|exact R]].
    now repeat constructor.
Qed.

Variable BASE_DIR : string.
Variable REQ_TOKEN : string.

(** X16.  [GET /files], on either server and however it ends, never
    creates, changes or removes a regular file: all it can change is to
    create the storage root ([mkdir] is its first call), and every other
    call it makes only reads. *)
Theorem list_is_read_only :
  forall (fuel : nat) (authorization : option string) (w : world),
    let run := Unified.files cwd BASE_DIR REQ_TOKEN fuel authorization w in
    Mock.handleListFiles cwd BASE_DIR REQ_TOKEN fuel authorization w = run /\
    (forall q ct m,
       lookup (w_fs (snd run)) q = inr (File ct m) <->
       lookup (w_fs w) q = inr (File ct m)) /\
    (w_log (snd run) = w_log w \/
     exists ops,
       w_log (snd run) = (w_log w ++ IoMkdir BASE_DIR :: ops)%list /\
       Forall reading_op ops).
Proof.
  intros fuel authorization w run.
  split; [apply mock_handleListFiles|].
  subst run. destruct (auth_ok REQ_TOKEN authorization) eqn:Ha.
  2:{ rewrite unauthorized_files by assumption. simpl.
      split; [reflexivity | now left]. }
  rewrite files_run by assumption.
  destruct (mkdir_p (w_fs w) (fs_segs cwd BASE_DIR)) as [e | fs1] eqn:Hmk.
  { simpl. split; [reflexivity | right]. exists []. now split. }
  destruct (list_walk_reads fuel BASE_DIR BASE_DIR
              (after w fs1 [IoMkdir BASE_DIR] (w_res w))) as (ops & Hw & Hr).
  destruct (listDrawnixFiles cwd fuel BASE_DIR BASE_DIR
              (after w fs1 [IoMkdir BASE_DIR] (w_res w)))
    as [[fs | e |] w1]; simpl in Hw; subst w1; simpl;
    (split; [intros q ct m; now apply (lookup_file_mkdir_p _ _ _ Hmk)
            | right; exists ops; split; [now rewrite <- app_assoc | exact Hr]]).
Qed.

End ListReads.

Lemma last_app_valid (R l : list string) :
  l <> [] -> last (R ++ l) "" = last l "".
Proof.
  intros H. destruct l as [|x l] using rev_ind; [contradiction|].
  now rewrite app_assoc, !last_last.
Qed.

Lemma filter_truthy_valid (l : list string) :
  all_valid l -> filter truthy_string l = l.
Proof.
  induction 1 as [|x l Hx _ IH]; [reflexivity|]. simpl.
  apply valid_name_spec in Hx as (Hne & _).
  destruct x; [contradiction|]. simpl. now rewrite IH.
Qed.

(** The last segment of an absolute path written from its segments. *)
Lemma basename_of_segs (l : list string) :
  l <> [] -> all_valid l ->
  path.basename ("/" ++ path.join_segs l) = last l "".
Proof.
  intros Hne Hv. unfold path.basename.
  change ("/" ++ path.join_segs l) with (String "/" (path.join_segs l)).
  rewrite split_cons. change (Ascii.eqb "/" "/") with true. cbv iota.
  rewrite split_join by (auto using all_valid_slash_free).
  simpl. now rewrite filter_truthy_valid.
Qed.

Section ReadListed.

Variable cwd : string.
Hypothesis cwd_absolute : path.isAbsolute cwd = true.
Variable BASE_DIR : string.
Variable REQ_TOKEN : string.

(** The path [GET /file] reads for a relative path written from valid
    segments. *)
Lemma read_of_segs (l : list string) :
  l <> [] -> all_valid l ->
  let query := Some (path.join_segs l) in
  read_rel query = path.join_segs l /\
  fs_segs cwd (read_abs cwd BASE_DIR query)
  = (fs_segs cwd BASE_DIR ++ l)%list /\
  path.basename (read_abs cwd BASE_DIR query) = last l "".
Proof.
  intros Hne Hv query.
  destruct l as [|s r]; [contradiction|].
  inversion Hv as [|? ? Hs Hr]; subst.
  destruct (join_name_shape s r Hs) as [Htr Hab].
  assert (Erel : read_rel query = path.join_segs (s :: r)).
  { unfold read_rel, query. now apply strip_not_absolute. }
  assert (Esegs : path.resolve_segs cwd [BASE_DIR; path.join_segs (s :: r)]
                  = (fs_segs cwd BASE_DIR ++ s :: r)%list).
  { rewrite resolve_segs_fold by assumption. simpl fold_left.
    rewrite <- fs_segs_one by assumption.
    unfold resolve_one at 1. rewrite Hab.
    rewrite split_join by (try discriminate; now apply all_valid_slash_free).
    now apply push_segs_names. }
  split; [exact Erel|]. unfold read_abs. rewrite Erel. split.
  - now rewrite fs_segs_resolve.
  - rewrite resolve_string, Esegs by assumption.
    rewrite basename_of_segs.
    + now apply last_app_valid.
    + now destruct (fs_segs cwd BASE_DIR).
    + apply all_valid_app. split; [|exact Hv].
      now apply resolve_segs_valid.
Qed.


End ReadListed.

(** ** Uploads into directories that do not exist yet, and bodies that are
       no upload *)

Section NestedUpload.

Variable cwd : string.
Hypothesis cwd_absolute : path.isAbsolute cwd = true.
Variable BASE_DIR : string.
Variable REQ_TOKEN : string.

Lemma path_of_segs (args : list string) :
  path.resolve cwd args
  = "/" ++ path.join_segs (fs_segs cwd (path.resolve cwd args)).
Proof.
  rewrite fs_segs_resolve by assumption. now apply resolve_string.
Qed.

(** X18.  An upload into a directory [dir] below the storage root that
    does not exist yet creates it, with every missing directory on the
    way, and stores the file there, in UTF-8: the answer is [200] with the
    path and the size, on either server.  [dir] is given by segments that
    are names, the first of which does not begin with [".."] (the guard
    would turn that down), the last segment of [filename] is a name, and
    the path of the file is within the limits of the platform. *)
Theorem upload_creates_missing_directories :
  forall (authorization : option string) (req_body : value) (w : world)
         (c : ascii) (f data : string) (q : list string),
    auth_ok REQ_TOKEN authorization = true ->
    upload_field req_body "filename" = JStr (String c f) ->
    ToString (upload_field req_body "content") = Some data ->
    q <> [] -> all_valid q -> startsWith (hd "" q) ".." = false ->
    dir_string req_body = Some (path.join_segs q) ->
    let name := path.basename (String c f) in
    name <> "" -> name <> "." -> name <> ".." ->
    lookup (w_fs w) (fs_segs cwd BASE_DIR ++ q) = inl ENOENT ->
    let run :=
      Unified.upload cwd BASE_DIR REQ_TOKEN authorization req_body w in
    let dir := "/" ++ path.join_segs (fs_segs cwd BASE_DIR ++ q) in
    let p := "/" ++ path.join_segs (fs_segs cwd BASE_DIR ++ q ++ [name]) in
    platform_path p = true ->
    Mock.handleUpload cwd BASE_DIR REQ_TOKEN authorization (Some req_body) w
      = run /\
    fst run = Val tt /\
    w_res (snd run)
      = Some {| status := 200; json := BUpload p (byteLength data) |} /\
    w_log (snd run) = (w_log w ++ [IoMkdir dir; IoWriteFile p data])%list /\
    lookup (w_fs (snd run)) (fs_segs cwd BASE_DIR ++ q ++ [name])
      = inr (File (Buffer_from data) (w_now w)) /\
    lookup (w_fs (snd run)) (fs_segs cwd BASE_DIR ++ q)
      = inr (Dir [(name, File (Buffer_from data) (w_now w))]).
Proof.
  intros authorization req_body w c f data q Ha Hf Hc Hq Hv Hdd Hd name
    Hn1 Hn2 Hn3 Hl run dir p _.
  split; [apply mock_handleUpload|].
  set (R := fs_segs cwd BASE_DIR) in *.
  assert (Hname : valid_name name = true).
  { apply valid_name_spec. repeat split; try assumption.
    apply basename_slash_free. }
  destruct (read_of_segs cwd cwd_absolute BASE_DIR q Hq Hv)
    as (Erel & Esegs & _).
  unfold read_abs in Esegs. rewrite Erel in Esegs. fold R in Esegs.
  assert (HT : fs_segs cwd (target_dir cwd BASE_DIR (path.join_segs q))
               = (R ++ q)%list) by exact Esegs.
  assert (HP : fs_segs cwd (target_path cwd BASE_DIR (String c f)
                              (path.join_segs q))
               = (R ++ q ++ [name])%list).
  { rewrite target_path_segs by assumption.
    rewrite <- (fs_segs_resolve cwd cwd_absolute).
    fold (target_dir cwd BASE_DIR (path.join_segs q)). rewrite HT.
    rewrite push_segs_name by assumption. now rewrite <- app_assoc. }
  assert (Edir : target_dir cwd BASE_DIR (path.join_segs q) = dir).
  { unfold target_dir. rewrite path_of_segs.
    fold (target_dir cwd BASE_DIR (path.join_segs q)). now rewrite HT. }
  assert (Ep : target_path cwd BASE_DIR (String c f) (path.join_segs q) = p).
  { unfold target_path at 1. rewrite path_of_segs.
    fold (target_path cwd BASE_DIR (String c f) (path.join_segs q)).
    now rewrite HP. }
  assert (Hin : isPathInside cwd BASE_DIR
                  (target_path cwd BASE_DIR (String c f) (path.join_segs q))
                = true).
  { apply isPathInside_spec; [assumption|].
    destruct q as [|q0 q']; [contradiction|].
    exists q0, (q' ++ [name])%list. split; [exact HP | exact Hdd]. }
  destruct (mkdir_p_missing _ _ Hl) as (fs1 & Hmk & Hl1).
  pose proof (write_at_child (R ++ q) name (Buffer_from data) (w_now w) fs1 []
                Hl1) as Hw.
  simpl in Hw. destruct Hw as [fs2 Hw].
  rewrite <- app_assoc in Hw.
  pose proof (upload_run_content cwd BASE_DIR REQ_TOKEN authorization req_body
                w c f (path.join_segs q) fs1 Ha Hf Hd Hin) as Hrun.
  rewrite HT in Hrun. specialize (Hrun Hmk).
  rewrite Hc, HP, Hw, Edir, Ep in Hrun.
  subst run. rewrite Hrun. simpl.
  repeat split.
  - now apply (lookup_write_at _ _ _ _ _ Hw).
  - rewrite app_assoc in Hw.
    destruct (write_at_below _ _ _ _ _ _ _ (@app_cons_not_nil _ [] name)
                Hl1 Hw) as (r' & Hw' & Hl').
    simpl in Hw'. inversion Hw'; subst r'. exact Hl'.
Qed.

(** X19.  What the mock server answers to an authorized upload whose body
    is no upload: [400 Invalid JSON] when the body does not parse, and
    [400 filename required] when it parses to anything but an object with
    a non-empty string [filename] ([null], a number, a string and an
    array are read like [{}]).  Nothing is written in either case. *)
Theorem mock_upload_body_errors :
  forall (authorization : option string) (w : world),
    auth_ok REQ_TOKEN authorization = true ->
    Mock.handleUpload cwd BASE_DIR REQ_TOKEN authorization None w
      = (Val tt, set_res (reply 400 "Invalid JSON") w) /\
    (forall body,
       (forall props, body <> JObj props) \/
       (forall c f, get_prop body "filename" <> JStr (String c f)) ->
       Mock.handleUpload cwd BASE_DIR REQ_TOKEN authorization (Some body) w
       = (Val tt, set_res (reply 400 "filename required") w)) /\
    w_fs (set_res (reply 400 "filename required") w) = w_fs w /\
    w_log (set_res (reply 400 "filename required") w) = w_log w.
Proof.
  intros authorization w Ha. split; [|split; [|now split]].
  - unfold Mock.handleUpload. unfold bind.
    now rewrite mock_authorized_run, authCheck_run, Ha.
  - intros body Hbody. rewrite mock_handleUpload.
    apply upload_run_no_filename; [assumption|].
    intros c f E. unfold upload_field in E.
    assert (Hg : forall c f, get_prop (if truthy body then body else JObj [])
                               "filename" <> JStr (String c f)).
    { destruct Hbody as [Hno | Hno].
      - intros c' f' E'.
        destruct body as [| | b | n | s | items | props];
          try (now apply (Hno props));
          simpl in E'; try destruct b; try destruct (num_is_zero_or_nan n);
          try destruct s; discriminate.
      - intros c' f' E'. destruct (truthy body); [now apply (Hno c' f')|].
        discriminate. }
    unfold or_empty in E.
    destruct (truthy (get_prop (if truthy body then body else JObj [])
                        "filename")); [now apply (Hg c f)|discriminate].
Qed.

End NestedUpload.

(** * The further properties at work

    As before the servers run with working directory ["/"] and storage
    root ["/srv/up"]. *)

Lemma upload_io_confined_witness :
  let run :=
    Unified.upload "/" "/srv/up" "" None
      (JObj [("filename", JStr "c.drawnix"); ("dir", JStr "new/deep")])
      sample_world in
  Mock.handleUpload "/" "/srv/up" "" None
    (Some (JObj [("filename", JStr "c.drawnix"); ("dir", JStr "new/deep")]))
    sample_world = run /\
  (w_log (snd run) = w_log sample_world \/
   exists dir q,
     fs_segs "/" dir = (fs_segs "/" "/srv/up" ++ q)%list /\
     (w_log (snd run) = (w_log sample_world ++ [IoMkdir dir])%list \/
      exists p data s r,
        w_log (snd run)
        = (w_log sample_world ++ [IoMkdir dir; IoWriteFile p data])%list /\
        fs_segs "/" p = (fs_segs "/" "/srv/up" ++ s :: r)%list)).
Proof.
  exact (upload_io_confined "/" eq_refl "/srv/up" "" None
           (JObj [("filename", JStr "c.drawnix"); ("dir", JStr "new/deep")])
           sample_world).
Defined.

Lemma read_is_confined_and_read_only_witness :
  let run :=
    Unified.file "/" "/srv/up" "" None (Some "docs/a.drawnix") sample_world in
  Mock.handleReadFile "/" "/srv/up" "" None (Some "docs/a.drawnix")
    sample_world = run /\
  w_fs (snd run) = w_fs sample_world /\
  (w_log (snd run) = w_log sample_world \/
   exists p s r,
     w_log (snd run) = (w_log sample_world ++ [IoReadFile p])%list /\
     fs_segs "/" p = (fs_segs "/" "/srv/up" ++ s :: r)%list).
Proof.
  exact (read_is_confined_and_read_only "/" eq_refl "/srv/up" "" None
           (Some "docs/a.drawnix") sample_world).
Defined.


Lemma top_level_upload_stored_iff_witness :
  let w1 :=
    snd (Unified.upload "/" "/srv/up" "" None
           (JObj [("filename", JStr "x/docs")]) sample_world) in
  ((exists p size,
      w_res w1 = Some {| status := 200; json := BUpload p size |}) <->
   ("docs" <> "" /\ "docs" <> "." /\ startsWith "docs" ".." = false /\
    (forall es', assoc "docs" (dir_entries sample_root) <> Some (Dir es')))) /\
  w_res w1 = Some (reply 500 "Write failed").
Proof.
  intros w1. split; [|reflexivity].
  refine (proj1 (top_level_upload_stored_iff "/" eq_refl "/srv/up" "" None
                   (JObj [("filename", JStr "x/docs")]) sample_world
                   "x"%char "/docs" "" (dir_entries sample_root)
                   eq_refl eq_refl eq_refl eq_refl eq_refl _ eq_refl)).
  intros t. discriminate.
Defined.

Lemma list_creates_missing_root_witness :
  let run := Unified.files "/" "/srv/up" "" 1 None fresh_world in
  Mock.handleListFiles "/" "/srv/up" "" 1 None fresh_world = run /\
  fst run = Val tt /\
  w_res (snd run) = Some {| status := 200; json := BFiles [] |} /\
  w_log (snd run) = [IoMkdir "/srv/up"; IoReaddir "/srv/up"] /\
  lookup (w_fs (snd run)) ["srv"; "up"] = inr (Dir []) /\
  (forall q ct m,
     lookup (w_fs (snd run)) q = inr (File ct m) <->
     lookup (w_fs fresh_world) q = inr (File ct m)).
Proof.
  exact (list_creates_missing_root "/" "/srv/up" "" None fresh_world 0
           eq_refl eq_refl).
Defined.

Lemma root_is_a_regular_file_witness :
  w_res (snd (serve (Unified.upload "/" "/srv/up" "" None
                       (JObj [("filename", JStr "a.drawnix")]))
                blocked_world))
  = Some (reply 500 "Write failed") /\
  (forall p size,
     w_res (snd (serve (Unified.upload "/" "/srv/up" "" None
                          (JObj [("filename", JStr "a.drawnix")]))
                   blocked_world))
     <> Some {| status := 200; json := BUpload p size |}) /\
  w_res (snd (Unified.files "/" "/srv/up" "" 3 None blocked_world))
  = Some (reply 500 "List failed").
Proof.
  destruct (root_is_a_regular_file "/" eq_refl "/srv/up" "" blocked_world
              "not a directory" 5%Z eq_refl) as [Hup Hls].
  split; [reflexivity|]. split.
  - apply (Hup None (JObj [("filename", JStr "a.drawnix")])).
  - apply (Hls None 3 eq_refl).
Defined.

Lemma upload_then_list_witness :
  exists fuel0,
    forall fuel, fuel0 <= fuel ->
      exists listed0 listed1 w0' w1',
        Unified.files "/" "/srv/up" "" fuel None plain_world = (Val tt, w0') /\
        w_res w0' = Some {| status := 200; json := BFiles listed0 |} /\
        Unified.files "/" "/srv/up" "" fuel None
          (snd (Unified.upload "/" "/srv/up" "" None
                  (JObj [("filename", JStr "b.drawnix");
                         ("content", JStr "again")]) plain_world))
        = (Val tt, w1') /\
        w_res w1' = Some {| status := 200; json := BFiles listed1 |} /\
        (forall e,
           In e listed1 <->
           e = {| fi_name := "b.drawnix"; fi_relativePath := "b.drawnix";
                  fi_dir := ""; fi_size := 5; fi_mtime := 100%Z |} \/
           (In e listed0 /\ fi_relativePath e <> "b.drawnix")).
Proof.
  exact (upload_then_list "/" eq_refl "/srv/up" "" None None
           (JObj [("filename", JStr "b.drawnix"); ("content", JStr "again")])
           plain_world _ "b.drawnix" "/srv/up/b.drawnix" 5
           (dir_entries plain_root)
           eq_refl eq_refl eq_refl eq_refl eq_refl eq_refl eq_refl eq_refl
           eq_refl eq_refl eq_refl).
Defined.

Lemma client_read_url_parses_witness :
  exists target,
    Client.f_url
      (Client.handleOpenFile sample_env
         {| fi_name := "a b.drawnix"; fi_relativePath := "docs/a b.drawnix";
            fi_dir := "docs"; fi_size := 1; fi_mtime := 7%Z |})
    = Client.getApiBase sample_env ++ target /\
    startsWith target "/file" = true /\
    startsWith target "/files" = false /\
    MockServer.parseQuery target = Some [("path", "docs/a b.drawnix")].
Proof.
  exact (client_read_url_parses sample_env
           {| fi_name := "a b.drawnix"; fi_relativePath := "docs/a b.drawnix";
              fi_dir := "docs"; fi_size := 1; fi_mtime := 7%Z |} eq_refl).
Defined.

Lemma mock_server_reads_like_unified_witness :
  MockServer.server "/" "/srv/up" "" 3
    {| MockServer.method := "GET";
       MockServer.url := "/file?path=" ++ encodeURIComponent "docs/a.drawnix";
       MockServer.authorization := None;
       MockServer.parsed := None |} sample_world
  = (Unified.file "/" "/srv/up" "" None (Some "docs/a.drawnix") ;;
     ret MockServer.Answered) sample_world.
Proof.
  exact (mock_server_reads_like_unified "/" "/srv/up" "" 3 None None
           "docs/a.drawnix" sample_world eq_refl).
Defined.

Lemma baseName_of_listed_name_witness :
  ("a.b.drawnix" = ".drawnix" /\ Client.baseName "a.b.drawnix" = None) \/
  (exists b, b <> "" /\ "a.b.drawnix" = b ++ ".drawnix" /\
             Client.baseName "a.b.drawnix" = Some b).
Proof. exact (baseName_of_listed_name "a.b.drawnix" eq_refl). Defined.

Lemma client_save_request_is_well_formed_witness :
  let f := {| Client.f_url := "/upload";
              Client.f_method := "POST";
              Client.f_authorization := Some "Bearer s3cret";
              Client.f_body := Some (Client.upload_body "my board" "{}" None) |} in
  Client.saveToServer sample_env "untitled" (Some "  my board ") "{}" = Some f /\
  let run :=
    serve (Unified.upload "/" "/srv/up" "s3cret" (Client.f_authorization f)
             (Client.upload_body "my board" "{}" None)) plain_world in
  fst run = Val tt /\
  w_res (snd run)
  = Some {| status := 200; json := BUpload "/srv/up/my board.drawnix" 2 |} /\
  lookup (w_fs (snd run)) (fs_segs "/" "/srv/up/my board.drawnix")
  = inr (File "{}" (w_now plain_world)).
Proof.
  intros f. split; [reflexivity|]. intros run.
  destruct (client_save_request_is_well_formed "/" eq_refl "/srv/up" "s3cret"
              sample_env "untitled" (Some "  my board ") "{}" f
              (Client.upload_body "my board" "{}" None) plain_world
              (or_introl eq_refl) eq_refl eq_refl)
    as (_ & Hret & _ & Hstored).
  split; [exact Hret|]. split; [reflexivity|].
  destruct (Hstored "/srv/up/my board.drawnix" 2 eq_refl eq_refl)
    as (_ & Hfile & _).
  exact Hfile.
Defined.


Lemma upload_creates_missing_directories_witness :
  Unified.upload "/" "/srv/up" "" None
    (JObj [("filename", JStr "plan.drawnix"); ("content", JStr "{}");
           ("dir", JStr "2024/q1")]) sample_world
  = (Val tt,
     after sample_world
       (w_fs (snd (Unified.upload "/" "/srv/up" "" None
                     (JObj [("filename", JStr "plan.drawnix");
                            ("content", JStr "{}");
                            ("dir", JStr "2024/q1")]) sample_world)))
       [IoMkdir "/srv/up/2024/q1";
        IoWriteFile "/srv/up/2024/q1/plan.drawnix" "{}"]
       (Some {| status := 200;
                json := BUpload "/srv/up/2024/q1/plan.drawnix" 2 |})) /\
  lookup (w_fs (snd (Unified.upload "/" "/srv/up" "" None
                       (JObj [("filename", JStr "plan.drawnix");
                              ("content", JStr "{}");
                              ("dir", JStr "2024/q1")]) sample_world)))
    ["srv"; "up"; "2024"; "q1"]
  = inr (Dir [("plan.drawnix", File "{}" 100%Z)]).
Proof.
  split; [reflexivity|].
  refine (proj2 (proj2 (proj2 (proj2 (proj2
            (upload_creates_missing_directories "/" eq_refl "/srv/up" "" None
               (JObj [("filename", JStr "plan.drawnix");
                      ("content", JStr "{}"); ("dir", JStr "2024/q1")])
               sample_world "p"%char "lan.drawnix" "{}" ["2024"; "q1"]
               eq_refl eq_refl eq_refl _ _ eq_refl eq_refl _ _ _ eq_refl
               eq_refl))))));
    try discriminate.
  repeat constructor.
Defined.

Lemma mock_upload_body_errors_witness :
  Mock.handleUpload "/" "/srv/up" "s3cret" (Some "Bearer s3cret") None
    sample_world
  = (Val tt, set_res (reply 400 "Invalid JSON") sample_world) /\
  Mock.handleUpload "/" "/srv/up" "s3cret" (Some "Bearer s3cret")
    (Some (JArr [JStr "a.drawnix"])) sample_world
  = (Val tt, set_res (reply 400 "filename required") sample_world).
Proof.
  destruct (mock_upload_body_errors "/" "/srv/up" "s3cret"
              (Some "Bearer s3cret") sample_world eq_refl) as (H1 & H2 & _).
  split; [exact H1|]. apply H2. left. discriminate.
Defined.
